(** * my-finances-offline: the persistence core, embedded in Rocq

    The development follows [src/lib/db.ts] (entity store, transaction
    lifecycle, referential integrity, balances), [src/lib/fixedTransactions.ts]
    (monthly regeneration of fixed transactions) and the export / import
    handlers of [src/pages/SettingsPage.tsx]; then [src/lib/budgets.ts], the
    dashboard filter of [src/components/TransactionFilters.tsx] and the
    aggregations of [src/pages/Reports.tsx].

    Modelling conventions.
    - An IndexedDB object store with [keyPath: 'id'] is a [gmap string R];
      [db.put] inserts at the record's own id, [db.getAll] lists the records
      by ascending key, strings compared code unit by code unit.
    - Every [async] function is a state transformer over [World]; promises
      are awaited one after the other, so there is no interleaving.
    - [uuidv4()] and [new Date().toISOString()] are oracles: the [k]-th call
      answers [uuidv4 k], respectively [clock k]; the world counts the calls.
    - A JavaScript [Date] is its time value, milliseconds since the epoch, in
      [Z], or no time value at all (an invalid date). The offset of local
      time is a function of the instant, [LocalTZA(t, isUTC)] of ECMA-262, so
      that a zone may change its offset (daylight saving). Time values are
      not clipped to the range of [Date] (100,000,000 days either side of
      1970).
    - A date string ['YYYY-MM-DD'] is kept as its three numbers ([IsoDate]);
      a string that [new Date] rejects is a record with a field out of
      range.
    - A [number] holding an amount is an IEEE 754 binary64 value with the
      arithmetic of [SpecFloat]: sums round, and their order matters. *)

From Stdlib Require Import ZArith Lia DecimalString.
From Stdlib Require Floats.SpecFloat.
From stdpp Require Import gmap strings list fin_maps sorting.

Local Open Scope Z_scope.

(** ** ECMAScript time values (ECMA-262, section "Date Objects") *)

Module JSDate.

Definition msPerDay : Z := 86400000.

Definition Day (t : Z) : Z := t / msPerDay.
Definition TimeWithinDay (t : Z) : Z := t mod msPerDay.

Definition InLeapYear (y : Z) : bool :=
  if negb (y mod 4 =? 0) then false
  else if negb (y mod 100 =? 0) then true
  else if negb (y mod 400 =? 0) then false
  else true.

Definition DaysInYear (y : Z) : Z := if InLeapYear y then 366 else 365.

Definition DayFromYear (y : Z) : Z :=
  365 * (y - 1970) + (y - 1969) / 4 - (y - 1901) / 100 + (y - 1601) / 400.

(** The largest [y] with [DayFromYear y <= d]: the quotient by the mean
    Gregorian year is off by at most one. *)
Definition YearFromDay (d : Z) : Z :=
  let y0 := 1970 + (400 * d) / 146097 in
  if DayFromYear (y0 + 1) <=? d then y0 + 1
  else if DayFromYear y0 <=? d then y0
  else y0 - 1.

Definition DayWithinYear (d : Z) : Z := d - DayFromYear (YearFromDay d).

Definition leapDay (leap : bool) : Z := if leap then 1 else 0.

(** Day within the year on which month [mn] (0-based) starts. *)
Definition monthStart (mn : Z) (leap : bool) : Z :=
  let L := leapDay leap in
  if mn <=? 0 then 0
  else if mn =? 1 then 31
  else if mn =? 2 then 59 + L
  else if mn =? 3 then 90 + L
  else if mn =? 4 then 120 + L
  else if mn =? 5 then 151 + L
  else if mn =? 6 then 181 + L
  else if mn =? 7 then 212 + L
  else if mn =? 8 then 243 + L
  else if mn =? 9 then 273 + L
  else if mn =? 10 then 304 + L
  else 334 + L.

Definition monthLength (mn : Z) (leap : bool) : Z :=
  if mn =? 1 then 28 + leapDay leap
  else if (mn =? 3) || (mn =? 5) || (mn =? 8) || (mn =? 10) then 30
  else 31.

Definition DaysInMonth (y mn : Z) : Z := monthLength mn (InLeapYear y).

Definition MonthFromDay (d : Z) : Z :=
  let dwy := DayWithinYear d in
  let L := leapDay (InLeapYear (YearFromDay d)) in
  if dwy <? 31 then 0
  else if dwy <? 59 + L then 1
  else if dwy <? 90 + L then 2
  else if dwy <? 120 + L then 3
  else if dwy <? 151 + L then 4
  else if dwy <? 181 + L then 5
  else if dwy <? 212 + L then 6
  else if dwy <? 243 + L then 7
  else if dwy <? 273 + L then 8
  else if dwy <? 304 + L then 9
  else if dwy <? 334 + L then 10
  else 11.

Definition DateFromDay (d : Z) : Z :=
  DayWithinYear d - monthStart (MonthFromDay d) (InLeapYear (YearFromDay d)) + 1.

Definition YearFromTime (t : Z) : Z := YearFromDay (Day t).
Definition MonthFromTime (t : Z) : Z := MonthFromDay (Day t).
Definition DateFromTime (t : Z) : Z := DateFromDay (Day t).

(** [MakeDay(year, month, date)]: months outside 0..11 carry into the year,
    dates outside the month carry into the neighbouring months. *)
Definition MakeDay (year month date : Z) : Z :=
  let ym := year + month / 12 in
  let mn := month mod 12 in
  DayFromYear ym + monthStart mn (InLeapYear ym) + date - 1.

Definition MakeDate (day time : Z) : Z := day * msPerDay + time.

Section LocalTime.

(** [LocalTZA(t, isUTC)]: the offset of local time from UTC, in
    milliseconds, at the instant [t], which is a UTC time value when [isUTC]
    holds and a local one otherwise. *)
Variable LocalTZA : Z -> bool -> Z.

Definition LocalTime (t : Z) : Z := t + LocalTZA t true.
Definition UTC (t : Z) : Z := t - LocalTZA t false.

Definition getFullYear (t : Z) : Z := YearFromTime (LocalTime t).
Definition getMonth (t : Z) : Z := MonthFromTime (LocalTime t).
Definition getDate (t : Z) : Z := DateFromTime (LocalTime t).

(** [new Date(year, month, day)]: local midnight; years 0..99 mean
    1900..1999. *)
Definition fromLocal (year month day : Z) : Z :=
  let yr := if (0 <=? year) && (year <=? 99) then 1900 + year else year in
  UTC (MakeDate (MakeDay yr month day) 0).

Definition setDate (t dt : Z) : Z :=
  let lt := LocalTime t in
  UTC (MakeDate (MakeDay (YearFromTime lt) (MonthFromTime lt) dt)
                (TimeWithinDay lt)).

Definition setMonth (t m : Z) : Z :=
  let lt := LocalTime t in
  UTC (MakeDate (MakeDay (YearFromTime lt) m (DateFromTime lt))
                (TimeWithinDay lt)).

Definition setFullYear (t y : Z) : Z :=
  let lt := LocalTime t in
  UTC (MakeDate (MakeDay y (MonthFromTime lt) (DateFromTime lt))
                (TimeWithinDay lt)).

End LocalTime.

(** A zone that keeps one offset for ever. *)
Definition fixedOffset (tz : Z) : Z -> bool -> Z := fun _ _ => tz.

End JSDate.

(** ** Numbers: IEEE 754 binary64

    [number] is the type of [SpecFloat], and the operations are its
    operations at precision 53 and maximal exponent 1024. *)

Module Number.

Definition number : Type := SpecFloat.spec_float.

Definition zero : number := SpecFloat.S754_zero false.

(** The integer [z] as a number, rounded to nearest if it has more than 53
    significant bits. *)
Definition ofZ (z : Z) : number := SpecFloat.binary_normalize 53 1024 z 0 false.

Definition add (x y : number) : number := SpecFloat.SFadd 53 1024 x y.
Definition sub (x y : number) : number := SpecFloat.SFsub 53 1024 x y.
Definition div (x y : number) : number := SpecFloat.SFdiv 53 1024 x y.

(** The literal with the digits of [n] and [k] digits after the point: the
    number nearest to [n / 10^k], as division of two integers that are
    numbers themselves rounds to nearest. *)
Definition decimal (n : Z) (k : Z) : number := div (ofZ n) (ofZ (10 ^ k)).

(** [!x]: zero of either sign and [NaN] are falsy. *)
Definition falsy (x : number) : bool :=
  match x with
  | SpecFloat.S754_zero _ | SpecFloat.S754_nan => true
  | _ => false
  end.

(** [x > 0]; false for [NaN]. *)
Definition positive (x : number) : bool := SpecFloat.SFltb zero x.

End Number.

Abbreviation number := Number.number.

Global Arguments Number.add : simpl never.
Global Arguments Number.sub : simpl never.
Global Arguments Number.div : simpl never.
Global Arguments Number.ofZ : simpl never.
Global Arguments Number.falsy : simpl never.

Global Instance number_eq_dec : EqDecision number.
Proof. unfold number, Number.number. solve_decision. Defined.

(** ** Data model ([db.ts], lines 5-71) *)

(** The content of a ['YYYY-MM-DD'] string; [iso_month] counts from 1. *)
Record IsoDate := mkIsoDate {
  iso_year : Z;
  iso_month : Z;
  iso_day : Z;
}.

Global Instance IsoDate_eq_dec : EqDecision IsoDate.
Proof. solve_decision. Defined.

Definition valid_date (d : IsoDate) : Prop :=
  1 <= iso_month d <= 12 /\
  1 <= iso_day d <= JSDate.DaysInMonth (iso_year d) (iso_month d - 1).

Global Instance valid_date_dec d : Decision (valid_date d).
Proof. unfold valid_date. apply _. Defined.

(** Midnight UTC of the calendar date [d], as a time value. *)
Definition midnightUTC (d : IsoDate) : Z :=
  JSDate.MakeDate (JSDate.MakeDay (iso_year d) (iso_month d - 1) (iso_day d)) 0.

(** [new Date('YYYY-MM-DD')]: a calendar date is read as UTC midnight; a
    month outside 1..12 or a day outside 1..31 gives an invalid date
    ([None]), and so does the empty string of a cleared date input
    ([noDate]). A day of 29 to 31 that the month lacks is an illegal value
    for ECMA-262 (and SpiderMonkey), which gives an invalid date, while V8
    carries the day into the next month: [dayOverflow] says which parser
    is at work. *)
Definition parseDate (dayOverflow : bool) (d : IsoDate) : option Z :=
  let lastDay :=
    if dayOverflow then 31
    else JSDate.DaysInMonth (iso_year d) (iso_month d - 1) in
  if bool_decide (1 <= iso_month d <= 12 /\ 1 <= iso_day d <= lastDay)
  then Some (midnightUTC d)
  else None.

(** What stands for a date string that is no date at all. *)
Definition noDate : IsoDate := mkIsoDate 0 0 0.

(** [date.toISOString().split('T')[0]]: the UTC calendar date. *)
Definition toISODate (t : Z) : IsoDate :=
  {| iso_year := JSDate.YearFromTime t;
     iso_month := JSDate.MonthFromTime t + 1;
     iso_day := JSDate.DateFromTime t |}.

Inductive TxType := income | expense.

Global Instance TxType_eq_dec : EqDecision TxType.
Proof. solve_decision. Defined.

Inductive Period := daily | weekly | monthly | yearly | custom.

Global Instance Period_eq_dec : EqDecision Period.
Proof. solve_decision. Defined.

Record RepeatConfig := mkRepeatConfig {
  times : Z;
  period : Period;
  customDays : option Z;
}.

Global Instance RepeatConfig_eq_dec : EqDecision RepeatConfig.
Proof. solve_decision. Defined.

Record Transaction := mkTransaction {
  id : string;
  type : TxType;
  value : number;
  currency : string;
  description : string;
  categoryId : string;
  accountId : string;
  date : IsoDate;
  isCompleted : bool;
  completedAt : option string;
  isFixed : bool;
  isRepeating : bool;
  repeatConfig : option RepeatConfig;
  repeatIndex : option Z;
  repeatTotal : option Z;
  parentRepeatId : option string;
  observation : string;
  tags : list string;
  createdAt : string;
  updatedAt : string;
}.

Global Instance Transaction_eq_dec : EqDecision Transaction.
Proof. solve_decision. Defined.

(** [Omit<Transaction, 'id' | 'createdAt' | 'updatedAt'>]. *)
Record TransactionDraft := mkDraft {
  d_type : TxType;
  d_value : number;
  d_currency : string;
  d_description : string;
  d_categoryId : string;
  d_accountId : string;
  d_date : IsoDate;
  d_isCompleted : bool;
  d_completedAt : option string;
  d_isFixed : bool;
  d_isRepeating : bool;
  d_repeatConfig : option RepeatConfig;
  d_repeatIndex : option Z;
  d_repeatTotal : option Z;
  d_parentRepeatId : option string;
  d_observation : string;
  d_tags : list string;
}.

Record Category := mkCategory {
  cat_id : string;
  cat_type : TxType;
  cat_name : string;
  cat_color : string;
  cat_icon : string;
  cat_isDefault : bool;
  cat_isSystem : bool;
  cat_createdAt : string;
  cat_updatedAt : string;
}.

Global Instance Category_eq_dec : EqDecision Category.
Proof. solve_decision. Defined.

Record Account := mkAccount {
  acc_id : string;
  acc_name : string;
  acc_color : string;
  acc_icon : string;
  acc_isDefault : bool;
  acc_createdAt : string;
  acc_updatedAt : string;
}.

Global Instance Account_eq_dec : EqDecision Account.
Proof. solve_decision. Defined.

(** [processedFixedMonths] is read as [settings.processedFixedMonths || []],
    so the field may be missing from a stored record. *)
Record UserSettings := mkUserSettings {
  us_id : string;
  us_name : string;
  us_email : string;
  us_notes : string;
  us_biometricsEnabled : bool;
  us_accentColor : string;
  us_theme : string;
  us_dateFormat : string;
  us_language : string;
  us_defaultCurrency : string;
  us_firstLaunchLang : string;
  processedFixedMonths : option (list string);
  us_createdAt : string;
  us_updatedAt : string;
}.

Global Instance UserSettings_eq_dec : EqDecision UserSettings.
Proof. solve_decision. Defined.

(** ** The world: the four object stores and the two oracles' call counts *)

Record World := mkWorld {
  transactions : gmap string Transaction;
  categories : gmap string Category;
  accounts : gmap string Account;
  (** The [settings] store only ever holds the record keyed ['user']. *)
  settings : option UserSettings;
  uuid_calls : nat;
  clock_reads : nat;
}.

Definition set_transactions (f : gmap string Transaction -> gmap string Transaction)
    (w : World) : World :=
  mkWorld (f (transactions w)) (categories w) (accounts w) (settings w)
          (uuid_calls w) (clock_reads w).

Definition set_categories (f : gmap string Category -> gmap string Category)
    (w : World) : World :=
  mkWorld (transactions w) (f (categories w)) (accounts w) (settings w)
          (uuid_calls w) (clock_reads w).

Definition set_accounts (f : gmap string Account -> gmap string Account)
    (w : World) : World :=
  mkWorld (transactions w) (categories w) (f (accounts w)) (settings w)
          (uuid_calls w) (clock_reads w).

Definition set_settings (s : option UserSettings) (w : World) : World :=
  mkWorld (transactions w) (categories w) (accounts w) s
          (uuid_calls w) (clock_reads w).

(** A store keyed by [keyPath: 'id'] files every record under its own id. *)
Definition keyed_by {R} (key : R -> string) (m : gmap string R) : Prop :=
  map_Forall (fun k r => key r = k) m.

Definition emptyWorld : World := mkWorld ∅ ∅ ∅ None 0%nat 0%nat.

(** *** State monad of the asynchronous operations *)

Definition M (A : Type) : Type := World -> A * World.

Definition ret {A} (a : A) : M A := fun w => (a, w).

Definition bind {A B} (c : M A) (k : A -> M B) : M B :=
  fun w => let (a, w') := c w in k a w'.

Notation "'do' x <- c ; k" := (bind c (fun x => k))
  (at level 10, x name, c at level 100, k at level 200).
Notation "c ;; k" := (bind c (fun _ => k))
  (at level 100, k at level 200, right associativity).

Definition gets {A} (f : World -> A) : M A := fun w => (f w, w).
Definition modify (f : World -> World) : M unit := fun w => (tt, f w).

(** [for (const x of l) { body }] *)
Fixpoint forEach {A} (l : list A) (body : A -> M unit) : M unit :=
  match l with
  | [] => ret tt
  | x :: l' => body x ;; forEach l' body
  end.

(** How a call that may throw ends. The writes made before the [throw]
    stay in the store: every [db.put] is awaited on its own. *)
Inductive Error := RangeError.

Inductive Outcome (A : Type) :=
  | returned (a : A)
  | thrown (e : Error).

Arguments returned {A} a.
Arguments thrown {A} e.

Global Instance Error_eq_dec : EqDecision Error.
Proof. solve_decision. Defined.

Global Instance Outcome_eq_dec `{EqDecision A} : EqDecision (Outcome A).
Proof. solve_decision. Defined.

(** [for (let i = start; ...; i++) { acc.push(body(i)) }], [n] rounds, left
    at the first round that throws. *)
Fixpoint forRange {A} (n : nat) (start : Z) (body : Z -> M (Outcome A))
    : M (Outcome (list A)) :=
  match n with
  | O => ret (returned [])
  | S n' =>
      do r <- body start;
      match r with
      | thrown e => ret (thrown e)
      | returned x =>
          do rs <- forRange n' (start + 1) body;
          match rs with
          | thrown e => ret (thrown e)
          | returned xs => ret (returned (x :: xs))
          end
      end
  end.

(** The order of the keys of an object store: strings by code units, a
    proper prefix first. *)
Definition keyLe {R} (x y : string * R) : Prop := String.leb x.1 y.1 = true.

Global Instance keyLe_dec {R} (x y : string * R) : Decision (keyLe x y).
Proof. unfold keyLe. apply _. Defined.

(** The records of a store with their keys, by ascending key. *)
Definition entries {R} (m : gmap string R) : list (string * R) :=
  merge_sort keyLe (map_to_list m).

(** [db.getAll(store)] *)
Definition getAll {R} (m : gmap string R) : list R := (entries m).*2.

Section Core.

(** Environment: the zone, the date parser of the engine and the answers
    of the two oracles. *)
Variable LocalTZA : Z -> bool -> Z.
Variable dayOverflow : bool.
Variable uuidv4 : nat -> string.
Variable clock : nat -> string.

Definition newUuid : M string :=
  fun w => (uuidv4 (uuid_calls w),
            mkWorld (transactions w) (categories w) (accounts w) (settings w)
                    (S (uuid_calls w)) (clock_reads w)).

(** [new Date().toISOString()] *)
Definition nowISO : M string :=
  fun w => (clock (clock_reads w),
            mkWorld (transactions w) (categories w) (accounts w) (settings w)
                    (uuid_calls w) (S (clock_reads w))).

Definition putTransaction (tx : Transaction) : M unit :=
  modify (set_transactions (insert (id tx) tx)).
Definition putCategory (c : Category) : M unit :=
  modify (set_categories (insert (cat_id c) c)).
Definition putAccount (a : Account) : M unit :=
  modify (set_accounts (insert (acc_id a) a)).

(** [{ ...draft, id, createdAt, updatedAt }] *)
Definition fromDraft (d : TransactionDraft) (i created updated : string)
    : Transaction :=
  {| id := i; type := d_type d; value := d_value d; currency := d_currency d;
     description := d_description d; categoryId := d_categoryId d;
     accountId := d_accountId d; date := d_date d;
     isCompleted := d_isCompleted d; completedAt := d_completedAt d;
     isFixed := d_isFixed d; isRepeating := d_isRepeating d;
     repeatConfig := d_repeatConfig d; repeatIndex := d_repeatIndex d;
     repeatTotal := d_repeatTotal d; parentRepeatId := d_parentRepeatId d;
     observation := d_observation d; tags := d_tags d;
     createdAt := created; updatedAt := updated |}.

(** *** Transaction operations ([db.ts], lines 247-373) *)

Definition addTransaction (transaction : TransactionDraft) : M Transaction :=
  do now <- nowISO;
  do i <- newUuid;
  let newTransaction := fromDraft transaction i now now in
  putTransaction newTransaction ;;
  ret newTransaction.

(** [customDays || 30]: a missing or zero [customDays] means 30. *)
Definition customStep (cd : option Z) : Z :=
  match cd with
  | Some n => if n =? 0 then 30 else n
  | None => 30
  end.

(** The [switch (period)] of the installment loop, on a valid [baseDate]. *)
Definition installmentTime (p : Period) (cd : option Z) (baseDate i : Z) : Z :=
  let installmentDate := baseDate in
  match p with
  | daily =>
      JSDate.setDate LocalTZA installmentDate (JSDate.getDate LocalTZA baseDate + i)
  | weekly =>
      JSDate.setDate LocalTZA installmentDate (JSDate.getDate LocalTZA baseDate + i * 7)
  | monthly =>
      JSDate.setMonth LocalTZA installmentDate (JSDate.getMonth LocalTZA baseDate + i)
  | yearly =>
      JSDate.setFullYear LocalTZA installmentDate
        (JSDate.getFullYear LocalTZA baseDate + i)
  | custom =>
      JSDate.setDate LocalTZA installmentDate
        (JSDate.getDate LocalTZA baseDate + i * customStep cd)
  end.

(** The record built at lines 297-306 of [db.ts]. *)
Definition installmentRecord (transaction : TransactionDraft)
    (rc : RepeatConfig) (now parentId : string) (baseDate i : Z)
    (txid : string) : Transaction :=
  {| id := txid; type := d_type transaction; value := d_value transaction;
     currency := d_currency transaction;
     description := d_description transaction;
     categoryId := d_categoryId transaction;
     accountId := d_accountId transaction;
     date := toISODate (installmentTime (period rc) (customDays rc) baseDate i);
     isCompleted := d_isCompleted transaction;
     completedAt := d_completedAt transaction;
     isFixed := d_isFixed transaction;
     isRepeating := d_isRepeating transaction;
     repeatConfig := d_repeatConfig transaction;
     repeatIndex := Some (i + 1);
     repeatTotal := Some (times rc);
     parentRepeatId := Some parentId;
     observation := d_observation transaction; tags := d_tags transaction;
     createdAt := now; updatedAt := now |}.

(** One round of the loop. The object literal calls [uuidv4()] and then
    [installmentDate.toISOString()], which throws a [RangeError] on an
    invalid date; a setter leaves an invalid date invalid, so the date is
    invalid exactly when [baseDate] is. *)
Definition installment (transaction : TransactionDraft) (rc : RepeatConfig)
    (now parentId : string) (baseDate : option Z) (i : Z)
    : M (Outcome Transaction) :=
  do txid <- newUuid;
  match baseDate with
  | None => ret (thrown RangeError)
  | Some base =>
      let newTransaction :=
        installmentRecord transaction rc now parentId base i txid in
      putTransaction newTransaction ;;
      ret (returned newTransaction)
  end.

Definition addRecurringTransaction (transaction : TransactionDraft)
    : M (Outcome (list Transaction)) :=
  match d_isRepeating transaction, d_repeatConfig transaction with
  | true, Some rc =>
      do now <- nowISO;
      do parentId <- newUuid;
      let baseDate := parseDate dayOverflow (d_date transaction) in
      forRange (Z.to_nat (times rc)) 0
               (installment transaction rc now parentId baseDate)
  | _, _ =>
      do single <- addTransaction transaction;
      ret (returned [single])
  end.

Definition getTransactions : M (list Transaction) :=
  gets (fun w => getAll (transactions w)).

(** The getters of an invalid date answer [NaN], which is equal to no
    number. *)
Definition inMonth (year month : Z) (tx : Transaction) : bool :=
  match parseDate dayOverflow (date tx) with
  | Some d =>
      (JSDate.getFullYear LocalTZA d =? year)
      && (JSDate.getMonth LocalTZA d =? month)
  | None => false
  end.

Definition getTransactionsByMonth (year month : Z) : M (list Transaction) :=
  do all <- gets (fun w => getAll (transactions w));
  ret (filter (fun tx => inMonth year month tx = true) all).

(** *** Categories, accounts, settings ([db.ts], lines 376-493) *)

Definition retarget (tx : Transaction) (moveToId now : string) : Transaction :=
  {| id := id tx; type := type tx; value := value tx; currency := currency tx;
     description := description tx; categoryId := moveToId;
     accountId := accountId tx; date := date tx;
     isCompleted := isCompleted tx; completedAt := completedAt tx;
     isFixed := isFixed tx; isRepeating := isRepeating tx;
     repeatConfig := repeatConfig tx; repeatIndex := repeatIndex tx;
     repeatTotal := repeatTotal tx; parentRepeatId := parentRepeatId tx;
     observation := observation tx; tags := tags tx;
     createdAt := createdAt tx; updatedAt := now |}.

Definition deleteCategory (cid moveToId : string) : M unit :=
  do txs <- gets (fun w => getAll (transactions w));
  forEach txs (fun tx =>
    if decide (categoryId tx = cid)
    then do now <- nowISO; putTransaction (retarget tx moveToId now)
    else ret tt) ;;
  modify (set_categories (delete cid)).

Definition getCategories : M (list Category) :=
  gets (fun w => getAll (categories w)).
Definition getAccounts : M (list Account) :=
  gets (fun w => getAll (accounts w)).
Definition getSettings : M (option UserSettings) := gets settings.

(** *** Balances ([db.ts], lines 510-540) *)

(** One round of the loop over the transactions. [!balances[a][c]] holds
    for a missing entry and for an entry that is zero or [NaN]. *)
Definition balanceStep (balances : gmap string (gmap string number))
    (tx : Transaction) : gmap string (gmap string number) :=
  if negb (isCompleted tx) then balances
  else
    let balances1 :=
      match balances !! accountId tx with
      | Some _ => balances
      | None => <[accountId tx := ∅]> balances
      end in
    let row := default ∅ (balances1 !! accountId tx) in
    let row1 :=
      match row !! currency tx with
      | Some v => if Number.falsy v then <[currency tx := Number.zero]> row else row
      | None => <[currency tx := Number.zero]> row
      end in
    let cur := default Number.zero (row1 !! currency tx) in
    let row2 :=
      match type tx with
      | income => <[currency tx := Number.add cur (value tx)]> row1
      | expense => <[currency tx := Number.sub cur (value tx)]> row1
      end in
    <[accountId tx := row2]> balances1.

Definition balancesOf (accs : list Account) (txs : list Transaction)
    : gmap string (gmap string number) :=
  let balances :=
    foldl (fun b account => <[acc_id account := ∅]> b) ∅ accs in
  foldl balanceStep balances txs.

(** [balances] and its rows are plain objects, and a plain object answers
    a lookup of ['constructor'], ['toString'], ['__proto__'], ... with what
    it inherits from [Object.prototype]. A map has no such entries: the
    loop above is the code as long as every lookup is the lookup of an own
    property. *)
Definition inheritedKeys : list string :=
  ["constructor"; "__defineGetter__"; "__defineSetter__"; "hasOwnProperty";
   "__lookupGetter__"; "__lookupSetter__"; "isPrototypeOf";
   "propertyIsEnumerable"; "toString"; "valueOf"; "__proto__";
   "toLocaleString"].

Definition inherited (k : string) : bool := bool_decide (k ∈ inheritedKeys).

(** No account is filed under ['__proto__'] (the assignment
    [balances['__proto__'] = {}] replaces the prototype instead of adding a
    row), no completed transaction has an inherited name for its currency,
    and none has one for its account unless the first loop has given that
    account a row of its own. *)
Definition ownKeys (accs : list Account) (txs : list Transaction) : bool :=
  forallb (fun account => negb (String.eqb (acc_id account) "__proto__")) accs
  && forallb
       (fun tx =>
          negb (isCompleted tx)
          || negb (inherited (currency tx))
             && (negb (inherited (accountId tx))
                 || bool_decide (accountId tx ∈ acc_id <$> accs)))
       txs.

(** The answer is [None] when a lookup meets an inherited property: the
    loop then reads and writes the built-in objects, which outlive the
    call, and what it returns depends on the calls before it. Those runs
    are not followed here. *)
Definition getAccountBalances
    : M (option (gmap string (gmap string number))) :=
  do txs <- gets (fun w => getAll (transactions w));
  do accs <- gets (fun w => getAll (accounts w));
  ret (if ownKeys accs txs then Some (balancesOf accs txs) else None).

(** *** Fixed transactions ([fixedTransactions.ts]) *)

Definition string_of_Z (z : Z) : string := NilZero.string_of_int (Z.to_int z).

(** [s.padStart(2, '0')] *)
Definition padStart2 (s : string) : string :=
  match String.length s with
  | O => "00"
  | S O => "0" +:+ s
  | _ => s
  end.

Definition getMonthKey (year month : Z) : string :=
  string_of_Z year +:+ "-" +:+ padStart2 (string_of_Z (month + 1)).

Definition getFixedTransactionsFromMonth (year month : Z)
    : M (list Transaction) :=
  do txs <- getTransactionsByMonth year month;
  ret (filter (fun tx => isFixed tx = true) txs).

Definition isMonthProcessed (year month : Z) : M bool :=
  do s <- gets settings;
  match s with
  | None => ret false
  | Some st =>
      let processedMonths := default [] (processedFixedMonths st) in
      ret (bool_decide (getMonthKey year month ∈ processedMonths))
  end.

Definition withProcessed (st : UserSettings) (months : list string)
    (now : string) : UserSettings :=
  {| us_id := us_id st; us_name := us_name st; us_email := us_email st;
     us_notes := us_notes st;
     us_biometricsEnabled := us_biometricsEnabled st;
     us_accentColor := us_accentColor st; us_theme := us_theme st;
     us_dateFormat := us_dateFormat st; us_language := us_language st;
     us_defaultCurrency := us_defaultCurrency st;
     us_firstLaunchLang := us_firstLaunchLang st;
     processedFixedMonths := Some months;
     us_createdAt := us_createdAt st; us_updatedAt := now |}.

Definition markMonthAsProcessed (year month : Z) : M unit :=
  do s <- gets settings;
  match s with
  | None => ret tt
  | Some st =>
      let processedMonths := default [] (processedFixedMonths st) in
      let monthKey := getMonthKey year month in
      if bool_decide (monthKey ∈ processedMonths) then ret tt
      else
        do now <- nowISO;
        modify (set_settings
                  (Some (withProcessed st (processedMonths ++ [monthKey]) now)))
  end.

(** The date of the clone: same day in the target month, with the
    correction of lines 87-92 when the month rolled over; [originalDate] is
    a valid date. *)
Definition fixedTime (year month : Z) (originalDate : Z) : Z :=
  let newDate :=
    JSDate.fromLocal LocalTZA year month (JSDate.getDate LocalTZA originalDate) in
  if negb (JSDate.getMonth LocalTZA newDate =? month) then
    let newDate1 := JSDate.setDate LocalTZA newDate 0 in
    let newDate2 := JSDate.setMonth LocalTZA newDate1 (month + 1) in
    JSDate.setDate LocalTZA newDate2 0
  else newDate.

(** The object handed to [addTransaction] at lines 95-108. *)
Definition fixedDraft (year month : Z) (tx : Transaction) (originalDate : Z)
    : TransactionDraft :=
  {| d_type := type tx; d_value := value tx; d_currency := currency tx;
     d_description := description tx; d_categoryId := categoryId tx;
     d_accountId := accountId tx;
     d_date := toISODate (fixedTime year month originalDate);
     d_isCompleted := false; d_completedAt := None;
     d_isFixed := true; d_isRepeating := false;
     d_repeatConfig := None; d_repeatIndex := None; d_repeatTotal := None;
     d_parentRepeatId := None;
     d_observation := observation tx; d_tags := tags tx |}.

(** The loop of lines 81-112. On an invalid [originalDate] the day is
    [NaN], [new Date(year, month, NaN)] is invalid, the setters leave it so
    and [newDate.toISOString()] throws before [addTransaction] is called. *)
Fixpoint cloneFixed (year month : Z) (txs : list Transaction)
    (createdCount : Z) : M (Outcome Z) :=
  match txs with
  | [] => ret (returned createdCount)
  | tx :: rest =>
      match parseDate dayOverflow (date tx) with
      | None => ret (thrown RangeError)
      | Some originalDate =>
          addTransaction (fixedDraft year month tx originalDate) ;;
          cloneFixed year month rest (createdCount + 1)
      end
  end.

Definition previousMonth (year month : Z) : Z * Z :=
  let prevMonth := month - 1 in
  if prevMonth <? 0 then (year - 1, 11) else (year, prevMonth).

Definition generateFixedTransactionsForMonth (year month : Z)
    : M (Outcome Z) :=
  do processed <- isMonthProcessed year month;
  if processed then ret (returned 0)
  else
    let (prevYear, prevMonth) := previousMonth year month in
    do previousFixedTransactions <-
      getFixedTransactionsFromMonth prevYear prevMonth;
    if (length previousFixedTransactions =? 0)%nat then
      markMonthAsProcessed year month ;;
      ret (returned 0)
    else
      do r <- cloneFixed year month previousFixedTransactions 0;
      match r with
      | thrown e => ret (thrown e)
      | returned createdCount =>
          markMonthAsProcessed year month ;;
          ret (returned createdCount)
      end.

(** *** Export and import ([SettingsPage.tsx], lines 584-695)

    [JSON.stringify] followed by [JSON.parse] hands the records back
    unchanged, so the file is the record [ExportData] itself. *)

Record ExportData := mkExportData {
  version : Z;
  exportedAt : string;
  ex_transactions : list Transaction;
  ex_categories : list Category;
  ex_accounts : list Account;
  ex_settings : option UserSettings;
}.

Definition handleExportData : M ExportData :=
  do allTransactions <- getTransactions;
  do cats <- getCategories;
  do accs <- getAccounts;
  do st <- getSettings;
  do stamp <- nowISO;
  do fileStamp <- nowISO;
  ret {| version := 1; exportedAt := stamp;
         ex_transactions := allTransactions; ex_categories := cats;
         ex_accounts := accs; ex_settings := st |}.

Definition typeName (t : TxType) : string :=
  match t with income => "income" | expense => "expense" end.

(** [`${c.type}-${c.name}`] *)
Definition catKey (c : Category) : string :=
  typeName (cat_type c) +:+ "-" +:+ cat_name c.

Definition handleImportData (importData : option ExportData) : M unit :=
  match importData with
  | None => ret tt
  | Some data =>
      do existingCategories <- gets (fun w => getAll (categories w));
      let existingCatKeys : gset string :=
        list_to_set (catKey <$> existingCategories) in
      forEach (ex_categories data) (fun cat =>
        if decide (catKey cat ∈ existingCatKeys) then ret tt
        else putCategory cat) ;;
      do existingAccounts <- gets (fun w => getAll (accounts w));
      let existingAccNames : gset string :=
        list_to_set (acc_name <$> existingAccounts) in
      forEach (ex_accounts data) (fun acc =>
        if decide (acc_name acc ∈ existingAccNames) then ret tt
        else putAccount acc) ;;
      do existingTransactions <- gets (fun w => getAll (transactions w));
      let existingTxIds : gset string :=
        list_to_set (id <$> existingTransactions) in
      forEach (ex_transactions data) (fun tx =>
        if decide (id tx ∈ existingTxIds) then ret tt
        else putTransaction tx)
  end.

End Core.

(** * Vocabulary of the statements *)

Section Vocabulary.

Variable LocalTZA : Z -> bool -> Z.
Variable dayOverflow : bool.
Variable uuidv4 : nat -> string.
Variable clock : nat -> string.

(** [db.put(store, r)] on the map behind a store keyed by [key]. *)
Definition put {R} (key : R -> string) (m : gmap string R) (r : R)
    : gmap string R :=
  <[key r := r]> m.

(** The [n] answers of [uuidv4()] from call number [c] on are pairwise
    distinct and name no record of [m]. *)
Definition fresh_uuids {R} (m : gmap string R) (c n : nat) : Prop :=
  NoDup (uuidv4 <$> seq c n) /\
  Forall (fun k => m !! uuidv4 k = None) (seq c n).

Global Instance fresh_uuids_dec {R} (m : gmap string R) (c n : nat) :
  Decision (fresh_uuids m c n).
Proof. unfold fresh_uuids. apply _. Defined.


(** The clones of [txs] for the target month, the first one taking the
    answers number [c] of [uuidv4()] and number [t] of the clock, up to the
    end of the list or to the first transaction whose date is invalid. *)
Fixpoint fixedClones (year month : Z) (txs : list Transaction) (c t : nat)
    : list Transaction :=
  match txs with
  | [] => []
  | tx :: rest =>
      match parseDate dayOverflow (date tx) with
      | Some originalDate =>
          fromDraft (fixedDraft LocalTZA year month tx originalDate)
                    (uuidv4 c) (clock t) (clock t)
          :: fixedClones year month rest (S c) (S t)
      | None => []
      end
  end.

(** A clone of [src] as the generator is to make it: the same type, value,
    currency, description, category, account, observation and tags, fixed,
    not repeating and pending, without completion time and outside every
    series. *)
Definition pendingCloneOf (src cl : Transaction) : Prop :=
  type cl = type src /\ value cl = value src /\ currency cl = currency src /\
  description cl = description src /\ categoryId cl = categoryId src /\
  accountId cl = accountId src /\ observation cl = observation src /\
  tags cl = tags src /\
  isFixed cl = true /\ isRepeating cl = false /\ isCompleted cl = false /\
  completedAt cl = None /\ repeatConfig cl = None /\ repeatIndex cl = None /\
  repeatTotal cl = None /\ parentRepeatId cl = None.

Global Instance pendingCloneOf_dec src cl : Decision (pendingCloneOf src cl).
Proof. unfold pendingCloneOf. apply _. Defined.

(** What step 3 of the generator reads: the fixed transactions that the
    month query returns for the month before [(year, month)]. *)
Definition fixedSources (year month : Z) (w : World) : list Transaction :=
  fst (getFixedTransactionsFromMonth LocalTZA dayOverflow
         (fst (previousMonth year month)) (snd (previousMonth year month)) w).

(** The world once the clones of [srcs], whose dates are valid, have been
    added. *)
Definition withClones (year month : Z) (srcs : list Transaction) (w : World)
    : World :=
  mkWorld (foldl (put id) (transactions w)
             (fixedClones year month srcs (uuid_calls w) (clock_reads w)))
          (categories w) (accounts w) (settings w)
          (uuid_calls w + length srcs)%nat (clock_reads w + length srcs)%nat.

(** [balances[a][c]], [None] when either lookup is [undefined]. *)
Definition entry (balances : gmap string (gmap string number)) (a c : string)
    : option number :=
  balances !! a ≫= (fun row => row !! c).

(** A completed transaction of account [a] in currency [c]. *)
Definition settles (a c : string) (tx : Transaction) : Prop :=
  isCompleted tx = true /\ accountId tx = a /\ currency tx = c.

Global Instance settles_dec a c tx : Decision (settles a c tx).
Proof. unfold settles. apply _. Defined.

(** One [+=] or [-=] on an entry that holds [b]; an entry that is zero or
    [NaN] is set to 0 first. *)
Definition applyTx (b : number) (tx : Transaction) : number :=
  let cur := if Number.falsy b then Number.zero else b in
  match type tx with
  | income => Number.add cur (value tx)
  | expense => Number.sub cur (value tx)
  end.

(** The running total of account [a] in currency [c]: from 0, each
    completed income added and each completed expense subtracted, in the
    order of the list, a total that has come to zero or [NaN] starting
    again at 0. *)
Definition runningTotal (a c : string) (txs : list Transaction) : number :=
  foldl applyTx Number.zero (filter (settles a c) txs).

(** [sum(value)] over the completed transactions of type [ty], account [a]
    and currency [c], added up from 0 in the order of the list. *)
Definition total (ty : TxType) (a c : string) (txs : list Transaction)
    : number :=
  foldl (fun sum tx => Number.add sum (value tx)) Number.zero
        (filter (fun tx => settles a c tx /\ type tx = ty) txs).

(** The merge keys of the import: a category is known by type and name, an
    account by name, a transaction by id. *)
Definition sameCategory (c c' : Category) : Prop :=
  cat_type c' = cat_type c /\ cat_name c' = cat_name c.

Definition knownCategory (w : World) (c : Category) : Prop :=
  Exists (sameCategory c) (getAll (categories w)).

Definition knownAccount (w : World) (a : Account) : Prop :=
  Exists (fun a' => acc_name a' = acc_name a) (getAll (accounts w)).

Definition knownTransaction (w : World) (tx : Transaction) : Prop :=
  Exists (fun tx' => id tx' = id tx) (getAll (transactions w)).

Global Instance sameCategory_dec c c' : Decision (sameCategory c c').
Proof. unfold sameCategory. apply _. Defined.
Global Instance knownCategory_dec w c : Decision (knownCategory w c).
Proof. unfold knownCategory. apply _. Defined.
Global Instance knownAccount_dec w a : Decision (knownAccount w a).
Proof. unfold knownAccount. apply _. Defined.
Global Instance knownTransaction_dec w tx : Decision (knownTransaction w tx).
Proof. unfold knownTransaction. apply _. Defined.

(** The world after [db.put] of the records of [txs], [cats] and [accs]. *)
Definition withRecords (cats : list Category) (accs : list Account)
    (txs : list Transaction) (w : World) : World :=
  mkWorld (foldl (put id) (transactions w) txs)
          (foldl (put cat_id) (categories w) cats)
          (foldl (put acc_id) (accounts w) accs)
          (settings w) (uuid_calls w) (clock_reads w).

(** Calendar dates and day numbers (days since 1970-01-01). *)
Definition dayNumber (d : IsoDate) : Z :=
  JSDate.MakeDay (iso_year d) (iso_month d - 1) (iso_day d).

Definition dateOfDay (n : Z) : IsoDate :=
  {| iso_year := JSDate.YearFromDay n;
     iso_month := JSDate.MonthFromDay n + 1;
     iso_day := JSDate.DateFromDay n |}.

(** The day after [d] in the calendar. *)
Definition nextDay (d : IsoDate) : IsoDate :=
  if iso_day d <? JSDate.DaysInMonth (iso_year d) (iso_month d - 1)
  then mkIsoDate (iso_year d) (iso_month d) (iso_day d + 1)
  else if iso_month d <? 12
  then mkIsoDate (iso_year d) (iso_month d + 1) 1
  else mkIsoDate (iso_year d + 1) 1 1.

(** [k] days after [d]; [k] months after [d], keeping the day of the month
    and letting a day past the end of the month run on into the next one;
    [k] years after [d], likewise. *)
Definition plusDays (d : IsoDate) (k : Z) : IsoDate := dateOfDay (dayNumber d + k).

Definition plusMonths (d : IsoDate) (k : Z) : IsoDate :=
  dateOfDay (JSDate.MakeDay (iso_year d) (iso_month d - 1 + k) (iso_day d)).

Definition plusYears (d : IsoDate) (k : Z) : IsoDate :=
  dateOfDay (JSDate.MakeDay (iso_year d + k) (iso_month d - 1) (iso_day d)).

Definition advance (p : Period) (step : Z) (base : IsoDate) (i : Z) : IsoDate :=
  match p with
  | daily => plusDays base i
  | weekly => plusDays base (7 * i)
  | monthly => plusMonths base i
  | yearly => plusYears base i
  | custom => plusDays base (i * step)
  end.

(** Day [dt] of month [mn] (0-based) of [year], or the last day of that
    month when it has fewer days. *)
Definition clampedDate (year mn dt : Z) : IsoDate :=
  mkIsoDate year (mn + 1) (Z.min dt (JSDate.DaysInMonth year mn)).

End Vocabulary.

(** * Scenarios

    Concrete worlds on which the statements below are run. *)

Definition uuidOf (k : nat) : string := "uuid-" +:+ string_of_Z (Z.of_nat k).
Definition clockOf (k : nat) : string := "tick-" +:+ string_of_Z (Z.of_nat k).

(** Zones that keep their offset: UTC, UTC+1 (Lagos), UTC-3 (Sao Paulo). *)
Definition tzUTC : Z -> bool -> Z := JSDate.fixedOffset 0.
Definition tzLagos : Z -> bool -> Z := JSDate.fixedOffset 3600000.
Definition tzSaoPaulo : Z -> bool -> Z := JSDate.fixedOffset (-10800000).

(** Paris in 2024: UTC+1, and UTC+2 from 31 March 01:00 UTC to 27 October
    01:00 UTC. A local time that the clocks skip or show twice is read with
    the offset in force before the change. *)
Definition tzParis : Z -> bool -> Z :=
  fun t isUTC =>
    let summerStart := 1711846800000 in
    let summerEnd := 1729990800000 in
    if isUTC then
      if (summerStart <=? t) && (t <? summerEnd) then 7200000 else 3600000
    else
      if (summerStart + 7200000 <=? t) && (t <? summerEnd + 7200000)
      then 7200000 else 3600000.

(** The date parser of V8. *)
Definition v8 : bool := true.

Definition fixedExpense (txid : string) (d : IsoDate) : Transaction :=
  {| id := txid; type := expense; value := Number.ofZ 1200; currency := "BRL";
     description := "rent"; categoryId := "cat-rent"; accountId := "acc-main";
     date := d; isCompleted := true; completedAt := Some "2024-01-05T10:00:00.000Z";
     isFixed := true; isRepeating := false; repeatConfig := None;
     repeatIndex := None; repeatTotal := None; parentRepeatId := None;
     observation := EmptyString; tags := ["home"];
     createdAt := "2024-01-05T10:00:00.000Z";
     updatedAt := "2024-01-05T10:00:00.000Z" |}.

Definition userSettings : UserSettings :=
  {| us_id := "user"; us_name := EmptyString; us_email := EmptyString;
     us_notes := EmptyString;
     us_biometricsEnabled := false; us_accentColor := "#8B5CF6";
     us_theme := "auto"; us_dateFormat := "auto"; us_language := "pt-br";
     us_defaultCurrency := "BRL"; us_firstLaunchLang := "pt-br";
     processedFixedMonths := Some [];
     us_createdAt := "2024-01-01T00:00:00.000Z";
     us_updatedAt := "2024-01-01T00:00:00.000Z" |}.

Definition rentCategory : Category :=
  mkCategory "cat-rent" expense "rent" "#EF4444" "Home" false true
             "2024-01-01T00:00:00.000Z" "2024-01-01T00:00:00.000Z".

Definition otherCategory : Category :=
  mkCategory "cat-none" expense "noCategory" "#6B7280" "Circle" true true
             "2024-01-01T00:00:00.000Z" "2024-01-01T00:00:00.000Z".

Definition mainAccount : Account :=
  mkAccount "acc-main" "defaultAccount" "#8B5CF6" "Wallet" true
            "2024-01-01T00:00:00.000Z" "2024-01-01T00:00:00.000Z".

(** An initialised store holding one fixed expense dated [d]. *)
Definition homeWorld (d : IsoDate) : World :=
  {| transactions := {[ "tx-rent" := fixedExpense "tx-rent" d ]};
     categories := {[ "cat-rent" := rentCategory; "cat-none" := otherCategory ]};
     accounts := {[ "acc-main" := mainAccount ]};
     settings := Some userSettings;
     uuid_calls := 0; clock_reads := 0 |}.

(** The same store without the settings record. *)
Definition bareWorld (d : IsoDate) : World := set_settings None (homeWorld d).

(** A purchase in installments entered on [d]. *)
Definition purchase (d : IsoDate) (rc : RepeatConfig) : TransactionDraft :=
  {| d_type := expense; d_value := Number.ofZ 250; d_currency := "BRL";
     d_description := "laptop"; d_categoryId := "cat-none";
     d_accountId := "acc-main"; d_date := d; d_isCompleted := false;
     d_completedAt := None; d_isFixed := false; d_isRepeating := true;
     d_repeatConfig := Some rc; d_repeatIndex := None; d_repeatTotal := None;
     d_parentRepeatId := None; d_observation := EmptyString; d_tags := [] |}.

(** A draft naming a category and an account that do not exist. *)
Definition danglingDraft : TransactionDraft :=
  {| d_type := expense; d_value := Number.ofZ 10; d_currency := "BRL";
     d_description := "coffee"; d_categoryId := "cat-ghost";
     d_accountId := "acc-ghost"; d_date := mkIsoDate 2024 3 10;
     d_isCompleted := true; d_completedAt := None; d_isFixed := false;
     d_isRepeating := false; d_repeatConfig := None; d_repeatIndex := None;
     d_repeatTotal := None; d_parentRepeatId := None; d_observation := EmptyString;
     d_tags := [] |}.

(** A completed transaction of the main account. *)
Definition settled (txid : string) (ty : TxType) (cur : string) (v : number)
    : Transaction :=
  {| id := txid; type := ty; value := v; currency := cur;
     description := "entry"; categoryId := "cat-none"; accountId := "acc-main";
     date := mkIsoDate 2024 3 1; isCompleted := true; completedAt := None;
     isFixed := false; isRepeating := false; repeatConfig := None;
     repeatIndex := None; repeatTotal := None; parentRepeatId := None;
     observation := EmptyString; tags := [];
     createdAt := "2024-03-01T00:00:00.000Z";
     updatedAt := "2024-03-01T00:00:00.000Z" |}.

(** An income of 0.1, an expense of 0.3 and an income of 0.2, listed in this
    order. *)
Definition centsWorld : World :=
  {| transactions :=
       {[ "tx-1" := settled "tx-1" income "BRL" (Number.decimal 1 1);
          "tx-2" := settled "tx-2" expense "BRL" (Number.decimal 3 1);
          "tx-3" := settled "tx-3" income "BRL" (Number.decimal 2 1) ]};
     categories := {[ "cat-none" := otherCategory ]};
     accounts := {[ "acc-main" := mainAccount ]};
     settings := Some userSettings;
     uuid_calls := 0; clock_reads := 0 |}.

(** An income of 100 in a currency whose code is the name of a property
    that every object inherits. *)
Definition constructorWorld : World :=
  {| transactions :=
       {[ "tx-1" := settled "tx-1" income "constructor" (Number.ofZ 100) ]};
     categories := {[ "cat-none" := otherCategory ]};
     accounts := {[ "acc-main" := mainAccount ]};
     settings := Some userSettings;
     uuid_calls := 0; clock_reads := 0 |}.

(** The dates of the installments that a call returned. *)
Definition installmentDates (r : Outcome (list Transaction))
    : option (list IsoDate) :=
  match r with
  | returned txs => Some (date <$> txs)
  | thrown _ => None
  end.

(** * The rest of the persistence layer

    The operations of [db.ts], [fixedTransactions.ts], [budgets.ts] and the
    dashboard filter that the sections above do not cover. *)

(** ** Partial records ([Partial<T>], [Omit<T, ...>])

    A field of a [Partial<T>] is left out ([None]) or given. A field that
    the interface marks optional can be given as [undefined], and the spread
    [{ ...existing, ...updates }] then overwrites the stored value with
    [undefined]: such a field is an [option (option _)]. *)

Record TransactionPatch := mkTransactionPatch {
  p_id : option string;
  p_type : option TxType;
  p_value : option number;
  p_currency : option string;
  p_description : option string;
  p_categoryId : option string;
  p_accountId : option string;
  p_date : option IsoDate;
  p_isCompleted : option bool;
  p_completedAt : option (option string);
  p_isFixed : option bool;
  p_isRepeating : option bool;
  p_repeatConfig : option (option RepeatConfig);
  p_repeatIndex : option (option Z);
  p_repeatTotal : option (option Z);
  p_parentRepeatId : option (option string);
  p_observation : option string;
  p_tags : option (list string);
  p_createdAt : option string;
  p_updatedAt : option string;
}.

(** [Omit<Category, 'id' | 'createdAt' | 'updatedAt'>] *)
Record CategoryDraft := mkCategoryDraft {
  cd_type : TxType;
  cd_name : string;
  cd_color : string;
  cd_icon : string;
  cd_isDefault : bool;
  cd_isSystem : bool;
}.

Record CategoryPatch := mkCategoryPatch {
  cp_id : option string;
  cp_type : option TxType;
  cp_name : option string;
  cp_color : option string;
  cp_icon : option string;
  cp_isDefault : option bool;
  cp_isSystem : option bool;
  cp_createdAt : option string;
  cp_updatedAt : option string;
}.

(** [Omit<Account, 'id' | 'createdAt' | 'updatedAt'>] *)
Record AccountDraft := mkAccountDraft {
  ad_name : string;
  ad_color : string;
  ad_icon : string;
  ad_isDefault : bool;
}.

Record AccountPatch := mkAccountPatch {
  ap_id : option string;
  ap_name : option string;
  ap_color : option string;
  ap_icon : option string;
  ap_isDefault : option bool;
  ap_createdAt : option string;
  ap_updatedAt : option string;
}.

Record SettingsPatch := mkSettingsPatch {
  sp_id : option string;
  sp_name : option string;
  sp_email : option string;
  sp_notes : option string;
  sp_biometricsEnabled : option bool;
  sp_accentColor : option string;
  sp_theme : option string;
  sp_dateFormat : option string;
  sp_language : option string;
  sp_defaultCurrency : option string;
  sp_firstLaunchLang : option string;
  sp_processedFixedMonths : option (option (list string));
  sp_createdAt : option string;
  sp_updatedAt : option string;
}.

(** [{ ...existing, ...updates, updatedAt: now }] *)
Definition patchTransaction (existing : Transaction)
    (updates : TransactionPatch) (now : string) : Transaction :=
  {| id := default (id existing) (p_id updates);
     type := default (type existing) (p_type updates);
     value := default (value existing) (p_value updates);
     currency := default (currency existing) (p_currency updates);
     description := default (description existing) (p_description updates);
     categoryId := default (categoryId existing) (p_categoryId updates);
     accountId := default (accountId existing) (p_accountId updates);
     date := default (date existing) (p_date updates);
     isCompleted := default (isCompleted existing) (p_isCompleted updates);
     completedAt := default (completedAt existing) (p_completedAt updates);
     isFixed := default (isFixed existing) (p_isFixed updates);
     isRepeating := default (isRepeating existing) (p_isRepeating updates);
     repeatConfig := default (repeatConfig existing) (p_repeatConfig updates);
     repeatIndex := default (repeatIndex existing) (p_repeatIndex updates);
     repeatTotal := default (repeatTotal existing) (p_repeatTotal updates);
     parentRepeatId :=
       default (parentRepeatId existing) (p_parentRepeatId updates);
     observation := default (observation existing) (p_observation updates);
     tags := default (tags existing) (p_tags updates);
     createdAt := default (createdAt existing) (p_createdAt updates);
     updatedAt := now |}.

Definition patchCategory (existing : Category) (updates : CategoryPatch)
    (now : string) : Category :=
  {| cat_id := default (cat_id existing) (cp_id updates);
     cat_type := default (cat_type existing) (cp_type updates);
     cat_name := default (cat_name existing) (cp_name updates);
     cat_color := default (cat_color existing) (cp_color updates);
     cat_icon := default (cat_icon existing) (cp_icon updates);
     cat_isDefault := default (cat_isDefault existing) (cp_isDefault updates);
     cat_isSystem := default (cat_isSystem existing) (cp_isSystem updates);
     cat_createdAt := default (cat_createdAt existing) (cp_createdAt updates);
     cat_updatedAt := now |}.

Definition patchAccount (existing : Account) (updates : AccountPatch)
    (now : string) : Account :=
  {| acc_id := default (acc_id existing) (ap_id updates);
     acc_name := default (acc_name existing) (ap_name updates);
     acc_color := default (acc_color existing) (ap_color updates);
     acc_icon := default (acc_icon existing) (ap_icon updates);
     acc_isDefault := default (acc_isDefault existing) (ap_isDefault updates);
     acc_createdAt := default (acc_createdAt existing) (ap_createdAt updates);
     acc_updatedAt := now |}.

Definition patchSettings (existing : UserSettings) (updates : SettingsPatch)
    (now : string) : UserSettings :=
  {| us_id := default (us_id existing) (sp_id updates);
     us_name := default (us_name existing) (sp_name updates);
     us_email := default (us_email existing) (sp_email updates);
     us_notes := default (us_notes existing) (sp_notes updates);
     us_biometricsEnabled :=
       default (us_biometricsEnabled existing) (sp_biometricsEnabled updates);
     us_accentColor := default (us_accentColor existing) (sp_accentColor updates);
     us_theme := default (us_theme existing) (sp_theme updates);
     us_dateFormat := default (us_dateFormat existing) (sp_dateFormat updates);
     us_language := default (us_language existing) (sp_language updates);
     us_defaultCurrency :=
       default (us_defaultCurrency existing) (sp_defaultCurrency updates);
     us_firstLaunchLang :=
       default (us_firstLaunchLang existing) (sp_firstLaunchLang updates);
     processedFixedMonths :=
       default (processedFixedMonths existing) (sp_processedFixedMonths updates);
     us_createdAt := default (us_createdAt existing) (sp_createdAt updates);
     us_updatedAt := now |}.

(** [{ ...category, id, createdAt, updatedAt }] *)
Definition categoryFromDraft (d : CategoryDraft) (i created updated : string)
    : Category :=
  {| cat_id := i; cat_type := cd_type d; cat_name := cd_name d;
     cat_color := cd_color d; cat_icon := cd_icon d;
     cat_isDefault := cd_isDefault d; cat_isSystem := cd_isSystem d;
     cat_createdAt := created; cat_updatedAt := updated |}.

Definition accountFromDraft (d : AccountDraft) (i created updated : string)
    : Account :=
  {| acc_id := i; acc_name := ad_name d; acc_color := ad_color d;
     acc_icon := ad_icon d; acc_isDefault := ad_isDefault d;
     acc_createdAt := created; acc_updatedAt := updated |}.

(** [{ ...tx, accountId: moveToId, updatedAt: now }] *)
Definition retargetAccount (tx : Transaction) (moveToId now : string)
    : Transaction :=
  {| id := id tx; type := type tx; value := value tx; currency := currency tx;
     description := description tx; categoryId := categoryId tx;
     accountId := moveToId; date := date tx;
     isCompleted := isCompleted tx; completedAt := completedAt tx;
     isFixed := isFixed tx; isRepeating := isRepeating tx;
     repeatConfig := repeatConfig tx; repeatIndex := repeatIndex tx;
     repeatTotal := repeatTotal tx; parentRepeatId := parentRepeatId tx;
     observation := observation tx; tags := tags tx;
     createdAt := createdAt tx; updatedAt := now |}.

(** ** Date strings

    [tx.date] is the string ['YYYY-MM-DD']; [dateString] writes the date of
    the model back in that form, four digits for the year (years 0 to 9999,
    the range in which [toISOString] and the date input use four digits). *)

Definition digit (n : Z) : Ascii.ascii :=
  Ascii.ascii_of_N (48 + Z.to_N (n mod 10)).

Definition digits2 (n : Z) : string :=
  String (digit (n / 10)) (String (digit n) EmptyString).

Definition digits4 (n : Z) : string :=
  String (digit (n / 1000)) (String (digit (n / 100)) (digits2 n)).

Definition dateString (d : IsoDate) : string :=
  digits4 (iso_year d) +:+ "-" +:+ digits2 (iso_month d) +:+ "-"
  +:+ digits2 (iso_day d).

(** [a <= b] on strings: by code units, a proper prefix first. *)
Definition stringLe (a b : string) : bool := String.leb a b.

(** [s.includes(sub)] *)
Fixpoint includes (s sub : string) : bool :=
  String.prefix sub s ||
  match s with
  | EmptyString => false
  | String _ s' => includes s' sub
  end.

(** ** Defaults written on first launch ([db.ts], lines 131-179) *)

Definition localeCurrencyMap : list (string * string) :=
  [("pt-BR", "BRL"); ("en-US", "USD"); ("en-GB", "GBP"); ("de-DE", "EUR");
   ("fr-FR", "EUR"); ("es-ES", "EUR"); ("es-MX", "MXN"); ("es-AR", "ARS");
   ("es-CL", "CLP"); ("es-CO", "COP"); ("ja-JP", "JPY"); ("zh-CN", "CNY")].

(** [localeCurrencyMap[locale] || 'USD']. When [Intl.NumberFormat] rejects
    the locale the [catch] returns ['USD'] as well, which is what the
    lookup gives for a locale that is not in the table. *)
Definition detectUserCurrency (locale : string) : string :=
  default "USD" ((list_to_map localeCurrencyMap : gmap string string) !! locale).

Definition defaultIncomeCategories : list CategoryDraft :=
  [mkCategoryDraft income "noCategory" "#6B7280" "Circle" true true;
   mkCategoryDraft income "investments" "#10B981" "TrendingUp" false true;
   mkCategoryDraft income "salary" "#3B82F6" "Briefcase" false true;
   mkCategoryDraft income "prizes" "#F59E0B" "Trophy" false true;
   mkCategoryDraft income "sales" "#8B5CF6" "ShoppingBag" false true].

Definition defaultExpenseCategories : list CategoryDraft :=
  [mkCategoryDraft expense "noCategory" "#6B7280" "Circle" true true;
   mkCategoryDraft expense "food" "#F97316" "Utensils" false true;
   mkCategoryDraft expense "rent" "#EF4444" "Home" false true;
   mkCategoryDraft expense "pets" "#EC4899" "Heart" false true;
   mkCategoryDraft expense "gifts" "#A855F7" "Gift" false true;
   mkCategoryDraft expense "education" "#6366F1" "GraduationCap" false true;
   mkCategoryDraft expense "health" "#14B8A6" "Heart" false true;
   mkCategoryDraft expense "leisure" "#F59E0B" "Gamepad2" false true;
   mkCategoryDraft expense "utilities" "#64748B" "Zap" false true;
   mkCategoryDraft expense "travel" "#0EA5E9" "Plane" false true].

Section Maintenance.

(** Environment: the zone, the date parser and the two oracles as before,
    the time value behind each clock reading, [navigator.language] and
    [String.prototype.toLowerCase]. *)
Variable LocalTZA : Z -> bool -> Z.
Variable dayOverflow : bool.
Variable uuidv4 : nat -> string.
Variable clock : nat -> string.
Variable clockTime : nat -> Z.
Variable navigatorLanguage : string.
Variable toLowerCase : string -> string.

(** *** Initialisation ([db.ts], lines 182-244 and 496-507) *)

Definition defaultSettings (now : string) : UserSettings :=
  let userLang :=
    if includes (toLowerCase navigatorLanguage) "pt" then "pt-br" else "en" in
  {| us_id := "user"; us_name := EmptyString; us_email := EmptyString;
     us_notes := EmptyString; us_biometricsEnabled := false;
     us_accentColor := "#8B5CF6"; us_theme := "auto"; us_dateFormat := "auto";
     us_language := userLang;
     us_defaultCurrency := detectUserCurrency navigatorLanguage;
     us_firstLaunchLang := userLang;
     processedFixedMonths := Some [];
     us_createdAt := now; us_updatedAt := now |}.

Definition defaultAccount (i now : string) : Account :=
  {| acc_id := i; acc_name := "defaultAccount"; acc_color := "#8B5CF6";
     acc_icon := "Wallet"; acc_isDefault := true;
     acc_createdAt := now; acc_updatedAt := now |}.

Definition seedCategory (now : string) (cat : CategoryDraft) : M unit :=
  do i <- newUuid uuidv4;
  putCategory (categoryFromDraft cat i now now).

Definition initializeDB : M unit :=
  do s <- gets settings;
  match s with
  | Some _ => ret tt
  | None =>
      do now <- nowISO clock;
      modify (set_settings (Some (defaultSettings now))) ;;
      do i <- newUuid uuidv4;
      putAccount (defaultAccount i now) ;;
      forEach defaultIncomeCategories (seedCategory now) ;;
      forEach defaultExpenseCategories (seedCategory now)
  end.


(** *** Transactions ([db.ts], lines 315-373) *)

Definition updateTransaction (i : string) (updates : TransactionPatch)
    : M (option Transaction) :=
  do existing <- gets (fun w => transactions w !! i);
  match existing with
  | None => ret None
  | Some existing =>
      do now <- nowISO clock;
      let updated := patchTransaction existing updates now in
      putTransaction updated ;;
      ret (Some updated)
  end.

Definition deleteTransaction (i : string) : M unit :=
  modify (set_transactions (delete i)).

Definition deleteRecurringTransactions (parent : string) : M unit :=
  do all <- gets (fun w => getAll (transactions w));
  let toDelete := filter (fun tx => parentRepeatId tx = Some parent) all in
  forEach toDelete (fun tx => deleteTransaction (id tx)).


Definition inDateRange (startDate endDate : string) (tx : Transaction) : bool :=
  stringLe startDate (dateString (date tx))
  && stringLe (dateString (date tx)) endDate.

Definition getTransactionsByDateRange (startDate endDate : string)
    : M (list Transaction) :=
  do all <- gets (fun w => getAll (transactions w));
  ret (filter (fun tx => inDateRange startDate endDate tx = true) all).

(** *** Categories and accounts ([db.ts], lines 376-468) *)

Definition addCategory (category : CategoryDraft) : M Category :=
  do now <- nowISO clock;
  do i <- newUuid uuidv4;
  let newCategory := categoryFromDraft category i now now in
  putCategory newCategory ;;
  ret newCategory.

Definition updateCategory (i : string) (updates : CategoryPatch)
    : M (option Category) :=
  do existing <- gets (fun w => categories w !! i);
  match existing with
  | None => ret None
  | Some existing =>
      do now <- nowISO clock;
      let updated := patchCategory existing updates now in
      putCategory updated ;;
      ret (Some updated)
  end.

Definition getCategoriesByType (ty : TxType) : M (list Category) :=
  do all <- gets (fun w => getAll (categories w));
  ret (filter (fun cat => cat_type cat = ty) all).

Definition addAccount (account : AccountDraft) : M Account :=
  do now <- nowISO clock;
  do i <- newUuid uuidv4;
  let newAccount := accountFromDraft account i now now in
  putAccount newAccount ;;
  ret newAccount.

Definition updateAccount (i : string) (updates : AccountPatch)
    : M (option Account) :=
  do existing <- gets (fun w => accounts w !! i);
  match existing with
  | None => ret None
  | Some existing =>
      do now <- nowISO clock;
      let updated := patchAccount existing updates now in
      putAccount updated ;;
      ret (Some updated)
  end.

Definition deleteAccount (aid moveToId : string) : M unit :=
  do txs <- gets (fun w => getAll (transactions w));
  forEach txs (fun tx =>
    if decide (accountId tx = aid)
    then do now <- nowISO clock; putTransaction (retargetAccount tx moveToId now)
    else ret tt) ;;
  modify (set_accounts (delete aid)).

(** *** Settings ([db.ts], lines 481-493)

    Every read of the settings store asks for the key ['user'], so the
    world keeps that slot only; a record written under another id is out of
    reach of every operation. *)

Definition putSettings (s : UserSettings) : M unit :=
  if decide (us_id s = "user") then modify (set_settings (Some s)) else ret tt.

Definition updateSettings (updates : SettingsPatch) : M (option UserSettings) :=
  do existing <- gets settings;
  match existing with
  | None => ret None
  | Some existing =>
      do now <- nowISO clock;
      let updated := patchSettings existing updates now in
      putSettings updated ;;
      ret (Some updated)
  end.

(** *** Start-up ([fixedTransactions.ts], lines 123-126) *)

(** [new Date()] *)
Definition nowDate : M Z :=
  fun w => (clockTime (clock_reads w),
            mkWorld (transactions w) (categories w) (accounts w) (settings w)
                    (uuid_calls w) (S (clock_reads w))).

Definition initializeFixedTransactions : M (Outcome unit) :=
  do now <- nowDate;
  do r <- generateFixedTransactionsForMonth LocalTZA dayOverflow uuidv4 clock
            (JSDate.getFullYear LocalTZA now) (JSDate.getMonth LocalTZA now);
  match r with
  | thrown e => ret (thrown e)
  | returned _ => ret (returned tt)
  end.

End Maintenance.

(** ** The dashboard filter ([TransactionFilters.tsx], [filterTransactions]) *)

Inductive TypeFilter := type_all | type_only (ty : TxType).
Inductive StatusFilter := status_all | status_completed | status_pending.

Record TransactionFiltersState := mkFilters {
  f_search : string;
  f_type : TypeFilter;
  f_status : StatusFilter;
  f_categoryIds : list string;
  f_accountIds : list string;
}.

Definition defaultFilters : TransactionFiltersState :=
  {| f_search := EmptyString; f_type := type_all; f_status := status_all;
     f_categoryIds := []; f_accountIds := [] |}.

Section Filter.

Variable toLowerCase : string -> string.

Definition matchesSearch (search : string) (tx : Transaction) : bool :=
  let searchLower := toLowerCase search in
  includes (toLowerCase (description tx)) searchLower
  || includes (toLowerCase (observation tx)) searchLower
  || existsb (fun tag => includes (toLowerCase tag) searchLower) (tags tx).

(** The callback of [transactions.filter], one [return false] after the
    other. A non-empty string is truthy. *)
Definition passes (filters : TransactionFiltersState) (tx : Transaction)
    : bool :=
  if negb (String.eqb (f_search filters) EmptyString)
     && negb (matchesSearch (f_search filters) tx) then false
  else if match f_type filters with
          | type_all => false
          | type_only ty => negb (bool_decide (type tx = ty))
          end then false
  else if match f_status filters with
          | status_completed => negb (isCompleted tx)
          | _ => false
          end then false
  else if match f_status filters with
          | status_pending => isCompleted tx
          | _ => false
          end then false
  else if (0 <? length (f_categoryIds filters))%nat
          && negb (bool_decide (categoryId tx ∈ f_categoryIds filters))
       then false
  else if (0 <? length (f_accountIds filters))%nat
          && negb (bool_decide (accountId tx ∈ f_accountIds filters))
       then false
  else true.

Definition filterTransactions (txs : list Transaction)
    (filters : TransactionFiltersState) : list Transaction :=
  filter (fun tx => passes filters tx = true) txs.

End Filter.

(** ** Budgets ([budgets.ts], lines 5-113)

    The budgets live in a database of their own, [mfo-budgets], with one
    store keyed by [id]. *)

Record CategoryBudget := mkCategoryBudget {
  b_id : string;
  b_categoryId : string;
  b_amount : number;
  b_currency : string;
  b_month : string;
  b_createdAt : string;
  b_updatedAt : string;
}.

Global Instance CategoryBudget_eq_dec : EqDecision CategoryBudget.
Proof. solve_decision. Defined.

Record BudgetWorld := mkBudgetWorld {
  budgets : gmap string CategoryBudget;
  b_uuid_calls : nat;
  b_clock_reads : nat;
}.

(** [all.find(p)]: the first element that passes [p]. *)
Definition find {A} (P : A -> Prop) `{!forall x, Decision (P x)} (l : list A)
    : option A :=
  snd <$> list_find P l.

Section Budgets.

Variable uuidv4 : nat -> string.
Variable clock : nat -> string.

Definition inSlot (cid monthKey : string) (b : CategoryBudget) : Prop :=
  b_categoryId b = cid /\ b_month b = monthKey.

Global Instance inSlot_dec cid monthKey b : Decision (inSlot cid monthKey b).
Proof. unfold inSlot. apply _. Defined.

Definition setBudget (cid : string) (amount : number) (cur : string)
    (year month : Z) (bw : BudgetWorld) : CategoryBudget * BudgetWorld :=
  let monthKey := getMonthKey year month in
  let now := clock (b_clock_reads bw) in
  let all := getAll (budgets bw) in
  match find (inSlot cid monthKey) all with
  | Some existing =>
      let updated :=
        {| b_id := b_id existing; b_categoryId := b_categoryId existing;
           b_amount := amount; b_currency := cur; b_month := b_month existing;
           b_createdAt := b_createdAt existing; b_updatedAt := now |} in
      (updated,
       mkBudgetWorld (<[b_id updated := updated]> (budgets bw))
                     (b_uuid_calls bw) (S (b_clock_reads bw)))
  | None =>
      let budget :=
        {| b_id := uuidv4 (b_uuid_calls bw); b_categoryId := cid;
           b_amount := amount; b_currency := cur; b_month := monthKey;
           b_createdAt := now; b_updatedAt := now |} in
      (budget,
       mkBudgetWorld (<[b_id budget := budget]> (budgets bw))
                     (S (b_uuid_calls bw)) (S (b_clock_reads bw)))
  end.

Definition getBudgetsByMonth (year month : Z) (bw : BudgetWorld)
    : list CategoryBudget :=
  let monthKey := getMonthKey year month in
  filter (fun b => b_month b = monthKey) (getAll (budgets bw)).

Definition deleteBudget (i : string) (bw : BudgetWorld) : BudgetWorld :=
  mkBudgetWorld (delete i (budgets bw)) (b_uuid_calls bw) (b_clock_reads bw).

(** The loop of [copyBudgetsToMonth] over the budgets of the source month. *)
Fixpoint copyEach (sourceBudgets : list CategoryBudget) (toYear toMonth : Z)
    (bw : BudgetWorld) : list CategoryBudget * BudgetWorld :=
  match sourceBudgets with
  | [] => ([], bw)
  | budget :: rest =>
      let (copied, bw1) :=
        setBudget (b_categoryId budget) (b_amount budget) (b_currency budget)
                  toYear toMonth bw in
      let (results, bw2) := copyEach rest toYear toMonth bw1 in
      (copied :: results, bw2)
  end.

Definition copyBudgetsToMonth (fromYear fromMonth toYear toMonth : Z)
    (bw : BudgetWorld) : list CategoryBudget * BudgetWorld :=
  copyEach (getBudgetsByMonth fromYear fromMonth bw) toYear toMonth bw.

End Budgets.

(** ** Vocabulary for the balances *)

(** [balances[a]?.[c] ?? 0] for the balances that [getAccountBalances]
    returns in world [w]. *)
Definition balance (w : World) (a c : string) : number :=
  default Number.zero
    (fst (getAccountBalances w) ≫= fun balances => entry balances a c).

(** The running total over the transactions of a list that pass [P]. *)
Definition runningTotalOf (P : Transaction -> Prop)
    `{!forall tx, Decision (P tx)} (txs : list Transaction) : number :=
  foldl applyTx Number.zero (filter P txs).

(** A completed transaction in currency [c] of account [a] or account [b]. *)
Definition settlesEither (a b c : string) (tx : Transaction) : Prop :=
  isCompleted tx = true /\ (accountId tx = a \/ accountId tx = b) /\
  currency tx = c.

Global Instance settlesEither_dec a b c tx : Decision (settlesEither a b c tx).
Proof. unfold settlesEither. apply _. Defined.

(** What the balances are computed from: for each completed transaction,
    in the order of the list, its account, currency, type and value. *)
Definition ledgerLine (tx : Transaction) : string * string * TxType * number :=
  (accountId tx, currency tx, type tx, value tx).

Definition ledger (txs : list Transaction)
    : list (string * string * TxType * number) :=
  ledgerLine <$> filter (fun tx => isCompleted tx = true) txs.

(** [ownKeys] and [runningTotal] read off the ids of the accounts and the
    lines of the ledger. *)
Definition ownLines (ids : list string)
    (lines : list (string * string * TxType * number)) : bool :=
  forallb (fun i => negb (String.eqb i "__proto__")) ids
  && forallb
       (fun line : string * string * TxType * number =>
          let '(a, c, _, _) := line in
          negb (inherited c)
          && (negb (inherited a) || bool_decide (a ∈ ids)))
       lines.

Definition applyLine (b : number) (line : string * string * TxType * number)
    : number :=
  let '(_, _, ty, v) := line in
  let cur := if Number.falsy b then Number.zero else b in
  match ty with
  | income => Number.add cur v
  | expense => Number.sub cur v
  end.

Definition lineTotal (a c : string)
    (lines : list (string * string * TxType * number)) : number :=
  foldl applyLine Number.zero
        (filter (fun line : string * string * TxType * number =>
                   line.1.1.1 = a /\ line.1.1.2 = c) lines).



(** A patch that names none of the fields that the balances read. *)
Definition keepsLedgerLine (updates : TransactionPatch) : Prop :=
  p_type updates = None /\ p_value updates = None /\
  p_currency updates = None /\ p_accountId updates = None /\
  p_isCompleted updates = None.

Global Instance keepsLedgerLine_dec updates : Decision (keepsLedgerLine updates).
Proof. unfold keepsLedgerLine. apply _. Defined.

(** The categories that the seeding loop writes for [drafts], the first one
    taking the answer number [c] of [uuidv4()]. *)
Fixpoint seededCategories (uuidv4 : nat -> string) (now : string)
    (drafts : list CategoryDraft) (c : nat) : list Category :=
  match drafts with
  | [] => []
  | d :: rest =>
      categoryFromDraft d (uuidv4 c) now now
      :: seededCategories uuidv4 now rest (S c)
  end.

(** Calendar order on dates, and the dates whose string form has a
    four-digit year and two-digit month and day. *)
Definition dateLe (d1 d2 : IsoDate) : Prop :=
  iso_year d1 < iso_year d2 \/
  (iso_year d1 = iso_year d2 /\
   (iso_month d1 < iso_month d2 \/
    (iso_month d1 = iso_month d2 /\ iso_day d1 <= iso_day d2))).

Global Instance dateLe_dec d1 d2 : Decision (dateLe d1 d2).
Proof. unfold dateLe. apply _. Defined.

Definition fourDigitDate (d : IsoDate) : Prop :=
  0 <= iso_year d <= 9999 /\ 1 <= iso_month d <= 12 /\ 1 <= iso_day d <= 31.

Global Instance fourDigitDate_dec d : Decision (fourDigitDate d).
Proof. unfold fourDigitDate. apply _. Defined.

(** [{ ...filters, status }] *)
Definition withStatus (filters : TransactionFiltersState) (s : StatusFilter)
    : TransactionFiltersState :=
  {| f_search := f_search filters; f_type := f_type filters; f_status := s;
     f_categoryIds := f_categoryIds filters;
     f_accountIds := f_accountIds filters |}.

(** The slot of a budget, and the stores that hold at most one budget per
    category and month. *)
Definition slotOf (b : CategoryBudget) : string * string :=
  (b_categoryId b, b_month b).

Definition onePerSlot (m : gmap string CategoryBudget) : Prop :=
  NoDup (slotOf <$> getAll m).

Global Instance onePerSlot_dec m : Decision (onePerSlot m).
Proof. unfold onePerSlot. apply _. Defined.

(** Every transaction names a category and an account that exist. *)
Definition wellReferenced (w : World) : Prop :=
  map_Forall (fun _ tx => is_Some (categories w !! categoryId tx) /\
                          is_Some (accounts w !! accountId tx))
             (transactions w).

Global Instance wellReferenced_dec w : Decision (wellReferenced w).
Proof. unfold wellReferenced. apply _. Defined.

(** ** The reports page ([Reports.tsx], lines 53-129) *)

Record DayRow := mkDayRow {
  row_day : Z;
  row_income : number;
  row_expense : number;
}.

Record Totals := mkTotals {
  t_income : number;
  t_expense : number;
  t_balance : number;
}.

Record Slice := mkSlice {
  slice_id : string;
  slice_name : string;
  slice_value : number;
  slice_color : string;
}.

(** [array.reduce((sum, tx) => sum + tx.value, 0)] *)
Definition sumValues (txs : list Transaction) : number :=
  foldl (fun sum tx => Number.add sum (value tx)) Number.zero txs.

(** The transactions of type [ty] whose date string shows the day [day] of
    the month, in the order of the list. *)
Definition onDay (ty : TxType) (day : Z) (txs : list Transaction)
    : list Transaction :=
  filter (fun tx => type tx = ty /\ iso_day (date tx) = day) txs.

Definition totals (txs : list Transaction) : Totals :=
  let incomeSum := sumValues (filter (fun tx => type tx = income) txs) in
  let expenseSum := sumValues (filter (fun tx => type tx = expense) txs) in
  {| t_income := incomeSum; t_expense := expenseSum;
     t_balance := Number.sub incomeSum expenseSum |}.

(** The object [totals] of the breakdown is the list of its own properties
    in the order of [Object.entries]: first the keys that are array indices
    (the decimal form of an integer from 0 to 2^32 - 2), by ascending
    value, then the other keys in the order in which they were created. *)
Definition arrayIndex (s : string) : option Z :=
  match NilZero.uint_of_string s with
  | Some u =>
      let n := Z.of_N (N.of_uint u) in
      if String.eqb (string_of_Z n) s && (n <=? 4294967294) then Some n
      else None
  | None => None
  end.

(** Whether a new property [k] is listed before the existing one [k']. *)
Definition listedBefore (k k' : string) : bool :=
  match arrayIndex k, arrayIndex k' with
  | Some n, Some n' => n <? n'
  | Some _, None => true
  | None, _ => false
  end.

(** [totals[k] = x] for a key that [totals] does not have. *)
Fixpoint createProperty {A} (entries : list (string * A)) (k : string) (x : A)
    : list (string * A) :=
  match entries with
  | [] => [(k, x)]
  | (k', y) :: rest =>
      if listedBefore k k' then (k, x) :: (k', y) :: rest
      else (k', y) :: createProperty rest k x
  end.

(** [totals[cid].amount += v] *)
Fixpoint addAmount {A} (entries : list (string * (number * A)))
    (cid : string) (v : number) : list (string * (number * A)) :=
  match entries with
  | [] => []
  | (k, (amount, c)) :: rest =>
      if decide (k = cid) then (k, (Number.add amount v, c)) :: rest
      else (k, (amount, c)) :: addAmount rest cid v
  end.

(** One round of [forEach]:
    [if (!totals[id]) totals[id] = { amount: 0, category };
     totals[id].amount += v].
    For an id that every object inherits ([inheritedKeys]) the lookup
    answers a built-in object: no property is created, and the amount is
    added to a property of that built-in object, out of sight of
    [Object.entries(totals)]. *)
Definition bump (entries : list (string * (number * option Category)))
    (cid : string) (v : number) (cat : option Category)
    : list (string * (number * option Category)) :=
  if inherited cid then entries
  else
    let entries1 :=
      if bool_decide (cid ∈ entries.*1) then entries
      else createProperty entries cid (Number.zero, cat) in
    addAmount entries1 cid v.

(** [totals[k].amount], and 0 for a key that [totals] does not have. *)
Fixpoint amountAt {A} (entries : list (string * (number * A))) (k : string)
    : number :=
  match entries with
  | [] => Number.zero
  | (k', (amount, _)) :: rest =>
      if decide (k' = k) then amount else amountAt rest k
  end.

(** [list.sort((a, b) => b.value - a.value)]. The sort is stable, and for
    a comparator that orders the values consistently, as it does on finite
    amounts, every stable sort gives the same list: the one that insertion
    builds. [x] goes in front of the first [y] for which the comparator
    asks [y] after [x]: [x.value - y.value > 0]. *)
Definition sortsAfter (y x : Slice) : bool :=
  Number.positive (Number.sub (slice_value x) (slice_value y)).

Fixpoint insertSlice (x : Slice) (sorted : list Slice) : list Slice :=
  match sorted with
  | [] => [x]
  | y :: rest =>
      if sortsAfter y x then x :: y :: rest
      else y :: insertSlice x rest
  end.

Definition sortByValue (l : list Slice) : list Slice :=
  foldl (fun sorted x => insertSlice x sorted) [] l.

Section Reports.

Variable LocalTZA : Z -> bool -> Z.
Variable dayOverflow : bool.
(** The translation function of the i18n context. *)
Variable t : string -> string.

(** [new Date(s + 'T12:00:00')]: a date and time without offset is local
    time; the date part is read as [parseDate] reads it. *)
Definition parseLocalNoon (d : IsoDate) : option Z :=
  match parseDate dayOverflow d with
  | Some midnight => Some (JSDate.UTC LocalTZA (midnight + 43200000))
  | None => None
  end.

Definition emptyDays (currentDate : Z) : list DayRow :=
  let daysInMonth :=
    JSDate.getDate LocalTZA
      (JSDate.fromLocal LocalTZA (JSDate.getFullYear LocalTZA currentDate)
         (JSDate.getMonth LocalTZA currentDate + 1) 0) in
  (fun i => mkDayRow i Number.zero Number.zero) <$> seqZ 1 daysInMonth.

(** One round of [transactions.forEach]. When [days[day - 1]] is
    [undefined], as it is for the [NaN] day of an invalid date, reading its
    [income] throws: [None]. *)
Definition chartTransaction (days : list DayRow) (tx : Transaction)
    : option (list DayRow) :=
  match parseLocalNoon (date tx) with
  | None => None
  | Some noon =>
      let day := JSDate.getDate LocalTZA noon in
      if day - 1 <? 0 then None
      else
        match days !! Z.to_nat (day - 1) with
        | None => None
        | Some row =>
            let row' :=
              match type tx with
              | income =>
                  mkDayRow (row_day row)
                           (Number.add (row_income row) (value tx))
                           (row_expense row)
              | expense =>
                  mkDayRow (row_day row) (row_income row)
                           (Number.add (row_expense row) (value tx))
              end in
            Some (<[Z.to_nat (day - 1) := row']> days)
        end
  end.

Definition dailyData (txs : list Transaction) (currentDate : Z)
    : option (list DayRow) :=
  foldl (fun acc tx => acc ≫= fun days => chartTransaction days tx)
        (Some (emptyDays currentDate)) txs.

(** [categories.forEach(c => map.set(c.id, c))] *)
Definition categoryMap (cats : list Category) : gmap string Category :=
  foldl (fun m c => <[cat_id c := c]> m) ∅ cats.

Definition sliceOf (entry : string * (number * option Category)) : Slice :=
  let '(i, (amount, category)) := entry in
  {| slice_id := i;
     slice_name :=
       match category with
       | Some c =>
           if cat_isSystem c then t ("category.default." +:+ cat_name c)
           else if String.eqb (cat_name c) EmptyString
           then t "category.noCategory" else cat_name c
       | None => t "category.noCategory"
       end;
     slice_value := amount;
     slice_color :=
       match category with
       | Some c =>
           if String.eqb (cat_color c) EmptyString then "#6B7280"
           else cat_color c
       | None => "#6B7280"
       end |}.

(** [expenseByCategory] for [ty = expense], [incomeByCategory] for
    [ty = income]. *)
Definition byCategory (ty : TxType) (txs : list Transaction)
    (cats : list Category) : list Slice :=
  let chosen := filter (fun tx => type tx = ty) txs in
  let entries :=
    foldl (fun acc tx =>
             bump acc (categoryId tx) (value tx)
                  (categoryMap cats !! categoryId tx))
          [] chosen in
  sortByValue (sliceOf <$> entries).

(** [byCategory.reduce((sum, c) => sum + c.value, 0)] *)
Definition sliceTotal (slices : list Slice) : number :=
  foldl (fun sum c => Number.add sum (slice_value c)) Number.zero slices.

End Reports.

(** A list of slices in which the comparator of the sort asks for no
    neighbours to change places. *)
Fixpoint descending (l : list Slice) : Prop :=
  match l with
  | [] => True
  | x :: rest =>
      match rest with
      | [] => True
      | y :: _ => sortsAfter x y = false
      end /\ descending rest
  end.

(** ** Further scenarios *)

Definition savingsAccount : Account :=
  mkAccount "acc-save" "savings" "#10B981" "PiggyBank" false
            "2024-01-01T00:00:00.000Z" "2024-01-01T00:00:00.000Z".

(** Installment number [k + 1] of three of a purchase paid from the savings
    account, series ["series-1"]. *)
Definition installmentOf (txid : string) (k : Z) (settled : bool) : Transaction :=
  {| id := txid; type := expense; value := Number.ofZ 250; currency := "BRL";
     description := "laptop"; categoryId := "cat-none"; accountId := "acc-save";
     date := mkIsoDate 2024 (1 + k) 10; isCompleted := settled;
     completedAt := None; isFixed := false; isRepeating := true;
     repeatConfig := Some (mkRepeatConfig 3 monthly None);
     repeatIndex := Some (k + 1); repeatTotal := Some 3;
     parentRepeatId := Some "series-1"; observation := EmptyString; tags := [];
     createdAt := "2024-01-10T09:00:00.000Z";
     updatedAt := "2024-01-10T09:00:00.000Z" |}.

Definition salary : Transaction :=
  {| id := "tx-salary"; type := income; value := Number.ofZ 5000; currency := "BRL";
     description := "salary"; categoryId := "cat-none"; accountId := "acc-main";
     date := mkIsoDate 2024 1 5; isCompleted := true;
     completedAt := Some "2024-01-05T10:00:00.000Z"; isFixed := false;
     isRepeating := false; repeatConfig := None; repeatIndex := None;
     repeatTotal := None; parentRepeatId := None; observation := "January";
     tags := ["work"]; createdAt := "2024-01-05T10:00:00.000Z";
     updatedAt := "2024-01-05T10:00:00.000Z" |}.

(** Two accounts, two categories, the rent, a salary and a purchase in three
    installments of which the first is paid. *)
Definition ledgerWorld : World :=
  {| transactions :=
       {[ "tx-rent" := fixedExpense "tx-rent" (mkIsoDate 2024 1 15);
          "tx-salary" := salary;
          "tx-i1" := installmentOf "tx-i1" 0 true;
          "tx-i2" := installmentOf "tx-i2" 1 false;
          "tx-i3" := installmentOf "tx-i3" 2 false ]};
     categories := {[ "cat-rent" := rentCategory; "cat-none" := otherCategory ]};
     accounts := {[ "acc-main" := mainAccount; "acc-save" := savingsAccount ]};
     settings := Some userSettings;
     uuid_calls := 0; clock_reads := 0 |}.

(** A patch that names no field, and the patch that marks a transaction
    as completed. *)
Definition noChanges : TransactionPatch :=
  mkTransactionPatch None None None None None None None None None None
                     None None None None None None None None None None.


Definition renaming (newId : string) : TransactionPatch :=
  mkTransactionPatch (Some newId) None None None None None None None None None
                     None None None None None None None None None None.

(** [{ defaultCurrency }] *)
Definition currencyChange (cur : string) : SettingsPatch :=
  mkSettingsPatch None None None None None None None None None (Some cur)
                  None None None None.

(** Lower case for the letters A to Z. *)
Definition asciiLower (s : string) : string :=
  String.string_of_list_ascii
    (List.map (fun c =>
                 let n := Ascii.N_of_ascii c in
                 if ((65 <=? n) && (n <=? 90))%N then Ascii.ascii_of_N (n + 32)
                 else c)
              (String.list_ascii_of_string s)).

(** Clock readings a day apart from 2024-02-01T12:00:00Z. *)
Definition timeOf (k : nat) : Z := 1706788800000 + Z.of_nat k * 86400000.

(** A file with the rent category under a new id, a new account and one
    transaction the store has and one it has not. *)
Definition backupFile : ExportData :=
  {| version := 1; exportedAt := "2024-02-01T00:00:00.000Z";
     ex_transactions := [salary; installmentOf "tx-i9" 0 true];
     ex_categories :=
       [mkCategory "cat-rent-2" expense "rent" "#EF4444" "Home" false true
                   "2023-06-01T00:00:00.000Z" "2023-06-01T00:00:00.000Z";
        mkCategory "cat-food" expense "food" "#F97316" "Utensils" false true
                   "2023-06-01T00:00:00.000Z" "2023-06-01T00:00:00.000Z"];
     ex_accounts := [savingsAccount;
                     mkAccount "acc-cash" "cash" "#F59E0B" "Banknote" false
                               "2023-06-01T00:00:00.000Z"
                               "2023-06-01T00:00:00.000Z"];
     ex_settings := None |}.

(** A file whose only category has the id of the stored rent category and
    another name. *)
Definition housingCategory : Category :=
  mkCategory "cat-rent" expense "housing" "#0EA5E9" "Building" false false
             "2023-06-01T00:00:00.000Z" "2023-06-01T00:00:00.000Z".

Definition clashingFile : ExportData :=
  {| version := 1; exportedAt := "2024-02-01T00:00:00.000Z";
     ex_transactions := []; ex_categories := [housingCategory];
     ex_accounts := []; ex_settings := None |}.

(** Expenses of 0.1 and 0.4 for rent, with one of 0.1 without category in
    between. *)
Definition spent (txid cid : string) (v : number) : Transaction :=
  {| id := txid; type := expense; value := v; currency := "BRL";
     description := "entry"; categoryId := cid; accountId := "acc-main";
     date := mkIsoDate 2024 3 1; isCompleted := true; completedAt := None;
     isFixed := false; isRepeating := false; repeatConfig := None;
     repeatIndex := None; repeatTotal := None; parentRepeatId := None;
     observation := EmptyString; tags := [];
     createdAt := "2024-03-01T00:00:00.000Z";
     updatedAt := "2024-03-01T00:00:00.000Z" |}.

Definition tenths : list Transaction :=
  [spent "tx-1" "cat-rent" (Number.decimal 1 1);
   spent "tx-2" "cat-none" (Number.decimal 1 1);
   spent "tx-3" "cat-rent" (Number.decimal 4 1)].

(** Budgets for food and rent in January 2024 and for food in February. *)
Definition budgetWorld : BudgetWorld :=
  {| budgets :=
       {[ "b-1" := mkCategoryBudget "b-1" "cat-food" (Number.ofZ 800) "BRL" "2024-01"
                     "2024-01-01T00:00:00.000Z" "2024-01-01T00:00:00.000Z";
          "b-2" := mkCategoryBudget "b-2" "cat-rent" (Number.ofZ 1200) "BRL" "2024-01"
                     "2024-01-01T00:00:00.000Z" "2024-01-01T00:00:00.000Z";
          "b-3" := mkCategoryBudget "b-3" "cat-food" (Number.ofZ 700) "BRL" "2024-02"
                     "2024-02-01T00:00:00.000Z" "2024-02-01T00:00:00.000Z" ]};
     b_uuid_calls := 0; b_clock_reads := 0 |}.

(** * Properties *)

(** ** Stepping through the monad *)

Ltac step_monad :=
  cbv [bind ret gets modify newUuid nowISO putTransaction putCategory putAccount
       set_transactions set_categories set_accounts set_settings] in *;
  cbn [fst snd transactions categories accounts settings uuid_calls clock_reads] in *.

Lemma forEach_cons {A} (x : A) (l : list A) (body : A -> M unit) (w : World) :
  forEach (x :: l) body w = forEach l body (snd (body x w)).
Proof. cbn. unfold bind. by destruct (body x w) as [[] ?]. Qed.

(** ** The order of the keys *)

Lemma ascii_compare_refl (a : Ascii.ascii) : Ascii.compare a a = Eq.
Proof. unfold Ascii.compare. apply N.compare_refl. Qed.

Lemma ascii_compare_lt_trans (a b c : Ascii.ascii) :
  Ascii.compare a b = Lt -> Ascii.compare b c = Lt -> Ascii.compare a c = Lt.
Proof.
  unfold Ascii.compare. rewrite !N.compare_lt_iff. apply N.lt_trans.
Qed.

Lemma string_compare_refl (s : string) : String.compare s s = Eq.
Proof.
  induction s as [|a s IH]; [done|]. cbn. by rewrite ascii_compare_refl.
Qed.

Lemma string_compare_lt_trans (s1 s2 s3 : string) :
  String.compare s1 s2 = Lt -> String.compare s2 s3 = Lt ->
  String.compare s1 s3 = Lt.
Proof.
  revert s2 s3. induction s1 as [|a s1 IH]; intros [|b s2] [|c s3]; cbn;
    try done.
  destruct (Ascii.compare a b) eqn:Hab; [|clear IH|done].
  - apply Ascii.compare_eq_iff in Hab as ->.
    destruct (Ascii.compare b c); [apply IH|done|done].
  - destruct (Ascii.compare b c) eqn:Hbc; [| |done]; intros _ H.
    + apply Ascii.compare_eq_iff in Hbc as <-. by rewrite Hab.
    + by rewrite (ascii_compare_lt_trans a b c).
Qed.

Lemma string_leb_lt (s1 s2 : string) :
  String.leb s1 s2 = true <-> String.compare s1 s2 = Lt \/ s1 = s2.
Proof.
  unfold String.leb. split.
  - destruct (String.compare s1 s2) eqn:H; [|by left|done].
    right. by apply String.compare_eq_iff.
  - intros [->| ->]; [done|]. by rewrite string_compare_refl.
Qed.

Global Instance keyLe_trans {R} : Transitive (@keyLe R).
Proof.
  intros [k1 ?] [k2 ?] [k3 ?]. unfold keyLe. cbn.
  rewrite !string_leb_lt. intros [H1| ->] [H2| ->]; eauto.
  left. by eapply string_compare_lt_trans.
Qed.

Global Instance keyLe_total {R} : Total (@keyLe R).
Proof. intros [k1 ?] [k2 ?]. apply String.leb_total. Qed.

Section Entries.

Context {R : Type}.

Implicit Types (m : gmap string R) (l : list (string * R)).

Lemma entries_perm m : entries m ≡ₚ map_to_list m.
Proof. apply merge_sort_Permutation. Qed.

Lemma elem_of_entries m k r : (k, r) ∈ entries m <-> m !! k = Some r.
Proof. rewrite entries_perm. apply elem_of_map_to_list. Qed.

Lemma entries_sorted m : StronglySorted keyLe (entries m).
Proof. apply (StronglySorted_merge_sort _). Qed.

Lemma entries_NoDup_keys m : NoDup (entries m).*1.
Proof. rewrite entries_perm. apply NoDup_fst_map_to_list. Qed.

(** There is one list of the records of [m] by ascending key. *)
Lemma entries_unique m l :
  StronglySorted keyLe l ->
  NoDup l.*1 ->
  (forall k r, (k, r) ∈ l <-> m !! k = Some r) ->
  l = entries m.
Proof.
  intros Hs Hnd Hl. apply (StronglySorted_unique_strong keyLe).
  - intros [k1 r1] [k2 r2] H1 H2 Hle1 Hle2.
    assert (k1 = k2) as <- by exact (String.leb_antisym _ _ Hle1 Hle2).
    apply Hl in H1. apply elem_of_entries in H2. congruence.
  - done.
  - apply entries_sorted.
  - apply NoDup_Permutation.
    + by eapply NoDup_fmap_1.
    + eapply NoDup_fmap_1, entries_NoDup_keys.
    + intros [k r]. by rewrite Hl, elem_of_entries.
Qed.

Lemma entries_empty : entries (∅ : gmap string R) = [].
Proof. unfold entries. by rewrite map_to_list_empty. Qed.

Lemma StronglySorted_filter {A} (Rel : relation A) (P : A -> Prop)
    `{!forall x, Decision (P x)} (l : list A) :
  StronglySorted Rel l -> StronglySorted Rel (filter P l).
Proof.
  induction 1 as [|x l Hs IH Hx]; [constructor|].
  rewrite filter_cons. destruct (decide (P x)); [|done].
  constructor; [done|]. rewrite Forall_forall in Hx |- *.
  intros y [_ Hy]%list_elem_of_filter. by apply Hx.
Qed.

(** The records of a part of the store are listed in the order in which the
    whole store lists them. *)
Lemma entries_sub m m' :
  m' ⊆ m ->
  entries m' = filter (fun kr => is_Some (m' !! kr.1)) (entries m).
Proof.
  intros Hsub. symmetry. apply entries_unique.
  - apply StronglySorted_filter, entries_sorted.
  - eapply sublist_NoDup; [apply entries_NoDup_keys|].
    apply fmap_sublist, sublist_filter.
  - intros k r. rewrite list_elem_of_filter, elem_of_entries. cbn. split.
    + intros [[r' Hr'] Hr]. rewrite Hr'. f_equal.
      eapply lookup_weaken in Hr'; [|done]. congruence.
    + intros Hr. split; [eauto|]. by eapply lookup_weaken.
Qed.

(** Rewriting the records in place keeps their order. *)
Lemma entries_map m (f : string -> R -> R) :
  entries (map_imap (fun k r => Some (f k r)) m)
  = (fun kr => (kr.1, f kr.1 kr.2)) <$> entries m.
Proof.
  symmetry. apply entries_unique.
  - assert (Hgen : forall l, StronglySorted keyLe l ->
              StronglySorted keyLe ((fun kr : string * R => (kr.1, f kr.1 kr.2)) <$> l)).
    { induction 1 as [|x l Hs IH Hx]; [constructor|].
      rewrite fmap_cons. constructor; [done|].
      rewrite Forall_fmap. eapply Forall_impl; [exact Hx|]. by intros []. }
    apply Hgen, entries_sorted.
  - rewrite <- list_fmap_compose.
    erewrite list_fmap_ext; [apply entries_NoDup_keys|]. by intros ? [].
  - intros k r. rewrite list_elem_of_fmap, map_lookup_imap. split.
    + intros [[k' r'] [[= -> ->] Hin]]. apply elem_of_entries in Hin.
      by rewrite Hin.
    + destruct (m !! k) as [r'|] eqn:Hm; [|done]. cbn. intros [= <-].
      exists (k, r'). split; [done|]. by apply elem_of_entries.
Qed.

End Entries.

Section StoreFacts.

Context {R : Type} (key : R -> string).

Local Abbreviation put := (put key).

Lemma getAll_elem (m : gmap string R) (r : R) :
  r ∈ getAll m <-> exists k, m !! k = Some r.
Proof.
  unfold getAll. rewrite list_elem_of_fmap. split.
  - intros [[k r'] [-> Hin]]. exists k. by apply elem_of_entries in Hin.
  - intros [k Hk]. exists (k, r). split; [done|]. by apply elem_of_entries.
Qed.

Lemma getAll_empty : getAll (∅ : gmap string R) = [].
Proof. unfold getAll. by rewrite entries_empty. Qed.

Lemma getAll_perm (m : gmap string R) : getAll m ≡ₚ (map_to_list m).*2.
Proof. unfold getAll. by rewrite entries_perm. Qed.

Lemma getAll_keys (m : gmap string R) :
  keyed_by key m -> key <$> getAll m = (entries m).*1.
Proof.
  intros Hk. unfold getAll. rewrite <- list_fmap_compose.
  apply list_fmap_ext. intros i [k r] Hi. simpl.
  apply (Hk k r). apply elem_of_entries, list_elem_of_lookup. eauto.
Qed.

Lemma getAll_NoDup (m : gmap string R) :
  keyed_by key m -> NoDup (key <$> getAll m).
Proof. intros Hk. rewrite getAll_keys by done. apply entries_NoDup_keys. Qed.

Lemma getAll_keyed (m : gmap string R) (r : R) :
  keyed_by key m -> r ∈ getAll m -> m !! key r = Some r.
Proof.
  intros Hk [k Hr]%getAll_elem. by rewrite (Hk k r Hr).
Qed.

Lemma getAll_key_elem (m : gmap string R) (k : string) :
  keyed_by key m -> k ∈ key <$> getAll m <-> is_Some (m !! k).
Proof.
  intros Hk. rewrite list_elem_of_fmap. split.
  - intros [r [-> Hr]]. rewrite (getAll_keyed m r) by done. eauto.
  - intros [r Hr]. exists r. split; [symmetry; exact (Hk k r Hr)|].
    apply getAll_elem. eauto.
Qed.

(** Writing a list of records one after the other. *)
Lemma foldl_put_notin (l : list R) (m : gmap string R) (k : string) :
  k ∉ key <$> l -> foldl put m l !! k = m !! k.
Proof.
  revert m. induction l as [|r l IH]; intros m Hk; [done|].
  rewrite fmap_cons, not_elem_of_cons in Hk. destruct Hk as [Hne Hk].
  simpl. rewrite IH by done. unfold put. by rewrite lookup_insert_ne.
Qed.

Lemma foldl_put_in (l : list R) (m : gmap string R) (r : R) :
  NoDup (key <$> l) -> r ∈ l -> foldl put m l !! key r = Some r.
Proof.
  revert m. induction l as [|r' l IH]; intros m Hnd Hin.
  - by apply elem_of_nil in Hin.
  - rewrite fmap_cons, NoDup_cons in Hnd. destruct Hnd as [Hni Hnd].
    apply elem_of_cons in Hin as [->|Hin]; simpl.
    + rewrite foldl_put_notin by done. unfold put. by rewrite lookup_insert_eq.
    + by apply IH.
Qed.

Lemma foldl_put_size (l : list R) (m : gmap string R) :
  NoDup (key <$> l) -> Forall (fun r => m !! key r = None) l ->
  size (foldl put m l) = (size m + length l)%nat.
Proof.
  revert m. induction l as [|r l IH]; intros m Hnd Hfresh; simpl; [lia|].
  rewrite fmap_cons, NoDup_cons in Hnd. destruct Hnd as [Hni Hnd].
  apply Forall_cons in Hfresh as [Hr Hfresh].
  rewrite IH; [|done|].
  - unfold put. rewrite map_size_insert_None by done. lia.
  - rewrite Forall_forall in Hfresh |- *. intros r' Hr'.
    unfold put. rewrite lookup_insert_ne; [by apply Hfresh|].
    intros Heq. apply Hni. rewrite Heq. by apply list_elem_of_fmap_2.
Qed.

(** Listing a keyed store and writing the records back rebuilds it. *)
Lemma foldl_put_getAll (m : gmap string R) :
  keyed_by key m -> foldl put ∅ (getAll m) = m.
Proof.
  intros Hk. apply map_eq. intros k.
  destruct (m !! k) as [r|] eqn:Hm.
  - assert (key r = k) as <- by exact (Hk k r Hm).
    apply foldl_put_in; [by apply getAll_NoDup|]. apply getAll_elem. eauto.
  - rewrite foldl_put_notin; [by rewrite lookup_empty|].
    rewrite getAll_key_elem by done. rewrite Hm. by intros [? ?].
Qed.

Lemma foldl_put_subseteq (l : list R) (m : gmap string R) :
  Forall (fun r => m !! key r = None) l -> m ⊆ foldl put m l.
Proof.
  intros Hfresh. apply map_subseteq_spec. intros k x Hk.
  rewrite foldl_put_notin; [done|].
  intros [r [-> Hr]]%list_elem_of_fmap.
  rewrite Forall_forall in Hfresh. specialize (Hfresh r Hr). congruence.
Qed.

Lemma getAll_submseteq (m1 m2 : gmap string R) :
  m1 ⊆ m2 -> getAll m1 ⊆+ getAll m2.
Proof.
  intros H. rewrite !getAll_perm.
  by apply fmap_submseteq, map_to_list_submseteq.
Qed.


Lemma NoDup_key_inj (l : list R) (r r' : R) :
  NoDup (key <$> l) -> r ∈ l -> r' ∈ l -> key r = key r' -> r = r'.
Proof.
  induction l as [|x l IH]; intros Hnd Hr Hr' Hk.
  - by apply elem_of_nil in Hr.
  - rewrite fmap_cons, NoDup_cons in Hnd. destruct Hnd as [Hx Hnd].
    apply elem_of_cons in Hr as [->|Hr]; apply elem_of_cons in Hr' as [->|Hr'].
    + done.
    + exfalso. apply Hx. rewrite Hk. by apply list_elem_of_fmap_2.
    + exfalso. apply Hx. rewrite <- Hk. by apply list_elem_of_fmap_2.
    + by apply IH.
Qed.

Lemma filter_all (P : R -> Prop) `{!forall x, Decision (P x)} (l : list R) :
  (forall x, x ∈ l -> P x) -> filter P l = l.
Proof.
  induction l as [|x l IH]; intros Hall; [done|].
  rewrite filter_cons, decide_True by (apply Hall; by left).
  f_equal. apply IH. intros y Hy. apply Hall. by right.
Qed.

(** Writing the records of [l] that pass a test [P]. *)
Lemma merge_in (P : R -> Prop) `{!forall x, Decision (P x)} (l : list R)
    (m : gmap string R) (r : R) :
  NoDup (key <$> l) -> r ∈ l -> P r ->
  foldl put m (filter P l) !! key r = Some r.
Proof.
  intros Hnd Hr HP. apply foldl_put_in.
  - eapply sublist_NoDup; [exact Hnd|]. apply fmap_sublist, sublist_filter.
  - by apply list_elem_of_filter.
Qed.

Lemma merge_out (P : R -> Prop) `{!forall x, Decision (P x)} (l : list R)
    (m : gmap string R) (r : R) :
  NoDup (key <$> l) -> r ∈ l -> ~ P r ->
  foldl put m (filter P l) !! key r = m !! key r.
Proof.
  intros Hnd Hr HP. apply foldl_put_notin.
  intros [r' [Hk [HP' Hr']%list_elem_of_filter]]%list_elem_of_fmap.
  assert (r = r') as -> by (by eapply NoDup_key_inj). done.
Qed.

Lemma merge_other (P : R -> Prop) `{!forall x, Decision (P x)} (l : list R)
    (m : gmap string R) (k : string) :
  k ∉ key <$> l -> foldl put m (filter P l) !! k = m !! k.
Proof.
  intros Hk. apply foldl_put_notin.
  intros [r' [-> [_ Hr']%list_elem_of_filter]]%list_elem_of_fmap.
  apply Hk. by apply list_elem_of_fmap_2.
Qed.

End StoreFacts.

Section LifecycleFacts.

Variable LocalTZA : Z -> bool -> Z.
Variable dayOverflow : bool.
Variable uuidv4 : nat -> string.
Variable clock : nat -> string.

Lemma addTransaction_eq (draft : TransactionDraft) (w : World) :
  addTransaction uuidv4 clock draft w =
    (let tx := fromDraft draft (uuidv4 (uuid_calls w))
                 (clock (clock_reads w)) (clock (clock_reads w)) in
     (tx, mkWorld (put id (transactions w) tx) (categories w) (accounts w)
                  (settings w) (S (uuid_calls w)) (S (clock_reads w)))).
Proof. reflexivity. Qed.

(** C9, as the code has it. [addTransaction] looks at no other store: for
    every draft, whether or not its [categoryId] and [accountId] name an
    existing category and account, it draws one id and one timestamp,
    writes exactly one record under that id and returns that record;
    categories, accounts and settings are left alone. *)
Theorem addTransaction_writes_unchecked (draft : TransactionDraft) (w : World) :
  let (tx, w') := addTransaction uuidv4 clock draft w in
  id tx = uuidv4 (uuid_calls w) /\
  createdAt tx = clock (clock_reads w) /\
  updatedAt tx = clock (clock_reads w) /\
  categoryId tx = d_categoryId draft /\
  accountId tx = d_accountId draft /\
  tx = fromDraft draft (id tx) (createdAt tx) (updatedAt tx) /\
  transactions w' = <[id tx := tx]> (transactions w) /\
  transactions w' !! id tx = Some tx /\
  (forall k, k <> id tx -> transactions w' !! k = transactions w !! k) /\
  categories w' = categories w /\
  accounts w' = accounts w /\
  settings w' = settings w.
Proof.
  rewrite addTransaction_eq. cbn.
  repeat split; try reflexivity.
  - unfold put. cbn. by rewrite lookup_insert_eq.
  - intros k Hk. unfold put. cbn. by rewrite lookup_insert_ne.
Qed.









End LifecycleFacts.

Section FixedFacts.

Variable LocalTZA : Z -> bool -> Z.
Variable dayOverflow : bool.
Variable uuidv4 : nat -> string.
Variable clock : nat -> string.

Local Abbreviation generate :=
  (generateFixedTransactionsForMonth LocalTZA dayOverflow uuidv4 clock).
Local Abbreviation sources := (fixedSources LocalTZA dayOverflow).
Local Abbreviation cloned := (withClones LocalTZA dayOverflow uuidv4 clock).
Local Abbreviation parses :=
  (fun tx : Transaction => is_Some (parseDate dayOverflow (date tx))).

Lemma cloneFixed_eq year month txs cnt w :
  Forall parses txs ->
  cloneFixed LocalTZA dayOverflow uuidv4 clock year month txs cnt w =
    (returned (cnt + Z.of_nat (length txs)), cloned year month txs w).
Proof.
  intros Hp. revert cnt w.
  induction Hp as [|tx txs [t Ht] _ IH]; intros cnt w.
  - unfold withClones. cbn. rewrite !Nat.add_0_r, Z.add_0_r. by destruct w.
  - cbn [cloneFixed]. rewrite Ht. unfold bind at 1. rewrite addTransaction_eq.
    cbv beta iota zeta. rewrite IH. unfold withClones.
    cbn [transactions categories accounts settings uuid_calls clock_reads
         fixedClones foldl length].
    rewrite Ht. cbn [foldl].
    f_equal; [f_equal; lia|]. f_equal; lia.
Qed.

(** The month query lists no transaction with an invalid date, so the loop
    of the generator never throws. *)
Lemma fixedSources_parse year month w : Forall parses (sources year month w).
Proof.
  unfold fixedSources, getFixedTransactionsFromMonth, getTransactionsByMonth.
  step_monad. apply Forall_forall. intros tx.
  rewrite !list_elem_of_filter. intros (_ & Hin & _). unfold inMonth in Hin.
  destruct (parseDate dayOverflow (date tx)); [eauto|done].
Qed.

Lemma withClones_nil year month w : cloned year month [] w = w.
Proof. unfold withClones. cbn. rewrite !Nat.add_0_r. by destruct w. Qed.

Lemma isMonthProcessed_world year month w :
  snd (isMonthProcessed year month w) = w.
Proof. unfold isMonthProcessed. step_monad. by destruct (settings w). Qed.


Lemma markMonthAsProcessed_stores year month w :
  let w' := snd (markMonthAsProcessed clock year month w) in
  transactions w' = transactions w /\ categories w' = categories w /\
  accounts w' = accounts w /\ uuid_calls w' = uuid_calls w.
Proof.
  unfold markMonthAsProcessed. step_monad.
  destruct (settings w) as [st|]; [|done].
  by case_bool_decide.
Qed.

(** Once marked, the month reads as processed, provided the settings record
    exists. *)
Lemma markMonthAsProcessed_present year month w st :
  settings w = Some st ->
  fst (isMonthProcessed year month
         (snd (markMonthAsProcessed clock year month w))) = true.
Proof.
  intros H. unfold markMonthAsProcessed, isMonthProcessed. step_monad.
  rewrite H. case_bool_decide as Hin; cbn.
  - rewrite H. by apply bool_decide_eq_true.
  - apply bool_decide_eq_true. cbn. apply elem_of_app. right. by apply list_elem_of_singleton.
Qed.

Lemma isMonthProcessed_eq year month w :
  isMonthProcessed year month w = (fst (isMonthProcessed year month w), w).
Proof.
  rewrite <- (isMonthProcessed_world year month w) at 3.
  by destruct (isMonthProcessed year month w).
Qed.

Lemma getFixedTransactionsFromMonth_eq year month w :
  getFixedTransactionsFromMonth LocalTZA dayOverflow year month w =
    (fst (getFixedTransactionsFromMonth LocalTZA dayOverflow year month w), w).
Proof. reflexivity. Qed.

Lemma markMonthAsProcessed_eq year month w :
  markMonthAsProcessed clock year month w =
    (tt, snd (markMonthAsProcessed clock year month w)).
Proof. by destruct (markMonthAsProcessed clock year month w) as [[] ?]. Qed.

Lemma generate_processed year month w :
  fst (isMonthProcessed year month w) = true ->
  generate year month w = (returned 0, w).
Proof.
  intros H. unfold generateFixedTransactionsForMonth. unfold bind at 1.
  rewrite isMonthProcessed_eq, H. reflexivity.
Qed.

(** The path through steps 2-7: both exits mark the month and return the
    number of sources. *)
Lemma generate_unprocessed year month w :
  fst (isMonthProcessed year month w) = false ->
  generate year month w =
    (returned (Z.of_nat (length (sources year month w))),
     snd (markMonthAsProcessed clock year month
            (cloned year month (sources year month w) w))).
Proof.
  intros H. unfold generateFixedTransactionsForMonth. unfold bind at 1.
  rewrite isMonthProcessed_eq, H. cbv beta iota.
  pose proof (fixedSources_parse year month w) as Hparse. revert Hparse.
  unfold fixedSources.
  destruct (previousMonth year month) as [py pm]. cbn [fst snd].
  unfold bind at 1. rewrite getFixedTransactionsFromMonth_eq.
  generalize (fst (getFixedTransactionsFromMonth LocalTZA dayOverflow py pm w))
    as srcs.
  intros srcs Hparse. cbv beta iota.
  destruct (Nat.eqb_spec (length srcs) 0) as [Hz|Hz].
  - destruct srcs; [|done]. rewrite withClones_nil.
    unfold bind, ret. by rewrite markMonthAsProcessed_eq.
  - unfold bind at 1. rewrite cloneFixed_eq by done. unfold bind, ret.
    rewrite markMonthAsProcessed_eq. cbn. reflexivity.
Qed.







(** C1, as the code has it. When the settings record exists, a second call
    for the same month finds the month in the ledger: it returns 0 and
    leaves the whole world, the transactions in particular, as the first
    call left it. The first call returns as well: it never throws. *)
Theorem generate_twice_with_settings year month w st :
  settings w = Some st ->
  let (n1, w1) := generate year month w in
  let (n2, w2) := generate year month w1 in
  fst (isMonthProcessed year month w1) = true /\
  n2 = returned 0 /\
  w2 = w1 /\
  size (transactions w2) = size (transactions w1) /\
  (exists created, n1 = returned created).
Proof.
  intros Hst.
  destruct (fst (isMonthProcessed year month w)) eqn:Hp.
  - rewrite (generate_processed year month w Hp).
    rewrite (generate_processed year month w Hp). split_and!; eauto.
  - rewrite (generate_unprocessed year month w Hp).
    set (w1 := snd (markMonthAsProcessed clock year month _)).
    assert (Hw1 : fst (isMonthProcessed year month w1) = true).
    { subst w1. by apply markMonthAsProcessed_present with (st := st). }
    rewrite (generate_processed year month w1 Hw1). split_and!; eauto.
Qed.


End FixedFacts.

Section IntegrityFacts.

Variable clock : nat -> string.

(** The body of the loop of [deleteCategory]. *)
Local Abbreviation moveBody cid moveToId :=
  (fun tx : Transaction =>
     if decide (categoryId tx = cid)
     then do now <- nowISO clock; putTransaction (retarget tx moveToId now)
     else ret tt).

Lemma moveBody_eq cid moveToId tx w :
  moveBody cid moveToId tx w =
    (tt, if decide (categoryId tx = cid)
         then mkWorld (put id (transactions w)
                         (retarget tx moveToId (clock (clock_reads w))))
                      (categories w) (accounts w) (settings w) (uuid_calls w)
                      (S (clock_reads w))
         else w).
Proof. cbv beta. destruct (decide (categoryId tx = cid)); reflexivity. Qed.

Lemma forEach_move cid moveToId (l : list Transaction) (w : World) :
  NoDup (id <$> l) ->
  let w' := snd (forEach l (moveBody cid moveToId) w) in
  categories w' = categories w /\ accounts w' = accounts w /\
  settings w' = settings w /\ uuid_calls w' = uuid_calls w /\
  (clock_reads w <= clock_reads w')%nat /\
  (forall k, k ∉ id <$> l -> transactions w' !! k = transactions w !! k) /\
  (forall tx, tx ∈ l -> categoryId tx <> cid ->
     transactions w' !! id tx = transactions w !! id tx) /\
  (forall tx, tx ∈ l -> categoryId tx = cid ->
     exists j, (clock_reads w <= j < clock_reads w')%nat /\
       transactions w' !! id tx = Some (retarget tx moveToId (clock j))).
Proof.
  revert w. induction l as [|x l IH]; intros w Hnd.
  - cbn. split_and!; try done; try lia; intros tx Htx; by apply elem_of_nil in Htx.
  - rewrite fmap_cons, NoDup_cons in Hnd. destruct Hnd as [Hx Hnd].
    rewrite forEach_cons, moveBody_eq. cbn [snd].
    set (wx := if decide (categoryId x = cid) then _ else w).
    destruct (IH wx Hnd) as (Hc & Ha & Hs & Hu & Hclk & Hout & Hkeep & Hmove).
    assert (Hwx : categories wx = categories w /\ accounts wx = accounts w /\
                  settings wx = settings w /\ uuid_calls wx = uuid_calls w /\
                  (clock_reads w <= clock_reads wx)%nat /\
                  (forall k, k <> id x ->
                     transactions wx !! k = transactions w !! k)).
    { subst wx. destruct (decide (categoryId x = cid)); cbn; split_and!; try done; try lia.
      intros k Hk. unfold put. cbn. by rewrite lookup_insert_ne. }
    destruct Hwx as (Hc' & Ha' & Hs' & Hu' & Hclk' & Hother).
    cbv zeta. split_and!; try congruence; try lia.
    + intros k Hk. rewrite fmap_cons, not_elem_of_cons in Hk.
      destruct Hk as [Hkx Hk]. rewrite Hout by done. by apply Hother.
    + intros tx Htx Hcat. apply elem_of_cons in Htx as [->|Htx].
      * rewrite Hout by done. subst wx. by rewrite decide_False.
      * rewrite Hkeep by done. apply Hother. intros Heq. apply Hx.
        rewrite <- Heq. by apply list_elem_of_fmap_2.
    + intros tx Htx Hcat. apply elem_of_cons in Htx as [->|Htx].
      * exists (clock_reads w). rewrite Hout by done. subst wx.
        rewrite decide_True in * by done. cbn in *. split; [lia|].
        unfold put. cbn. by rewrite lookup_insert_eq.
      * destruct (Hmove tx Htx Hcat) as [j [Hj Hlk]]. exists j. split; [lia|done].
Qed.

Lemma deleteCategory_eq cid moveToId w :
  deleteCategory clock cid moveToId w =
    (tt, set_categories (delete cid)
           (snd (forEach (getAll (transactions w)) (moveBody cid moveToId) w))).
Proof.
  unfold deleteCategory. step_monad.
  by destruct (forEach _ _ w) as [[] w'].
Qed.

(** C4, as the code has it: the category to move to differs from the one
    deleted. Then afterwards no transaction names the deleted category; each
    transaction that named it is the same record with [categoryId] set to the
    substitute and [updatedAt] set to a clock reading taken during the call;
    every other transaction is untouched, no transaction appears or
    disappears, and the category record is gone. *)
Theorem deleteCategory_moves catA catB w :
  catA <> catB ->
  keyed_by id (transactions w) ->
  let w' := snd (deleteCategory clock catA catB w) in
  (forall k tx, transactions w' !! k = Some tx -> categoryId tx <> catA) /\
  (forall k tx, transactions w !! k = Some tx -> categoryId tx = catA ->
     exists j tx', (clock_reads w <= j < clock_reads w')%nat /\
       transactions w' !! k = Some tx' /\
       tx' = retarget tx catB (clock j) /\
       categoryId tx' = catB /\ updatedAt tx' = clock j) /\
  (forall k tx, transactions w !! k = Some tx -> categoryId tx <> catA ->
     transactions w' !! k = Some tx) /\
  (forall k, transactions w !! k = None -> transactions w' !! k = None) /\
  categories w' = delete catA (categories w) /\
  categories w' !! catA = None /\
  accounts w' = accounts w /\ settings w' = settings w.
Proof.
  intros Hne Hkey. rewrite deleteCategory_eq. cbn [snd].
  destruct (forEach_move catA catB (getAll (transactions w)) w
              (getAll_NoDup id _ Hkey))
    as (Hc & Ha & Hs & Hu & Hclk & Hout & Hkeep & Hmove).
  set (w1 := snd (forEach _ _ w)) in *.
  assert (Hmoved : forall k tx, transactions w !! k = Some tx ->
            categoryId tx = catA ->
            exists j, (clock_reads w <= j < clock_reads w1)%nat /\
              transactions w1 !! k = Some (retarget tx catB (clock j))).
  { intros k tx Hk Hcat. assert (id tx = k) as <- by exact (Hkey k tx Hk).
    apply Hmove; [|done]. apply getAll_elem. eauto. }
  assert (Hkept : forall k tx, transactions w !! k = Some tx ->
            categoryId tx <> catA -> transactions w1 !! k = Some tx).
  { intros k tx Hk Hcat. assert (id tx = k) as <- by exact (Hkey k tx Hk).
    rewrite Hkeep; [done| |done].
    apply getAll_elem. eauto. }
  assert (Hnone : forall k, transactions w !! k = None ->
            transactions w1 !! k = None).
  { intros k Hk. rewrite Hout; [done|].
    rewrite (getAll_key_elem id) by done. rewrite Hk. by intros [? ?]. }
  cbv zeta. unfold set_categories.
  cbn [transactions categories accounts settings clock_reads].
  split_and!; try done.
  - intros k tx Hk Hcat. destruct (transactions w !! k) as [tx0|] eqn:Hk0.
    + destruct (decide (categoryId tx0 = catA)) as [Heq|Hneq].
      * destruct (Hmoved k tx0 Hk0 Heq) as [j [_ Hj]]. rewrite Hj in Hk.
        injection Hk as <-. cbn in Hcat. congruence.
      * rewrite (Hkept k tx0 Hk0 Hneq) in Hk. congruence.
    + rewrite (Hnone k Hk0) in Hk. done.
  - intros k tx Hk Hcat. destruct (Hmoved k tx Hk Hcat) as [j [Hj Hlk]].
    exists j, (retarget tx catB (clock j)). done.
  - by rewrite Hc.
  - rewrite Hc. apply lookup_delete_eq.
Qed.

End IntegrityFacts.

Section BalanceFacts.

Implicit Types (b : gmap string (gmap string number)) (tx : Transaction).

Lemma balanceStep_pending b tx : isCompleted tx = false -> balanceStep b tx = b.
Proof. intros H. unfold balanceStep. by rewrite H. Qed.

Lemma entry_step b tx a c :
  entry (balanceStep b tx) a c =
    if decide (settles a c tx)
    then Some (applyTx (default Number.zero (entry b a c)) tx)
    else entry b a c.
Proof.
  destruct (decide (settles a c tx)) as [(Hc & <- & <-)|Hn].
  - unfold balanceStep, entry, applyTx. rewrite Hc. cbn [negb].
    rewrite lookup_insert_eq. cbn [mbind option_bind].
    destruct (b !! accountId tx) as [row|] eqn:Hrow;
      [rewrite Hrow|rewrite lookup_insert_eq];
      cbn [from_option Datatypes.id mbind option_bind].
    + destruct (row !! currency tx) as [v|] eqn:Hv;
        [destruct (Number.falsy v) eqn:Hf|];
        rewrite ?lookup_insert_eq, ?Hv; cbn [from_option Datatypes.id];
        rewrite ?Hf; destruct (type tx);
        by rewrite lookup_insert_eq.
    + rewrite lookup_empty, lookup_insert_eq. cbn [from_option Datatypes.id].
      destruct (type tx); by rewrite lookup_insert_eq.
  - destruct (isCompleted tx) eqn:Hc; [|by rewrite balanceStep_pending].
    unfold balanceStep, entry. rewrite Hc. cbn [negb].
    destruct (decide (accountId tx = a)) as [<-|Ha].
    + assert (Hcur : currency tx <> c) by (intros ?; apply Hn; done).
      rewrite lookup_insert_eq. cbn [mbind option_bind].
      repeat case_match; simplify_map_eq; cbn; done.
    + rewrite lookup_insert_ne by done.
      destruct (b !! accountId tx); [done|]. by rewrite lookup_insert_ne.
Qed.

Lemma filter_none {A} (P : A -> Prop) `{!forall x, Decision (P x)} (l : list A) :
  ~ Exists P l -> filter P l = [].
Proof.
  induction l as [|x l IH]; intros Hno; [done|].
  rewrite filter_cons. destruct (decide (P x)) as [Hx|Hx].
  - exfalso. apply Hno. by left.
  - apply IH. intros He. apply Hno. by right.
Qed.

Lemma row_step b tx a :
  ~ (isCompleted tx = true /\ accountId tx = a) ->
  balanceStep b tx !! a = b !! a.
Proof.
  intros H. unfold balanceStep. destruct (isCompleted tx) eqn:Hc; cbn [negb]; [|done].
  assert (accountId tx <> a) by (intros ?; apply H; done).
  rewrite lookup_insert_ne by done.
  destruct (b !! accountId tx); [done|]. by rewrite lookup_insert_ne.
Qed.

(** The entry of a pair after the loop: the rounds of the pair, one after
    the other, on what the entry held before. *)
Lemma entry_foldl (txs : list Transaction) b a c :
  entry (foldl balanceStep b txs) a c =
    if decide (Exists (settles a c) txs)
    then Some (foldl applyTx (default Number.zero (entry b a c))
                     (filter (settles a c) txs))
    else entry b a c.
Proof.
  revert b. induction txs as [|tx txs IH]; intros b.
  - cbn. rewrite decide_False; [done|]. by intros ?%Exists_nil.
  - cbn [foldl]. rewrite IH, entry_step. rewrite filter_cons.
    destruct (decide (settles a c tx)) as [Htx|Htx].
    + rewrite (decide_True (P := Exists _ (tx :: txs))) by (by left).
      cbn [foldl from_option Datatypes.id].
      destruct (decide (Exists (settles a c) txs)); [done|].
      by rewrite (filter_none (settles a c) txs).
    + destruct (decide (Exists (settles a c) txs)) as [He|He].
      * by rewrite decide_True by (by right).
      * rewrite decide_False; [done|]. by intros [?|?]%Exists_cons.
Qed.

Lemma init_rows (accs : list Account) b a :
  foldl (fun b0 account => <[acc_id account := ∅]> b0) b accs !! a =
    if decide (a ∈ acc_id <$> accs) then Some ∅ else b !! a.
Proof.
  revert b. induction accs as [|x accs IH]; intros b.
  - cbn. rewrite decide_False; [done|]. apply not_elem_of_nil.
  - cbn [foldl]. rewrite IH, fmap_cons.
    destruct (decide (a ∈ acc_id <$> accs)) as [Hin|Hin].
    + rewrite decide_True; [done|]. by right.
    + destruct (decide (a = acc_id x)) as [->|Hne].
      * rewrite decide_True by (by left). by rewrite lookup_insert_eq.
      * rewrite decide_False by (by intros [?|?]%elem_of_cons).
        by rewrite lookup_insert_ne.
Qed.

Lemma rows_foldl (txs : list Transaction) b a :
  (forall tx, tx ∈ txs -> accountId tx = a -> isCompleted tx = false) ->
  foldl balanceStep b txs !! a = b !! a.
Proof.
  revert b. induction txs as [|tx txs IH]; intros b Hp; [done|].
  cbn [foldl]. rewrite IH.
  - apply row_step. intros [Hc Ha]. rewrite (Hp tx) in Hc; [done|by left|done].
  - intros tx' Htx'. apply Hp. by right.
Qed.

Lemma pending_ignored (txs : list Transaction) b :
  foldl balanceStep b txs
  = foldl balanceStep b (filter (fun tx => isCompleted tx = true) txs).
Proof.
  revert b. induction txs as [|tx txs IH]; intros b; [done|].
  rewrite filter_cons. destruct (decide (isCompleted tx = true)) as [Hc|Hc].
  - cbn [foldl]. apply IH.
  - cbn [foldl]. rewrite balanceStep_pending by (by destruct (isCompleted tx)).
    apply IH.
Qed.

(** The entries of the balances that the loop builds from the rows of the
    accounts. *)
Lemma balancesOf_entry (accs : list Account) (txs : list Transaction) a c :
  entry (balancesOf accs txs) a c =
    if decide (Exists (settles a c) txs)
    then Some (runningTotal a c txs) else None.
Proof.
  unfold balancesOf, runningTotal.
  set (b0 := foldl _ ∅ accs).
  assert (Hb0 : entry b0 a c = None).
  { unfold entry. subst b0. rewrite init_rows.
    destruct (decide (a ∈ acc_id <$> accs)); cbn; by rewrite lookup_empty. }
  rewrite entry_foldl, Hb0. done.
Qed.

(** C3, as the code has it, for account ids and currency codes that are
    own keys of the accumulator. Every defined entry [balances[a][c]] is
    the running total of the pair: from 0, each completed income of account
    [a] in currency [c] added and each completed expense subtracted, one
    after the other in the order in which the store lists them, each step
    rounded as the arithmetic of [number] rounds (and a total that has come
    to zero or [NaN] is set to 0 before the next step). The entry is defined
    exactly when such a completed transaction exists, so reading a missing
    entry as 0 the equation holds for every account and currency. Pending
    transactions play no part: the balances are those of the completed
    transactions alone. An account of the accounts store without completed
    transactions has the empty row. *)
Theorem getAccountBalances_running_totals (w : World) :
  let txs := getAll (transactions w) in
  let accs := getAll (accounts w) in
  ownKeys accs txs = true ->
  exists balances,
    fst (getAccountBalances w) = Some balances /\
    (forall a c, Exists (settles a c) txs ->
       entry balances a c = Some (runningTotal a c txs)) /\
    (forall a c, ~ Exists (settles a c) txs -> entry balances a c = None) /\
    (forall a c,
       default Number.zero (entry balances a c) = runningTotal a c txs) /\
    balances = balancesOf accs (filter (fun tx => isCompleted tx = true) txs) /\
    (forall acc, acc ∈ accs ->
       (forall tx, tx ∈ txs -> accountId tx = acc_id acc ->
          isCompleted tx = false) ->
       balances !! acc_id acc = Some ∅).
Proof.
  cbv zeta. intros Hown. unfold getAccountBalances. step_monad.
  rewrite Hown. eexists. split; [reflexivity|].
  set (txs := getAll (transactions w)). set (accs := getAll (accounts w)).
  split_and!.
  - intros a c He. by rewrite balancesOf_entry, decide_True.
  - intros a c He. by rewrite balancesOf_entry, decide_False.
  - intros a c. rewrite balancesOf_entry.
    destruct (decide (Exists (settles a c) txs)) as [He|He]; [done|].
    cbn. unfold runningTotal. by rewrite filter_none.
  - apply pending_ignored.
  - intros acc Hacc Hp. unfold balancesOf. rewrite rows_foldl by done.
    rewrite init_rows, decide_True; [done|]. by apply list_elem_of_fmap_2.
Qed.

End BalanceFacts.

Section TransferFacts.

Variable clock : nat -> string.

Lemma forEach_guarded {A} (P : A -> Prop) `{!forall x, Decision (P x)}
    (f : A -> World -> World) (l : list A) (w : World) :
  forEach l (fun x => if decide (P x) then ret tt else modify (f x)) w =
    (tt, foldl (fun v x => f x v) w (filter (fun x => ~ P x) l)).
Proof.
  revert w. induction l as [|x l IH]; intros w; [done|].
  rewrite forEach_cons, IH, filter_cons.
  destruct (decide (P x)) as [Hx|Hx].
  - by rewrite decide_False by (intros Hn; by apply Hn).
  - by rewrite decide_True.
Qed.

Lemma foldl_putCategory (l : list Category) (w : World) :
  foldl (fun v c => set_categories (insert (cat_id c) c) v) w l =
    set_categories (fun m => foldl (put cat_id) m l) w.
Proof. revert w. induction l as [|c l IH]; intros w; [by destruct w|]. cbn. by rewrite IH. Qed.

Lemma foldl_putAccount (l : list Account) (w : World) :
  foldl (fun v a => set_accounts (insert (acc_id a) a) v) w l =
    set_accounts (fun m => foldl (put acc_id) m l) w.
Proof. revert w. induction l as [|a l IH]; intros w; [by destruct w|]. cbn. by rewrite IH. Qed.

Lemma foldl_putTransaction (l : list Transaction) (w : World) :
  foldl (fun v tx => set_transactions (insert (id tx) tx) v) w l =
    set_transactions (fun m => foldl (put id) m l) w.
Proof. revert w. induction l as [|a l IH]; intros w; [by destruct w|]. cbn. by rewrite IH. Qed.

Lemma catKey_same (c c' : Category) : catKey c' = catKey c <-> sameCategory c c'.
Proof.
  unfold catKey, sameCategory, typeName. split.
  - destruct (cat_type c), (cat_type c'); cbn; intros H; by simplify_eq.
  - intros [-> ->]. done.
Qed.

Lemma catKey_known (e : World) (c : Category) :
  catKey c ∈ (list_to_set (catKey <$> getAll (categories e)) : gset string)
  <-> knownCategory e c.
Proof.
  rewrite elem_of_list_to_set, list_elem_of_fmap. unfold knownCategory.
  rewrite Exists_exists. split.
  - intros [c' [Hk Hin]]. exists c'. split; [done|]. by apply catKey_same.
  - intros [c' [Hin Hs]]. exists c'. split; [|done]. symmetry. by apply catKey_same.
Qed.

Lemma accName_known (e : World) (a : Account) :
  acc_name a ∈ (list_to_set (acc_name <$> getAll (accounts e)) : gset string)
  <-> knownAccount e a.
Proof.
  rewrite elem_of_list_to_set, list_elem_of_fmap. unfold knownAccount.
  rewrite Exists_exists. split.
  - intros [a' [Hk Hin]]. exists a'. done.
  - intros [a' [Hin Hs]]. exists a'. done.
Qed.

Lemma txId_known (e : World) (tx : Transaction) :
  id tx ∈ (list_to_set (id <$> getAll (transactions e)) : gset string)
  <-> knownTransaction e tx.
Proof.
  rewrite elem_of_list_to_set, list_elem_of_fmap. unfold knownTransaction.
  rewrite Exists_exists. split.
  - intros [a' [Hk Hin]]. exists a'. done.
  - intros [a' [Hin Hs]]. exists a'. done.
Qed.

(** The three loops of the import, one store after the other. *)
Lemma handleImportData_eq (data : ExportData) (e : World) :
  handleImportData (Some data) e =
    (tt, withRecords
           (filter (fun c => ~ knownCategory e c) (ex_categories data))
           (filter (fun a => ~ knownAccount e a) (ex_accounts data))
           (filter (fun tx => ~ knownTransaction e tx) (ex_transactions data))
           e).
Proof.
  unfold handleImportData, putCategory, putAccount, putTransaction.
  unfold bind at 1, gets at 1. unfold bind at 1.
  rewrite forEach_guarded, foldl_putCategory.
  unfold bind at 1, gets at 1. unfold bind at 1.
  rewrite forEach_guarded, foldl_putAccount.
  unfold bind at 1, gets at 1.
  rewrite forEach_guarded, foldl_putTransaction.
  unfold withRecords, set_categories, set_accounts, set_transactions.
  cbn [transactions categories accounts settings uuid_calls clock_reads].
  f_equal. f_equal.
  - apply (f_equal (foldl (put id) (transactions e))).
    apply list_filter_iff. intros tx. by rewrite txId_known.
  - apply (f_equal (foldl (put cat_id) (categories e))).
    apply list_filter_iff. intros c. by rewrite catKey_known.
  - apply (f_equal (foldl (put acc_id) (accounts e))).
    apply list_filter_iff. intros a. by rewrite accName_known.
Qed.

Lemma handleExportData_eq (w : World) :
  handleExportData clock w =
    ({| version := 1; exportedAt := clock (clock_reads w);
        ex_transactions := getAll (transactions w);
        ex_categories := getAll (categories w);
        ex_accounts := getAll (accounts w);
        ex_settings := settings w |},
     mkWorld (transactions w) (categories w) (accounts w) (settings w)
             (uuid_calls w) (S (S (clock_reads w)))).
Proof. reflexivity. Qed.

Lemma unknown_in_empty (e : World) :
  transactions e = ∅ -> categories e = ∅ -> accounts e = ∅ ->
  (forall tx, ~ knownTransaction e tx) /\ (forall c, ~ knownCategory e c) /\
  (forall a, ~ knownAccount e a).
Proof.
  intros Ht Hc Ha. unfold knownTransaction, knownCategory, knownAccount.
  rewrite Ht, Hc, Ha, !getAll_empty. split_and!; intros ? ?%Exists_nil; done.
Qed.

(** C8. The file has version 1 and holds the three stores as listed by
    [getAll], and the settings. Importing it writes, store by store, exactly
    the records the target does not know yet (a category by type and name, an
    account by name, a transaction by id): such a record is stored as it is,
    under its own id, and the slot of a record that is known is left as it
    was. The settings of the target are not touched. Into a target whose
    three stores are empty this rebuilds the exported stores record for
    record. *)
Theorem export_import_round_trip (w e : World) :
  keyed_by id (transactions w) ->
  keyed_by cat_id (categories w) ->
  keyed_by acc_id (accounts w) ->
  let data := fst (handleExportData clock w) in
  let w' := snd (handleImportData (Some data) e) in
  version data = 1 /\
  ex_transactions data = getAll (transactions w) /\
  ex_categories data = getAll (categories w) /\
  ex_accounts data = getAll (accounts w) /\
  ex_settings data = settings w /\
  (forall tx, tx ∈ ex_transactions data ->
     if decide (knownTransaction e tx)
     then transactions w' !! id tx = transactions e !! id tx
     else transactions w' !! id tx = Some tx) /\
  (forall c, c ∈ ex_categories data ->
     if decide (knownCategory e c)
     then categories w' !! cat_id c = categories e !! cat_id c
     else categories w' !! cat_id c = Some c) /\
  (forall a, a ∈ ex_accounts data ->
     if decide (knownAccount e a)
     then accounts w' !! acc_id a = accounts e !! acc_id a
     else accounts w' !! acc_id a = Some a) /\
  settings w' = settings e /\
  (transactions e = ∅ -> categories e = ∅ -> accounts e = ∅ ->
   transactions w' = transactions w /\
   categories w' = categories w /\
   accounts w' = accounts w).
Proof.
  intros Kt Kc Ka. cbv zeta. rewrite handleExportData_eq. cbn [fst].
  rewrite handleImportData_eq.
  cbn [snd version ex_transactions ex_categories ex_accounts ex_settings].
  unfold withRecords. cbn [transactions categories accounts settings].
  split_and!; try done.
  - intros tx Htx. destruct (decide (knownTransaction e tx)) as [Hk|Hk].
    + apply (merge_out id); [by apply getAll_NoDup|done|]. by intros Hn.
    + apply (merge_in id); [by apply getAll_NoDup|done|done].
  - intros c Hc. destruct (decide (knownCategory e c)) as [Hk|Hk].
    + apply (merge_out cat_id); [by apply getAll_NoDup|done|]. by intros Hn.
    + apply (merge_in cat_id); [by apply getAll_NoDup|done|done].
  - intros a Ha. destruct (decide (knownAccount e a)) as [Hk|Hk].
    + apply (merge_out acc_id); [by apply getAll_NoDup|done|]. by intros Hn.
    + apply (merge_in acc_id); [by apply getAll_NoDup|done|done].
  - intros Ht Hc Ha.
    destruct (unknown_in_empty e Ht Hc Ha) as (Ut & Uc & Ua).
    rewrite !filter_all by auto. rewrite Ht, Hc, Ha.
    by rewrite !foldl_put_getAll.
Qed.

End TransferFacts.

(** ** Calendar arithmetic *)

Ltac zdiv := Z.to_euclidean_division_equations; lia.

(** Case analysis on a month number between 0 and 11 and on the leap year,
    with the month table evaluated. *)
Ltac table :=
  unfold JSDate.DaysInMonth in *;
  repeat match goal with
         | |- context [JSDate.monthStart ?k ?b] =>
             let v := eval vm_compute in (JSDate.monthStart k b) in
             change (JSDate.monthStart k b) with v
         | |- context [JSDate.monthLength ?k ?b] =>
             let v := eval vm_compute in (JSDate.monthLength k b) in
             change (JSDate.monthLength k b) with v
         | H : context [JSDate.monthStart ?k ?b] |- _ =>
             let v := eval vm_compute in (JSDate.monthStart k b) in
             change (JSDate.monthStart k b) with v in H
         | H : context [JSDate.monthLength ?k ?b] |- _ =>
             let v := eval vm_compute in (JSDate.monthLength k b) in
             change (JSDate.monthLength k b) with v in H
         end;
  cbv [JSDate.leapDay JSDate.DaysInYear] in *; cbv iota in *.

Ltac months mn y :=
  assert (mn = 0 \/ mn = 1 \/ mn = 2 \/ mn = 3 \/ mn = 4 \/ mn = 5 \/ mn = 6 \/
          mn = 7 \/ mn = 8 \/ mn = 9 \/ mn = 10 \/ mn = 11) as Hmonths by lia;
  repeat (destruct Hmonths as [->|Hmonths]); [..|subst mn];
  unfold JSDate.DaysInMonth, JSDate.DaysInYear in *; destruct (JSDate.InLeapYear y); table.

Section CalendarFacts.

Import JSDate.

Lemma DayFromYear_succ y : DayFromYear (y + 1) = DayFromYear y + DaysInYear y.
Proof.
  unfold DayFromYear, DaysInYear, InLeapYear.
  repeat match goal with
         | |- context [?a =? ?b] => destruct (Z.eqb_spec a b); cbn [negb]
         end; zdiv.
Qed.

Lemma YearFromDay_spec d :
  DayFromYear (YearFromDay d) <= d < DayFromYear (YearFromDay d + 1).
Proof.
  unfold YearFromDay. cbv zeta.
  repeat match goal with
         | |- context [?a <=? ?b] => destruct (Z.leb_spec a b)
         end; unfold DayFromYear in *; zdiv.
Qed.

Lemma DayFromYear_mono a b : a <= b -> DayFromYear a <= DayFromYear b.
Proof. unfold DayFromYear. intros. zdiv. Qed.

Lemma YearFromDay_unique d y :
  DayFromYear y <= d < DayFromYear (y + 1) -> YearFromDay d = y.
Proof.
  intros Hd. pose proof (YearFromDay_spec d) as Hs.
  destruct (Z.lt_trichotomy (YearFromDay d) y) as [Hlt|[Heq|Hgt]]; [|exact Heq|].
  - pose proof (DayFromYear_mono (YearFromDay d + 1) y ltac:(lia)). lia.
  - pose proof (DayFromYear_mono (y + 1) (YearFromDay d) ltac:(lia)). lia.
Qed.

Lemma DayWithinYear_range d : 0 <= DayWithinYear d < DaysInYear (YearFromDay d).
Proof.
  unfold DayWithinYear. pose proof (YearFromDay_spec d) as Hs.
  rewrite DayFromYear_succ in Hs. lia.
Qed.

Lemma monthStart_next y mn :
  0 <= mn <= 10 ->
  monthStart (mn + 1) (InLeapYear y) = monthStart mn (InLeapYear y) + DaysInMonth y mn.
Proof. intros Hmn. months mn y; lia. Qed.

Lemma monthStart_last y :
  monthStart 11 (InLeapYear y) + DaysInMonth y 11 = DaysInYear y.
Proof. unfold DaysInMonth, DaysInYear. destruct (InLeapYear y); table; lia. Qed.

Lemma DaysInMonth_range y mn : 28 <= DaysInMonth y mn <= 31.
Proof.
  unfold DaysInMonth, monthLength, leapDay.
  destruct (mn =? 1); [destruct (InLeapYear y); lia|].
  destruct ((mn =? 3) || (mn =? 5) || (mn =? 8) || (mn =? 10)); lia.
Qed.

Lemma MakeDay_month y mn dt :
  0 <= mn <= 11 ->
  MakeDay y mn dt = DayFromYear y + monthStart mn (InLeapYear y) + dt - 1.
Proof.
  intros Hmn. unfold MakeDay. cbv zeta.
  rewrite (Z.div_small mn 12), (Z.mod_small mn 12) by lia.
  by rewrite Z.add_0_r.
Qed.

(** A day of a month read back from its day number. *)
Lemma civil_of_MakeDay y mn dt :
  0 <= mn <= 11 -> 1 <= dt <= DaysInMonth y mn ->
  YearFromDay (MakeDay y mn dt) = y /\
  MonthFromDay (MakeDay y mn dt) = mn /\
  DateFromDay (MakeDay y mn dt) = dt.
Proof.
  intros Hmn Hdt. rewrite MakeDay_month by done.
  set (D := DayFromYear y + monthStart mn (InLeapYear y) + dt - 1).
  assert (Hin : 0 <= monthStart mn (InLeapYear y) + dt - 1 < DaysInYear y).
  { clear D. months mn y; lia. }
  assert (Hy : YearFromDay D = y).
  { apply YearFromDay_unique. rewrite DayFromYear_succ. subst D. lia. }
  assert (Hw : DayWithinYear D = monthStart mn (InLeapYear y) + dt - 1).
  { unfold DayWithinYear. rewrite Hy. subst D. lia. }
  assert (Hm : MonthFromDay D = mn).
  { unfold MonthFromDay. cbv zeta. rewrite Hw, Hy. clear Hw Hy Hin D.
    months mn y;
      repeat match goal with
             | |- context [?a <? ?b] => destruct (Z.ltb_spec a b); try lia
             end. }
  split_and!; [done|done|].
  unfold DateFromDay. rewrite Hw, Hm, Hy. lia.
Qed.

Lemma Day_MakeDate d t :
  0 <= t < msPerDay -> Day (MakeDate d t) = d /\ TimeWithinDay (MakeDate d t) = t.
Proof. unfold Day, TimeWithinDay, MakeDate, msPerDay. intros Ht. split; zdiv. Qed.

Lemma MonthFromDay_range n : 0 <= MonthFromDay n <= 11.
Proof.
  unfold MonthFromDay. cbv zeta.
  repeat match goal with
         | |- context [?a <? ?b] => destruct (a <? b)
         end; lia.
Qed.

(** Every day number is a day of a month, and the right one. *)
Lemma DateFromDay_range n :
  1 <= DateFromDay n <= DaysInMonth (YearFromDay n) (MonthFromDay n).
Proof.
  pose proof (DayWithinYear_range n) as Hw.
  unfold DateFromDay, MonthFromDay, DaysInMonth, DaysInYear in *. cbv zeta.
  destruct (InLeapYear (YearFromDay n)); cbv [leapDay] in *;
    repeat match goal with
           | |- context [?a <? ?b] => destruct (Z.ltb_spec a b)
           end; table; lia.
Qed.

Lemma MakeDay_of_civil n :
  MakeDay (YearFromDay n) (MonthFromDay n) (DateFromDay n) = n.
Proof.
  rewrite MakeDay_month by apply MonthFromDay_range.
  unfold DateFromDay, DayWithinYear. lia.
Qed.



Lemma dateOfDay_dayNumber (d : IsoDate) : valid_date d -> dateOfDay (dayNumber d) = d.
Proof.
  intros [Hm Hd]. unfold dateOfDay, dayNumber.
  destruct (civil_of_MakeDay (iso_year d) (iso_month d - 1) (iso_day d))
    as (-> & -> & ->); [lia|done|].
  destruct d; cbn. f_equal. lia.
Qed.

Lemma dayNumber_dateOfDay n : dayNumber (dateOfDay n) = n.
Proof.
  unfold dayNumber, dateOfDay. cbn [iso_year iso_month iso_day].
  replace (MonthFromDay n + 1 - 1) with (MonthFromDay n) by lia.
  apply MakeDay_of_civil.
Qed.

Lemma valid_dateOfDay n : valid_date (dateOfDay n).
Proof.
  unfold valid_date, dateOfDay. cbn [iso_year iso_month iso_day].
  pose proof (MonthFromDay_range n). pose proof (DateFromDay_range n).
  replace (MonthFromDay n + 1 - 1) with (MonthFromDay n) by lia. lia.
Qed.

Lemma valid_nextDay (d : IsoDate) : valid_date d -> valid_date (nextDay d).
Proof.
  intros [Hm Hd]. unfold nextDay, valid_date.
  destruct (Z.ltb_spec (iso_day d) (DaysInMonth (iso_year d) (iso_month d - 1)));
    [cbn; lia|].
  destruct (Z.ltb_spec (iso_month d) 12); cbn.
  - pose proof (DaysInMonth_range (iso_year d) (iso_month d + 1 - 1)). lia.
  - pose proof (DaysInMonth_range (iso_year d + 1) (1 - 1)). lia.
Qed.

Lemma dayNumber_nextDay (d : IsoDate) :
  valid_date d -> dayNumber (nextDay d) = dayNumber d + 1.
Proof.
  intros [Hm Hd]. unfold nextDay, dayNumber.
  destruct (Z.ltb_spec (iso_day d) (DaysInMonth (iso_year d) (iso_month d - 1)));
    [cbn; rewrite !MakeDay_month by lia; lia|].
  destruct (Z.ltb_spec (iso_month d) 12); cbn.
  - rewrite !MakeDay_month by lia.
    replace (iso_month d + 1 - 1) with (iso_month d - 1 + 1) by lia.
    rewrite monthStart_next by lia. lia.
  - assert (Hm12 : iso_month d = 12) by lia. rewrite Hm12 in *.
    rewrite !MakeDay_month by lia. rewrite DayFromYear_succ.
    pose proof (monthStart_last (iso_year d)).
    change (12 - 1) with 11 in *. change (1 - 1) with 0.
    change (monthStart 0 (InLeapYear (iso_year d + 1))) with 0. lia.
Qed.

(** One day on is the next day of the calendar; days add up. *)
Lemma plusDays_one (d : IsoDate) : valid_date d -> plusDays d 1 = nextDay d.
Proof.
  intros Hv. unfold plusDays. rewrite <- dayNumber_nextDay by done.
  apply dateOfDay_dayNumber. by apply valid_nextDay.
Qed.

Lemma plusDays_zero (d : IsoDate) : valid_date d -> plusDays d 0 = d.
Proof. intros Hv. unfold plusDays. rewrite Z.add_0_r. by apply dateOfDay_dayNumber. Qed.

Lemma plusDays_plusDays (d : IsoDate) a b :
  plusDays (plusDays d a) b = plusDays d (a + b).
Proof. unfold plusDays. rewrite dayNumber_dateOfDay. f_equal. lia. Qed.

(** Day [dt <= 31] of month [mn] of year [y] in the calendar: that day when
    the month has it, else as many days into the next month as [dt] exceeds
    the length of the month. *)
Lemma dateOfDay_MakeDay y mn dt :
  0 <= mn <= 11 -> 1 <= dt <= 31 ->
  dateOfDay (MakeDay y mn dt) =
    if dt <=? DaysInMonth y mn then mkIsoDate y (mn + 1) dt
    else mkIsoDate y (mn + 2) (dt - DaysInMonth y mn).
Proof.
  intros Hmn Hdt. pose proof (DaysInMonth_range y mn) as Hlen.
  destruct (Z.leb_spec dt (DaysInMonth y mn)) as [Hfit|Hover].
  - unfold dateOfDay.
    by destruct (civil_of_MakeDay y mn dt) as (-> & -> & ->); [done|lia|].
  - assert (Hm10 : 0 <= mn <= 10).
    { destruct (Z.eq_dec mn 11) as [->|]; [|lia].
      exfalso. clear -Hover Hdt. unfold DaysInMonth in Hover.
      change (monthLength 11 (InLeapYear y)) with 31 in Hover. lia. }
    assert (Hnext : DaysInMonth y (mn + 1) = 31).
    { clear -Hm10 Hover Hdt. months mn y; lia. }
    replace (MakeDay y mn dt) with (MakeDay y (mn + 1) (dt - DaysInMonth y mn))
      by (rewrite !MakeDay_month by lia; rewrite monthStart_next by done; lia).
    unfold dateOfDay.
    destruct (civil_of_MakeDay y (mn + 1) (dt - DaysInMonth y mn))
      as (-> & -> & ->); [lia|lia|]. f_equal. lia.
Qed.

(** Months and years after a date, in calendar terms. *)
Lemma plusMonths_calendar (d : IsoDate) k :
  valid_date d ->
  let m := iso_month d - 1 + k in
  plusMonths d k =
    dateOfDay (MakeDay (iso_year d + m / 12) (m mod 12) (iso_day d)) /\
  plusMonths d k =
    if iso_day d <=? DaysInMonth (iso_year d + m / 12) (m mod 12)
    then mkIsoDate (iso_year d + m / 12) (m mod 12 + 1) (iso_day d)
    else mkIsoDate (iso_year d + m / 12) (m mod 12 + 2)
           (iso_day d - DaysInMonth (iso_year d + m / 12) (m mod 12)).
Proof.
  intros [Hm Hd]. cbv zeta.
  set (m := iso_month d - 1 + k).
  pose proof (Z.mod_pos_bound m 12 ltac:(lia)) as Hmod.
  pose proof (DaysInMonth_range (iso_year d) (iso_month d - 1)) as Hlen.
  assert (Heq : plusMonths d k
                = dateOfDay (MakeDay (iso_year d + m / 12) (m mod 12) (iso_day d))).
  { unfold plusMonths. fold m. f_equal. unfold MakeDay. cbv zeta.
    rewrite (Z.div_small (m mod 12) 12), Z.mod_mod by lia.
    by rewrite Z.add_0_r. }
  split; [exact Heq|]. rewrite Heq. apply dateOfDay_MakeDay; lia.
Qed.

Lemma plusYears_calendar (d : IsoDate) k :
  valid_date d ->
  plusYears d k =
    if iso_day d <=? DaysInMonth (iso_year d + k) (iso_month d - 1)
    then mkIsoDate (iso_year d + k) (iso_month d) (iso_day d)
    else mkIsoDate (iso_year d + k) (iso_month d + 1)
           (iso_day d - DaysInMonth (iso_year d + k) (iso_month d - 1)).
Proof.
  intros [Hm Hd]. unfold plusYears.
  pose proof (DaysInMonth_range (iso_year d) (iso_month d - 1)) as Hlen.
  rewrite dateOfDay_MakeDay by lia.
  destruct (iso_day d <=? DaysInMonth (iso_year d + k) (iso_month d - 1));
    f_equal; lia.
Qed.

End CalendarFacts.

(** ** Local time east of Greenwich

    When the offset at a UTC midnight lies in [0, msPerDay) that midnight
    falls on the same calendar day in local time, so the local getters and
    setters act on the date that was parsed. *)

Section EastFacts.

Import JSDate.

Variable LocalTZA : Z -> bool -> Z.
Variable dayOverflow : bool.

Lemma local_midnight D :
  0 <= LocalTZA (MakeDate D 0) true < msPerDay ->
  Day (LocalTime LocalTZA (MakeDate D 0)) = D /\
  TimeWithinDay (LocalTime LocalTZA (MakeDate D 0))
  = LocalTZA (MakeDate D 0) true.
Proof.
  intros Ho.
  replace (LocalTime LocalTZA (MakeDate D 0))
    with (MakeDate D (LocalTZA (MakeDate D 0) true))
    by (unfold LocalTime, fixedOffset, MakeDate; lia).
  by apply Day_MakeDate.
Qed.

Lemma east_getters D :
  0 <= LocalTZA (MakeDate D 0) true < msPerDay ->
  getFullYear LocalTZA (MakeDate D 0) = YearFromDay D /\
  getMonth LocalTZA (MakeDate D 0) = MonthFromDay D /\
  getDate LocalTZA (MakeDate D 0) = DateFromDay D.
Proof.
  intros Ho.
  unfold getFullYear, getMonth, getDate, YearFromTime, MonthFromTime, DateFromTime.
  by rewrite (proj1 (local_midnight D Ho)).
Qed.




Lemma toISODate_midnight D : toISODate (MakeDate D 0) = dateOfDay D.
Proof.
  unfold toISODate, dateOfDay, YearFromTime, MonthFromTime, DateFromTime.
  by rewrite (proj1 (Day_MakeDate D 0 ltac:(unfold msPerDay; lia))).
Qed.

Lemma parseDate_fields (d : IsoDate) :
  valid_date d ->
  YearFromDay (dayNumber d) = iso_year d /\
  MonthFromDay (dayNumber d) = iso_month d - 1 /\
  DateFromDay (dayNumber d) = iso_day d.
Proof. intros [Hm Hd]. apply civil_of_MakeDay; [lia|done]. Qed.

(** Every parser reads a date of the calendar as its UTC midnight. *)
Lemma parseDate_valid (d : IsoDate) :
  valid_date d -> parseDate dayOverflow d = Some (midnightUTC d).
Proof.
  intros [Hm Hd]. unfold parseDate. cbv zeta.
  rewrite bool_decide_eq_true_2; [done|].
  pose proof (DaysInMonth_range (iso_year d) (iso_month d - 1)).
  destruct dayOverflow; lia.
Qed.

(** A date that parses has its month in 1..12 and its day in 1..31. *)
Lemma parseDate_Some (d : IsoDate) (t : Z) :
  parseDate dayOverflow d = Some t ->
  t = midnightUTC d /\ 1 <= iso_month d <= 12 /\ 1 <= iso_day d <= 31.
Proof.
  unfold parseDate. cbv zeta. case_bool_decide as H; [|done].
  intros [= <-]. split; [done|].
  pose proof (DaysInMonth_range (iso_year d) (iso_month d - 1)).
  destruct dayOverflow; lia.
Qed.

(** The month query reads the month off the date string. *)
Lemma inMonth_east year month (tx : Transaction) :
  valid_date (date tx) ->
  0 <= LocalTZA (midnightUTC (date tx)) true < msPerDay ->
  inMonth LocalTZA dayOverflow year month tx = true <->
  iso_year (date tx) = year /\ iso_month (date tx) - 1 = month.
Proof.
  intros Hv Ho. unfold inMonth. rewrite parseDate_valid by done.
  change (midnightUTC (date tx)) with (MakeDate (dayNumber (date tx)) 0) in *.
  destruct (east_getters (dayNumber (date tx)) Ho) as (-> & -> & _).
  destruct (parseDate_fields _ Hv) as (-> & -> & _).
  rewrite andb_true_iff, !Z.eqb_eq. done.
Qed.

Lemma midnightUTC_dayNumber (d : IsoDate) :
  midnightUTC d = MakeDate (dayNumber d) 0.
Proof. reflexivity. Qed.



End EastFacts.

Section InstallmentDates.

Variable LocalTZA : Z -> bool -> Z.
Variable dayOverflow : bool.
Variable uuidv4 : nat -> string.
Variable clock : nat -> string.



End InstallmentDates.

(** ** The date of a regenerated fixed bill, zone by zone

    The clone is built at local midnight of the target month, on the day of
    the month that the local getter reads off the source date, clamped to
    the length of the month; it is then printed in UTC. *)

Section FixedDateFacts.

Import JSDate.

(** A zone that keeps the offset [tz]. *)
Variable tz : Z.

Local Abbreviation LocalTZA := (fixedOffset tz).

Lemma MakeDay_overflow y mn dt :
  0 <= mn <= 10 ->
  MakeDay y mn dt = MakeDay y (mn + 1) (dt - DaysInMonth y mn).
Proof.
  intros Hmn. rewrite !MakeDay_month by lia. rewrite monthStart_next by done. lia.
Qed.

Lemma fromLocal_full_year year month dt :
  ~ (0 <= year <= 99) ->
  fromLocal LocalTZA year month dt = UTC LocalTZA (MakeDate (MakeDay year month dt) 0).
Proof.
  intros Hy. unfold fromLocal.
  replace ((0 <=? year) && (year <=? 99)) with false; [done|].
  symmetry. apply andb_false_iff.
  destruct (Z.leb_spec 0 year); [right|by left]. apply Z.leb_gt. lia.
Qed.

(** Getters and setters at a local midnight, in any zone. *)
Lemma midnight_local D :
  Day (LocalTime LocalTZA (UTC LocalTZA (MakeDate D 0))) = D /\
  TimeWithinDay (LocalTime LocalTZA (UTC LocalTZA (MakeDate D 0))) = 0.
Proof.
  replace (LocalTime LocalTZA (UTC LocalTZA (MakeDate D 0))) with (MakeDate D 0)
    by (unfold LocalTime, UTC, fixedOffset; lia).
  apply Day_MakeDate. unfold msPerDay. lia.
Qed.

Lemma midnight_getMonth D :
  getMonth LocalTZA (UTC LocalTZA (MakeDate D 0)) = MonthFromDay D.
Proof. unfold getMonth, MonthFromTime. by rewrite (proj1 (midnight_local D)). Qed.

Lemma midnight_setDate D dt :
  setDate LocalTZA (UTC LocalTZA (MakeDate D 0)) dt =
    UTC LocalTZA (MakeDate (MakeDay (YearFromDay D) (MonthFromDay D) dt) 0).
Proof.
  unfold setDate, YearFromTime, MonthFromTime. cbv zeta.
  by destruct (midnight_local D) as [-> ->].
Qed.

Lemma midnight_setMonth D m :
  setMonth LocalTZA (UTC LocalTZA (MakeDate D 0)) m =
    UTC LocalTZA (MakeDate (MakeDay (YearFromDay D) m (DateFromDay D)) 0).
Proof.
  unfold setMonth, YearFromTime, DateFromTime. cbv zeta.
  by destruct (midnight_local D) as [-> ->].
Qed.

(** Lines 83-92 of [fixedTransactions.ts]: local midnight of the clamped
    day, whatever the zone. *)
Lemma fixedTime_local year month (tx : Transaction) :
  0 <= month <= 11 ->
  ~ (0 <= year <= 99) ->
  fixedTime LocalTZA year month (midnightUTC (date tx)) =
    UTC LocalTZA
      (MakeDate (dayNumber (clampedDate year month
                              (getDate LocalTZA (midnightUTC (date tx))))) 0).
Proof.
  intros Hmonth Hyear. unfold fixedTime. cbv zeta.
  set (dt := getDate LocalTZA (midnightUTC (date tx))).
  assert (Hdt : 1 <= dt <= 31).
  { subst dt. unfold getDate, DateFromTime.
    set (n := Day _). pose proof (DateFromDay_range n).
    pose proof (DaysInMonth_range (YearFromDay n) (MonthFromDay n)). lia. }
  rewrite fromLocal_full_year by done. rewrite midnight_getMonth.
  unfold clampedDate, dayNumber. cbn [iso_year iso_month iso_day].
  replace (month + 1 - 1) with month by lia.
  destruct (Z.le_gt_cases dt (DaysInMonth year month)) as [Hfit|Hover].
  - destruct (civil_of_MakeDay year month dt) as (Hy & Hm & Hd); [done|lia|].
    rewrite Hm, Z.eqb_refl. cbn [negb]. by rewrite Z.min_l.
  - pose proof (DaysInMonth_range year month) as Hlen.
    assert (Hm10 : 0 <= month <= 10).
    { destruct (Z.eq_dec month 11) as [->|]; [|lia].
      exfalso. clear -Hover Hdt. unfold DaysInMonth in Hover.
      change (monthLength 11 (InLeapYear year)) with 31 in Hover. lia. }
    assert (Hnext : DaysInMonth year (month + 1) = 31).
    { clear -Hm10 Hover Hdt. months month year; lia. }
    assert (Hlast : MakeDay year (month + 1) 0
                    = MakeDay year month (DaysInMonth year month)).
    { rewrite (MakeDay_overflow year month) by done. f_equal. lia. }
    rewrite (MakeDay_overflow year month dt) by done.
    destruct (civil_of_MakeDay year (month + 1) (dt - DaysInMonth year month))
      as (Hy & Hm & Hd); [lia|lia|].
    rewrite Hm.
    replace (month + 1 =? month) with false by (symmetry; apply Z.eqb_neq; lia).
    cbn [negb].
    rewrite midnight_setDate, Hy, Hm, Hlast.
    destruct (civil_of_MakeDay year month (DaysInMonth year month))
      as (Hy1 & Hm1 & Hd1); [done|lia|].
    rewrite midnight_setMonth, Hy1, Hd1.
    destruct (civil_of_MakeDay year (month + 1) (DaysInMonth year month))
      as (Hy2 & Hm2 & Hd2); [lia|lia|].
    rewrite midnight_setDate, Hy2, Hm2, Hlast.
    by rewrite Z.min_r by lia.
Qed.

Lemma valid_clampedDate year month dt :
  0 <= month <= 11 -> 1 <= dt -> valid_date (clampedDate year month dt).
Proof.
  intros Hm Hdt. unfold valid_date, clampedDate. cbn [iso_year iso_month iso_day].
  replace (month + 1 - 1) with month by lia.
  pose proof (DaysInMonth_range year month). lia.
Qed.

End FixedDateFacts.

Section FixedDateZones.

Import JSDate.

Variable dayOverflow : bool.

Lemma utc_east t : 0 <= fixedOffset 0 t true < msPerDay.
Proof. unfold fixedOffset, msPerDay. lia. Qed.

(** In UTC the clone has the day of the month of its source, clamped. *)
Lemma fixedTime_utc year month (tx : Transaction) :
  valid_date (date tx) ->
  0 <= month <= 11 ->
  ~ (0 <= year <= 99) ->
  toISODate (fixedTime (fixedOffset 0) year month (midnightUTC (date tx)))
  = clampedDate year month (iso_day (date tx)).
Proof.
  intros Hv Hmonth Hyear. rewrite fixedTime_local by done.
  change (midnightUTC (date tx)) with (MakeDate (dayNumber (date tx)) 0).
  destruct (east_getters (fixedOffset 0) (dayNumber (date tx)) (utc_east _)) as (_ & _ & ->).
  destruct (parseDate_fields _ Hv) as (_ & _ & ->).
  replace (UTC (fixedOffset 0) (MakeDate (dayNumber (clampedDate year month (iso_day (date tx)))) 0))
    with (MakeDate (dayNumber (clampedDate year month (iso_day (date tx)))) 0)
    by (unfold UTC, fixedOffset; lia).
  rewrite toISODate_midnight. apply dateOfDay_dayNumber.
  apply valid_clampedDate; [done|]. destruct Hv as [_ Hd]. lia.
Qed.

(** East of UTC the clone is dated one day before that. *)
Lemma fixedTime_east tz year month (tx : Transaction) :
  0 < tz < msPerDay ->
  valid_date (date tx) ->
  0 <= month <= 11 ->
  ~ (0 <= year <= 99) ->
  toISODate (fixedTime (fixedOffset tz) year month (midnightUTC (date tx)))
  = plusDays (clampedDate year month (iso_day (date tx))) (-1).
Proof.
  intros Htz Hv Hmonth Hyear. rewrite fixedTime_local by done.
  change (midnightUTC (date tx)) with (MakeDate (dayNumber (date tx)) 0).
  destruct (east_getters (fixedOffset tz) (dayNumber (date tx)) ltac:(unfold fixedOffset; lia)) as (_ & _ & ->).
  destruct (parseDate_fields _ Hv) as (_ & _ & ->).
  set (D := dayNumber (clampedDate year month (iso_day (date tx)))).
  unfold plusDays. fold D.
  replace (UTC (fixedOffset tz) (MakeDate D 0)) with (MakeDate (D + -1) (msPerDay - tz))
    by (unfold UTC, fixedOffset, MakeDate; lia).
  unfold toISODate, dateOfDay, YearFromTime, MonthFromTime, DateFromTime.
  by rewrite (proj1 (Day_MakeDate (D + -1) (msPerDay - tz) ltac:(lia))).
Qed.

(** West of UTC the day of the month is that of the eve of the source. *)
Lemma fixedTime_west tz year month (tx : Transaction) :
  - msPerDay < tz < 0 ->
  0 <= month <= 11 ->
  ~ (0 <= year <= 99) ->
  toISODate (fixedTime (fixedOffset tz) year month (midnightUTC (date tx)))
  = clampedDate year month (iso_day (plusDays (date tx) (-1))).
Proof.
  intros Htz Hmonth Hyear. rewrite fixedTime_local by done.
  assert (Hg : getDate (fixedOffset tz) (midnightUTC (date tx))
               = iso_day (plusDays (date tx) (-1))).
  { unfold getDate, DateFromTime, plusDays, dateOfDay. cbn [iso_day].
    change (midnightUTC (date tx)) with (MakeDate (dayNumber (date tx)) 0).
    replace (LocalTime (fixedOffset tz) (MakeDate (dayNumber (date tx)) 0))
      with (MakeDate (dayNumber (date tx) + -1) (msPerDay + tz))
      by (unfold LocalTime, fixedOffset, MakeDate; lia).
    by rewrite (proj1 (Day_MakeDate _ (msPerDay + tz) ltac:(lia))). }
  rewrite Hg.
  set (c := clampedDate year month (iso_day (plusDays (date tx) (-1)))).
  replace (UTC (fixedOffset tz) (MakeDate (dayNumber c) 0)) with (MakeDate (dayNumber c) (- tz))
    by (unfold UTC, fixedOffset, MakeDate; lia).
  unfold toISODate, YearFromTime, MonthFromTime, DateFromTime.
  rewrite (proj1 (Day_MakeDate (dayNumber c) (- tz) ltac:(lia))).
  apply (dateOfDay_dayNumber c). subst c. apply valid_clampedDate; [done|].
  pose proof (valid_dateOfDay (dayNumber (date tx) + -1)) as [_ Hd].
  unfold plusDays. lia.
Qed.

(** West of UTC the month query files a transaction under the month of the
    eve of its date. *)
Lemma inMonth_west tz year month (tx : Transaction) :
  - msPerDay <= tz < 0 ->
  valid_date (date tx) ->
  inMonth (fixedOffset tz) dayOverflow year month tx = true <->
  iso_year (plusDays (date tx) (-1)) = year /\
  iso_month (plusDays (date tx) (-1)) - 1 = month.
Proof.
  intros Htz Hv. unfold inMonth. rewrite (parseDate_valid dayOverflow) by done.
  unfold getFullYear, getMonth, YearFromTime, MonthFromTime.
  change (midnightUTC (date tx)) with (MakeDate (dayNumber (date tx)) 0).
  replace (LocalTime (fixedOffset tz) (MakeDate (dayNumber (date tx)) 0))
    with (MakeDate (dayNumber (date tx) + -1) (msPerDay + tz))
    by (unfold LocalTime, fixedOffset, MakeDate; lia).
  rewrite (proj1 (Day_MakeDate _ (msPerDay + tz) ltac:(lia))).
  unfold plusDays, dateOfDay. cbn [iso_year iso_month].
  rewrite andb_true_iff, !Z.eqb_eq. split; intros [? ?]; split; lia.
Qed.

(** West of UTC the monthly and yearly installments are counted from the
    eve of the base date and then moved one day on. *)
Lemma installmentTime_west tz (p : Period) (cd : option Z) (base : IsoDate) (i : Z) :
  - msPerDay <= tz < 0 ->
  p = monthly \/ p = yearly ->
  toISODate (installmentTime (fixedOffset tz) p cd (midnightUTC base) i)
  = plusDays (advance p (customStep cd) (plusDays base (-1)) i) 1.
Proof.
  intros Htz Hp.
  change (midnightUTC base) with (MakeDate (dayNumber base) 0).
  set (E := dayNumber base + -1).
  assert (Hlt : LocalTime (fixedOffset tz) (MakeDate (dayNumber base) 0)
                = MakeDate E (msPerDay + tz))
    by (subst E; unfold LocalTime, fixedOffset, MakeDate; lia).
  destruct (Day_MakeDate E (msPerDay + tz) ltac:(lia)) as [Hday Htime].
  assert (Hback : forall X, toISODate (UTC (fixedOffset tz) (MakeDate X (msPerDay + tz)))
                            = dateOfDay (X + 1)).
  { intros X.
    replace (UTC (fixedOffset tz) (MakeDate X (msPerDay + tz))) with (MakeDate (X + 1) 0)
      by (unfold UTC, fixedOffset, MakeDate; lia).
    apply toISODate_midnight. }
  assert (Heve : plusDays base (-1) = dateOfDay E) by done.
  destruct Hp as [-> | ->].
  - unfold installmentTime, advance, plusMonths. rewrite Heve.
    unfold plusDays. rewrite dayNumber_dateOfDay.
    unfold setMonth, getMonth, YearFromTime, MonthFromTime, DateFromTime.
    rewrite Hlt, Hday, Htime, Hback.
    unfold dateOfDay at 2 3 4. cbn [iso_year iso_month iso_day].
    by replace (MonthFromDay E + 1 - 1 + i) with (MonthFromDay E + i) by lia.
  - unfold installmentTime, advance, plusYears. rewrite Heve.
    unfold plusDays. rewrite dayNumber_dateOfDay.
    unfold setFullYear, getFullYear, YearFromTime, MonthFromTime, DateFromTime.
    rewrite Hlt, Hday, Htime, Hback.
    unfold dateOfDay at 2 3 4. cbn [iso_year iso_month iso_day].
    by replace (MonthFromDay E + 1 - 1) with (MonthFromDay E) by lia.
Qed.

End FixedDateZones.

(** ** What the generator clones *)

Section CloneFacts.

Variable LocalTZA : Z -> bool -> Z.
Variable dayOverflow : bool.
Variable uuidv4 : nat -> string.
Variable clock : nat -> string.

Lemma previousMonth_january year : previousMonth year 0 = (year - 1, 11).
Proof. reflexivity. Qed.

Lemma previousMonth_later year month :
  1 <= month -> previousMonth year month = (year, month - 1).
Proof.
  intros Hm. unfold previousMonth. cbv zeta.
  by destruct (Z.ltb_spec (month - 1) 0); [lia|].
Qed.

(** Steps 2-7 on an unprocessed month: the sources are the fixed
    transactions that the month query returns for the previous month, and
    one clone per source is written. *)
Lemma generate_clones year month w :
  fst (isMonthProcessed year month w) = false ->
  let srcs := fixedSources LocalTZA dayOverflow year month w in
  let (n, w') :=
    generateFixedTransactionsForMonth LocalTZA dayOverflow uuidv4 clock
      year month w in
  n = returned (Z.of_nat (length srcs)) /\
  transactions w' =
    foldl (put id) (transactions w)
      (fixedClones LocalTZA dayOverflow uuidv4 clock year month srcs
         (uuid_calls w) (clock_reads w)).
Proof.
  intros Hp. cbv zeta. rewrite generate_unprocessed by done.
  split; [done|].
  by destruct (markMonthAsProcessed_stores clock year month
                 (withClones LocalTZA dayOverflow uuidv4 clock year month
                    (fixedSources LocalTZA dayOverflow year month w) w))
    as (-> & _).
Qed.

(** Where the offset at the midnight of its date lies at or east of UTC, a
    transaction is a source exactly when it is fixed and dated in the
    previous calendar month. *)
Lemma fixedSources_east year month w (tx : Transaction) :
  0 <= LocalTZA (midnightUTC (date tx)) true < JSDate.msPerDay ->
  valid_date (date tx) ->
  tx ∈ fixedSources LocalTZA dayOverflow year month w <->
    tx ∈ getAll (transactions w) /\ isFixed tx = true /\
    iso_year (date tx) = fst (previousMonth year month) /\
    iso_month (date tx) - 1 = snd (previousMonth year month).
Proof.
  intros Heast Hv. unfold fixedSources, getFixedTransactionsFromMonth,
    getTransactionsByMonth. step_monad.
  rewrite !list_elem_of_filter, (inMonth_east LocalTZA dayOverflow) by done.
  tauto.
Qed.

End CloneFacts.

(** ** The order of a store under writes *)

Section OrderFacts.

Context {R : Type}.

Implicit Types (m : gmap string R).

(** Two stores with related records under the same keys list them in the
    same order. *)
Lemma entries_related m m' (Rel : R -> R -> Prop) :
  (forall k, option_Forall2 Rel (m !! k) (m' !! k)) ->
  Forall2 (fun kr kr' => kr.1 = kr'.1 /\ Rel kr.2 kr'.2)
          (entries m) (entries m').
Proof.
  intros Hrel.
  set (g := fun kr : string * R => (kr.1, default kr.2 (m' !! kr.1))).
  assert (Heq : g <$> entries m = entries m').
  { apply entries_unique.
    - assert (Hgen : forall l, StronglySorted keyLe l ->
                StronglySorted keyLe (g <$> l)).
      { induction 1 as [|x l Hs IH Hx]; [constructor|].
        rewrite fmap_cons. constructor; [done|].
        rewrite Forall_fmap. eapply Forall_impl; [exact Hx|]. by intros []. }
      apply Hgen, entries_sorted.
    - rewrite <- list_fmap_compose.
      erewrite list_fmap_ext; [apply entries_NoDup_keys|]. by intros ? [].
    - intros k r'. rewrite list_elem_of_fmap. split.
      + intros [[k0 r] [[= -> ->] Hin]]. apply elem_of_entries in Hin.
        specialize (Hrel k0). rewrite Hin in Hrel. cbn.
        destruct (m' !! k0); [done|]. inversion Hrel.
      + intros Hk. specialize (Hrel k). rewrite Hk in Hrel.
        destruct (m !! k) as [r|] eqn:Hm; [|inversion Hrel].
        exists (k, r). split; [|by apply elem_of_entries].
        subst g. cbn. by rewrite Hk. }
  rewrite <- Heq. apply Forall2_fmap_r, Forall_Forall2_diag, Forall_forall.
  intros [k r] Hin. apply elem_of_entries in Hin. cbn. split; [done|].
  specialize (Hrel k). rewrite Hin in Hrel.
  destruct (m' !! k); inversion Hrel; by subst.
Qed.

Lemma getAll_related m m' (Rel : R -> R -> Prop) :
  (forall k, option_Forall2 Rel (m !! k) (m' !! k)) ->
  Forall2 Rel (getAll m) (getAll m').
Proof.
  intros Hrel. unfold getAll. apply Forall2_fmap.
  eapply Forall2_impl; [by apply entries_related|]. by intros ? ? [_ ?].
Qed.

(** A part of a store is listed in the order of the whole. *)
Lemma getAll_sub m m' :
  m' ⊆ m ->
  getAll m' = (filter (fun kr => is_Some (m' !! kr.1)) (entries m)).*2.
Proof. intros Hsub. unfold getAll. by rewrite (entries_sub m m'). Qed.

(** What passes a test in the whole store and lies in the part is what
    passes the test in the part. *)
Lemma filter_getAll_sub m m' (P : R -> Prop) `{!forall r, Decision (P r)} :
  m' ⊆ m ->
  (forall k r, m !! k = Some r -> P r -> m' !! k = Some r) ->
  filter P (getAll m') = filter P (getAll m).
Proof.
  intros Hsub Hall. rewrite (getAll_sub m m') by done. unfold getAll.
  assert (Hgen : forall es : list (string * R),
            (forall k r, (k, r) ∈ es -> m !! k = Some r) ->
            filter P (filter (fun kr => is_Some (m' !! kr.1)) es).*2
            = filter P es.*2).
  { induction es as [|[k r] es IH]; intros Hes; [done|].
    rewrite filter_cons. cbn [fst fmap list_fmap snd].
    assert (Hrest : forall k0 r0, (k0, r0) ∈ es -> m !! k0 = Some r0)
      by (intros ? ? ?; apply Hes; by right).
    destruct (decide (is_Some (m' !! k))) as [Hk|Hk].
    - rewrite fmap_cons. cbn [snd]. rewrite !filter_cons.
      destruct (decide (P r)); by rewrite IH.
    - rewrite filter_cons. destruct (decide (P r)) as [HP|HP]; [|by apply IH].
      exfalso. apply Hk. rewrite (Hall k r); [eauto| |done].
      apply Hes. by left. }
  apply Hgen. intros k r. apply elem_of_entries.
Qed.

End OrderFacts.

(** ** Loops that rewrite the transactions in place *)

Section RewriteLoop.

Variable clock : nat -> string.
Variable P : Transaction -> Prop.
Context `{!forall tx, Decision (P tx)}.
Variable f : Transaction -> string -> Transaction.
Hypothesis f_id : forall tx now, id (f tx now) = id tx.

Local Abbreviation body :=
  (fun tx : Transaction =>
     if decide (P tx)
     then do now <- nowISO clock; putTransaction (f tx now)
     else ret tt).

Lemma rewriteBody_eq tx w :
  body tx w =
    (tt, if decide (P tx)
         then mkWorld (put id (transactions w) (f tx (clock (clock_reads w))))
                      (categories w) (accounts w) (settings w) (uuid_calls w)
                      (S (clock_reads w))
         else w).
Proof. cbv beta. destruct (decide (P tx)); reflexivity. Qed.

Lemma forEach_rewrite (l : list Transaction) (w : World) :
  NoDup (id <$> l) ->
  let w' := snd (forEach l body w) in
  categories w' = categories w /\ accounts w' = accounts w /\
  settings w' = settings w /\ uuid_calls w' = uuid_calls w /\
  (clock_reads w <= clock_reads w')%nat /\
  (forall k, k ∉ id <$> l -> transactions w' !! k = transactions w !! k) /\
  (forall tx, tx ∈ l -> ~ P tx ->
     transactions w' !! id tx = transactions w !! id tx) /\
  (forall tx, tx ∈ l -> P tx ->
     exists j, (clock_reads w <= j < clock_reads w')%nat /\
       transactions w' !! id tx = Some (f tx (clock j))).
Proof.
  revert w. induction l as [|x l IH]; intros w Hnd.
  - cbn. split_and!; try done; try lia; intros tx Htx; by apply elem_of_nil in Htx.
  - rewrite fmap_cons, NoDup_cons in Hnd. destruct Hnd as [Hx Hnd].
    rewrite forEach_cons, rewriteBody_eq. cbn [snd].
    set (wx := if decide (P x) then _ else w).
    destruct (IH wx Hnd) as (Hc & Ha & Hs & Hu & Hclk & Hout & Hkeep & Hmove).
    assert (Hwx : categories wx = categories w /\ accounts wx = accounts w /\
                  settings wx = settings w /\ uuid_calls wx = uuid_calls w /\
                  (clock_reads w <= clock_reads wx)%nat /\
                  (forall k, k <> id x ->
                     transactions wx !! k = transactions w !! k)).
    { subst wx. destruct (decide (P x)); cbn; split_and!; try done; try lia.
      intros k Hk. unfold put. rewrite f_id. by rewrite lookup_insert_ne. }
    destruct Hwx as (Hc' & Ha' & Hs' & Hu' & Hclk' & Hother).
    cbv zeta. split_and!; try congruence; try lia.
    + intros k Hk. rewrite fmap_cons, not_elem_of_cons in Hk.
      destruct Hk as [Hkx Hk]. rewrite Hout by done. by apply Hother.
    + intros tx Htx HP. apply elem_of_cons in Htx as [->|Htx].
      * rewrite Hout by done. subst wx. by rewrite decide_False.
      * rewrite Hkeep by done. apply Hother. intros Heq. apply Hx.
        rewrite <- Heq. by apply list_elem_of_fmap_2.
    + intros tx Htx HP. apply elem_of_cons in Htx as [->|Htx].
      * exists (clock_reads w). rewrite Hout by done. subst wx.
        rewrite decide_True in * by done. cbn in *. split; [lia|].
        unfold put. rewrite f_id. by rewrite lookup_insert_eq.
      * destruct (Hmove tx Htx HP) as [j [Hj Hlk]]. exists j. split; [lia|done].
Qed.

(** Slot by slot: a record that passes [P] is rewritten with a clock
    reading of the loop, every other slot is as before. *)
Lemma forEach_rewrite_slots (w : World) :
  keyed_by id (transactions w) ->
  let w' := snd (forEach (getAll (transactions w)) body w) in
  forall k,
    match transactions w !! k with
    | Some tx =>
        if decide (P tx)
        then exists j, (clock_reads w <= j < clock_reads w')%nat /\
               transactions w' !! k = Some (f tx (clock j))
        else transactions w' !! k = Some tx
    | None => transactions w' !! k = None
    end.
Proof.
  intros Hkey.
  destruct (forEach_rewrite (getAll (transactions w)) w (getAll_NoDup id _ Hkey))
    as (_ & _ & _ & _ & _ & Hout & Hkeep & Hmove).
  cbv zeta. intros k. destruct (transactions w !! k) as [tx|] eqn:Hk.
  - assert (id tx = k) as <- by exact (Hkey k tx Hk).
    assert (Hin : tx ∈ getAll (transactions w)) by (apply getAll_elem; eauto).
    destruct (decide (P tx)) as [HP|HP].
    + by apply Hmove.
    + rewrite Hkeep by done. done.
  - rewrite Hout; [done|].
    rewrite (getAll_key_elem id) by done. rewrite Hk. by intros [? ?].
Qed.

(** The same, as a relation between the records under each key. *)
Lemma forEach_rewrite_related (w : World) :
  keyed_by id (transactions w) ->
  let w' := snd (forEach (getAll (transactions w)) body w) in
  forall k,
    option_Forall2
      (fun tx tx' => if decide (P tx) then exists now, tx' = f tx now
                     else tx' = tx)
      (transactions w !! k) (transactions w' !! k).
Proof.
  intros Hkey. pose proof (forEach_rewrite_slots w Hkey) as Hslots.
  cbv zeta in *. intros k. specialize (Hslots k).
  destruct (transactions w !! k) as [tx|].
  - destruct (decide (P tx)) as [HP|HP] eqn:Hd.
    + destruct Hslots as [j [_ ->]]. constructor. rewrite Hd. eauto.
    + rewrite Hslots. constructor. by rewrite Hd.
  - rewrite Hslots. constructor.
Qed.


End RewriteLoop.

(** ** Balances read off the ledger *)

Section LedgerFacts.

Implicit Types (txs : list Transaction) (w : World).

Lemma ledger_cons tx txs :
  ledger (tx :: txs)
  = if isCompleted tx then ledgerLine tx :: ledger txs else ledger txs.
Proof.
  unfold ledger. rewrite filter_cons.
  destruct (isCompleted tx); [by rewrite decide_True|by rewrite decide_False].
Qed.

Lemma ownKeys_ledger (accs : list Account) txs :
  ownKeys accs txs = ownLines (acc_id <$> accs) (ledger txs).
Proof.
  unfold ownKeys, ownLines. f_equal.
  - induction accs as [|x accs IH]; [done|]. cbn. by rewrite IH.
  - induction txs as [|tx txs IH]; [done|].
    rewrite ledger_cons. cbn [forallb]. rewrite IH.
    destruct (isCompleted tx); cbn; [|done]. done.
Qed.

Lemma runningTotal_ledger a c txs :
  runningTotal a c txs = lineTotal a c (ledger txs).
Proof.
  unfold runningTotal, lineTotal. generalize Number.zero as z.
  induction txs as [|tx txs IH]; intros z; [done|].
  rewrite ledger_cons, filter_cons.
  destruct (decide (settles a c tx)) as [(Hc & Ha & Hcu)|Hn].
  - rewrite Hc, filter_cons, decide_True by done. cbn [foldl]. by rewrite IH.
  - destruct (isCompleted tx) eqn:Hc; [|by apply IH].
    rewrite filter_cons, decide_False; [by apply IH|].
    cbn. intros [? ?]. by apply Hn.
Qed.

(** The balance of a pair is its running total over the store. *)
Lemma balance_eq w a c :
  balance w a c =
    if ownKeys (getAll (accounts w)) (getAll (transactions w))
    then runningTotal a c (getAll (transactions w))
    else Number.zero.
Proof.
  unfold balance, getAccountBalances. step_monad.
  destruct (ownKeys _ _); [|done]. cbn [mbind option_bind].
  rewrite balancesOf_entry.
  destruct (decide (Exists (settles a c) (getAll (transactions w))));
    [done|].
  cbn. unfold runningTotal. by rewrite filter_none.
Qed.

(** Two worlds with the same account ids and the same ledger have the same
    balances. *)
Lemma balance_ledger w w' :
  acc_id <$> getAll (accounts w') = acc_id <$> getAll (accounts w) ->
  ledger (getAll (transactions w')) = ledger (getAll (transactions w)) ->
  forall a c, balance w' a c = balance w a c.
Proof.
  intros Ha Hl a c.
  by rewrite !balance_eq, !ownKeys_ledger, !runningTotal_ledger, Ha, Hl.
Qed.



(** Pending records, added or removed, leave the ledger as it was. *)
Lemma ledger_sub (m m' : gmap string Transaction) :
  m' ⊆ m ->
  (forall k tx, m !! k = Some tx -> m' !! k = None -> isCompleted tx = false) ->
  ledger (getAll m') = ledger (getAll m).
Proof.
  intros Hsub Hpending. unfold ledger. f_equal.
  apply filter_getAll_sub; [done|]. intros k tx Hk Hc.
  destruct (m' !! k) as [tx'|] eqn:Hk'.
  - eapply lookup_weaken in Hk'; [|done]. congruence.
  - rewrite (Hpending k tx Hk Hk') in Hc. done.
Qed.

(** The running total over related lists. *)
Lemma runningTotalOf_related (P Q : Transaction -> Prop)
    `{!forall tx, Decision (P tx)} `{!forall tx, Decision (Q tx)}
    (Rel : Transaction -> Transaction -> Prop) txs txs' :
  (forall tx tx', Rel tx tx' ->
     (P tx <-> Q tx') /\ type tx' = type tx /\ value tx' = value tx) ->
  Forall2 Rel txs txs' ->
  runningTotalOf Q txs' = runningTotalOf P txs.
Proof.
  intros HRel. unfold runningTotalOf. generalize Number.zero as z.
  intros z Hall. revert z.
  induction Hall as [|tx tx' txs txs' Hr _ IH]; intros z; [done|].
  destruct (HRel _ _ Hr) as (HPQ & Hty & Hv).
  rewrite !filter_cons.
  destruct (decide (P tx)) as [HP|HP].
  - rewrite decide_True by (by apply HPQ). cbn [foldl].
    rewrite IH. f_equal. unfold applyTx. by rewrite Hty, Hv.
  - rewrite decide_False by (by rewrite <- HPQ). apply IH.
Qed.

End LedgerFacts.

(** ** Deleting an account *)

Section AccountFacts.

Variable clock : nat -> string.

Lemma deleteAccount_eq aid moveToId w :
  deleteAccount clock aid moveToId w =
    (tt, set_accounts (delete aid)
           (snd (forEach (getAll (transactions w))
                   (fun tx =>
                      if decide (accountId tx = aid)
                      then do now <- nowISO clock;
                           putTransaction (retargetAccount tx moveToId now)
                      else ret tt) w))).
Proof.
  unfold deleteAccount. step_monad.
  by destruct (forEach _ _ w) as [[] w'].
Qed.

Lemma deleteAccount_slots aid moveToId w :
  keyed_by id (transactions w) ->
  let w' := snd (deleteAccount clock aid moveToId w) in
  forall k,
    match transactions w !! k with
    | Some tx =>
        if decide (accountId tx = aid)
        then exists j, (clock_reads w <= j < clock_reads w')%nat /\
               transactions w' !! k = Some (retargetAccount tx moveToId (clock j))
        else transactions w' !! k = Some tx
    | None => transactions w' !! k = None
    end.
Proof.
  intros Hkey. rewrite deleteAccount_eq. cbn [snd].
  exact (forEach_rewrite_slots clock (fun tx => accountId tx = aid)
           (fun tx now => retargetAccount tx moveToId now)
           (fun _ _ => eq_refl) w Hkey).
Qed.

Lemma deleteAccount_rest aid moveToId w :
  let w' := snd (deleteAccount clock aid moveToId w) in
  accounts w' = delete aid (accounts w) /\ categories w' = categories w /\
  settings w' = settings w /\ uuid_calls w' = uuid_calls w.
Proof.
  rewrite deleteAccount_eq. cbn [snd].
  assert (H : forall l v,
    let v' := snd (forEach l (fun tx =>
                      if decide (accountId tx = aid)
                      then do now <- nowISO clock;
                           putTransaction (retargetAccount tx moveToId now)
                      else ret tt) v) in
    accounts v' = accounts v /\ categories v' = categories v /\
    settings v' = settings v /\ uuid_calls v' = uuid_calls v).
  { induction l as [|x l IH]; intros v; [done|].
    rewrite forEach_cons. cbv beta zeta.
    match goal with |- context [forEach l _ ?v0] => set (v1 := v0) end.
    assert (Hv1 : accounts v1 = accounts v /\ categories v1 = categories v /\
                  settings v1 = settings v /\ uuid_calls v1 = uuid_calls v).
    { subst v1. destruct (decide (accountId x = aid)); cbv [bind nowISO putTransaction modify set_transactions ret]; cbn; done. }
    destruct Hv1 as (<- & <- & <- & <-). apply IH. }
  destruct (H (getAll (transactions w)) w) as (Ha & Hc & Hs & Hu).
  cbv zeta. unfold set_accounts. cbn. by rewrite Ha.
Qed.

(** X11. [deleteAccount] with a substitute other than the account deleted,
    on a store keyed by id: afterwards no transaction names the deleted
    account; each transaction that named it is the same record with
    [accountId] set to the substitute and [updatedAt] set to a clock
    reading taken during the call, category and value unchanged; every
    other transaction is untouched, none appears or disappears; the
    account record is gone, categories and settings are as before. *)
Theorem deleteAccount_moves accA accB w :
  accA <> accB ->
  keyed_by id (transactions w) ->
  let w' := snd (deleteAccount clock accA accB w) in
  (forall k tx, transactions w' !! k = Some tx -> accountId tx <> accA) /\
  (forall k tx, transactions w !! k = Some tx -> accountId tx = accA ->
     exists j tx', (clock_reads w <= j < clock_reads w')%nat /\
       transactions w' !! k = Some tx' /\
       tx' = retargetAccount tx accB (clock j) /\
       accountId tx' = accB /\ categoryId tx' = categoryId tx /\
       value tx' = value tx /\ updatedAt tx' = clock j) /\
  (forall k tx, transactions w !! k = Some tx -> accountId tx <> accA ->
     transactions w' !! k = Some tx) /\
  (forall k, transactions w !! k = None -> transactions w' !! k = None) /\
  accounts w' = delete accA (accounts w) /\
  accounts w' !! accA = None /\
  categories w' = categories w /\ settings w' = settings w.
Proof.
  intros Hne Hkey.
  pose proof (deleteAccount_slots accA accB w Hkey) as Hslots.
  destruct (deleteAccount_rest accA accB w) as (Ha & Hc & Hs & _).
  cbv zeta in *. set (w' := snd (deleteAccount clock accA accB w)) in *.
  split_and!; try done.
  - intros k tx Hk Hacc. specialize (Hslots k).
    destruct (transactions w !! k) as [tx0|]; [|congruence].
    destruct (decide (accountId tx0 = accA)) as [Heq|Hneq].
    + destruct Hslots as [j [_ Hj]]. rewrite Hj in Hk. injection Hk as <-.
      cbn in Hacc. congruence.
    + rewrite Hslots in Hk. congruence.
  - intros k tx Hk Hacc. specialize (Hslots k). rewrite Hk in Hslots.
    rewrite decide_True in Hslots by done. destruct Hslots as [j [Hj Hlk]].
    exists j, (retargetAccount tx accB (clock j)). done.
  - intros k tx Hk Hacc. specialize (Hslots k). rewrite Hk in Hslots.
    by rewrite decide_False in Hslots.
  - intros k Hk. specialize (Hslots k). by rewrite Hk in Hslots.
  - rewrite Ha. apply lookup_delete_eq.
Qed.

(** X12. [deleteAccount a a]: the account record is deleted while every
    transaction that named [a] still names it, so these transactions
    point at an account that no longer exists; the other transactions are
    untouched. *)
Theorem deleteAccount_same_target_dangles acc w :
  keyed_by id (transactions w) ->
  let w' := snd (deleteAccount clock acc acc w) in
  accounts w' !! acc = None /\
  (forall k tx, transactions w !! k = Some tx -> accountId tx = acc ->
     exists tx', transactions w' !! k = Some tx' /\ accountId tx' = acc) /\
  (forall k tx, transactions w !! k = Some tx -> accountId tx <> acc ->
     transactions w' !! k = Some tx).
Proof.
  intros Hkey.
  pose proof (deleteAccount_slots acc acc w Hkey) as Hslots.
  destruct (deleteAccount_rest acc acc w) as (Ha & _).
  cbv zeta in *. split_and!.
  - rewrite Ha. apply lookup_delete_eq.
  - intros k tx Hk Hacc. specialize (Hslots k). rewrite Hk in Hslots.
    rewrite decide_True in Hslots by done. destruct Hslots as [j [_ Hlk]].
    eexists. split; [exact Hlk|done].
  - intros k tx Hk Hacc. specialize (Hslots k). rewrite Hk in Hslots.
    by rewrite decide_False in Hslots.
Qed.

Lemma runningTotalOf_none txs :
  runningTotalOf (fun _ => False) txs = Number.zero.
Proof.
  unfold runningTotalOf. rewrite filter_none; [done|].
  by intros [? [_ ?]]%Exists_exists.
Qed.

(** X13. Deleting an account moves its money. After [deleteAccount a b] with
    [a <> b], on a store keyed by id, for account ids and currency codes
    that are own keys of the accumulator before and after the call: in
    every currency the balance of [b] is the running total, in the order of
    the store, over the completed transactions that named [a] or [b]; the
    balance of [a] is 0; and the balance of every other account is as
    before, a missing entry of [getAccountBalances] read as 0. *)
Theorem deleteAccount_merges_balances accA accB w :
  accA <> accB ->
  keyed_by id (transactions w) ->
  let w' := snd (deleteAccount clock accA accB w) in
  ownKeys (getAll (accounts w)) (getAll (transactions w)) = true ->
  ownKeys (getAll (accounts w')) (getAll (transactions w')) = true ->
  forall c,
    balance w' accB c
    = runningTotalOf (settlesEither accA accB c) (getAll (transactions w)) /\
    balance w' accA c = Number.zero /\
    (forall d, d <> accA -> d <> accB -> balance w' d c = balance w d c).
Proof.
  intros Hne Hkey. cbv zeta. intros Hown Hown' c.
  rewrite !balance_eq, Hown'.
  assert (Hrel : Forall2
            (fun tx tx' =>
               if decide (accountId tx = accA)
               then exists now, tx' = retargetAccount tx accB now
               else tx' = tx)
            (getAll (transactions w))
            (getAll (transactions (snd (deleteAccount clock accA accB w))))).
  { apply getAll_related. intros k. rewrite deleteAccount_eq. cbn [snd].
    unfold set_accounts. cbn [transactions].
    exact (forEach_rewrite_related clock (fun tx => accountId tx = accA)
             (fun tx now => retargetAccount tx accB now)
             (fun _ _ => eq_refl) w Hkey k). }
  split_and!.
  - unfold runningTotal.
    eapply (runningTotalOf_related (settlesEither accA accB c) (settles accB c));
      [|exact Hrel].
    intros tx tx' H. cbv beta in H. unfold settlesEither, settles.
    destruct (decide (accountId tx = accA)) as [Ha|Ha].
    + destruct H as [now ->]. cbn. split_and!; try done. split.
      * intros (? & _ & ?). done.
      * intros (? & _ & ?). eauto.
    + subst tx'. split_and!; try done. split.
      * intros (? & [?|?] & ?); done.
      * intros (? & ? & ?). eauto.
  - transitivity (runningTotalOf (fun _ => False) (getAll (transactions w)));
      [|apply runningTotalOf_none].
    eapply (runningTotalOf_related (fun _ => False) (settles accA c));
      [|exact Hrel].
    intros tx tx' H. cbv beta in H. unfold settles.
    destruct (decide (accountId tx = accA)) as [Ha|Ha].
    + destruct H as [now ->]. cbn. split_and!; try done. split; [done|].
      intros (_ & ? & _). by apply Hne.
    + subst tx'. split_and!; try done. split; [done|].
      intros (_ & ? & _). done.
  - intros d Hda Hdb. rewrite !balance_eq, Hown', Hown. unfold runningTotal.
    eapply (runningTotalOf_related (settles d c) (settles d c));
      [|exact Hrel].
    intros tx tx' H. cbv beta in H. unfold settles.
    destruct (decide (accountId tx = accA)) as [Ha|Ha].
    + destruct H as [now ->]. cbn. split_and!; try done. split.
      * intros (_ & ? & _). congruence.
      * intros (_ & ? & _). congruence.
    + by subst tx'.
Qed.


End AccountFacts.

(** ** Deleting a list of records *)

Section DeleteFacts.

Context {R : Type} (key : R -> string).
Implicit Types (l : list R) (m : gmap string R).

Local Abbreviation remove := (fun m (r : R) => delete (key r) m).

Lemma foldl_delete_lookup l m k :
  foldl remove m l !! k = if decide (k ∈ key <$> l) then None else m !! k.
Proof.
  revert m. induction l as [|r l IH]; intros m.
  - cbn. rewrite decide_False; [done|]. apply not_elem_of_nil.
  - cbn [foldl]. rewrite IH, fmap_cons.
    destruct (decide (k ∈ key <$> l)) as [Hin|Hin].
    + rewrite decide_True; [done|]. by right.
    + destruct (decide (k = key r)) as [->|Hne].
      * rewrite decide_True by (by left). apply lookup_delete_eq.
      * rewrite decide_False by (by intros [?|?]%elem_of_cons).
        by rewrite lookup_delete_ne.
Qed.


(** Deleting from a keyed store the records that pass a test. *)
Lemma deleteWhere_lookup (P : R -> Prop) `{!forall x, Decision (P x)} m k :
  keyed_by key m ->
  foldl remove m (filter P (getAll m)) !! k =
    match m !! k with
    | Some r => if decide (P r) then None else Some r
    | None => None
    end.
Proof.
  intros Hkey. rewrite foldl_delete_lookup.
  destruct (m !! k) as [r|] eqn:Hk.
  - assert (key r = k) as Hkr by exact (Hkey k r Hk).
    destruct (decide (P r)) as [HP|HP].
    + rewrite decide_True; [done|]. rewrite <- Hkr. apply list_elem_of_fmap_2.
      apply list_elem_of_filter. split; [done|]. apply getAll_elem. eauto.
    + rewrite decide_False; [done|].
      intros [r' [Hk' [HP' Hr']%list_elem_of_filter]]%list_elem_of_fmap.
      apply (getAll_keyed key m r' Hkey) in Hr'. rewrite <- Hk' in Hr'.
      congruence.
  - rewrite decide_False; [done|].
    intros [r' [Hk' [HP' Hr']%list_elem_of_filter]]%list_elem_of_fmap.
    apply (getAll_keyed key m r' Hkey) in Hr'. rewrite <- Hk' in Hr'.
    congruence.
Qed.


Lemma keyed_foldl_put l m :
  keyed_by key m -> keyed_by key (foldl (put key) m l).
Proof.
  revert m. induction l as [|r l IH]; intros m Hkey; [done|].
  cbn [foldl]. apply IH. unfold put. by apply map_Forall_insert_2.
Qed.

End DeleteFacts.

(** ** Editing and deleting transactions *)

Section TransactionFacts.

Variable LocalTZA : Z -> bool -> Z.
Variable dayOverflow : bool.
Variable uuidv4 : nat -> string.
Variable clock : nat -> string.

Lemma updateTransaction_eq i updates w :
  updateTransaction clock i updates w =
    match transactions w !! i with
    | None => (None, w)
    | Some existing =>
        let updated :=
          patchTransaction existing updates (clock (clock_reads w)) in
        (Some updated,
         mkWorld (<[id updated := updated]> (transactions w)) (categories w)
                 (accounts w) (settings w) (uuid_calls w) (S (clock_reads w)))
    end.
Proof.
  unfold updateTransaction. step_monad.
  by destruct (transactions w !! i).
Qed.


(** Pending records written under new ids leave the ledger as it was. *)
Lemma ledger_foldl_put (l : list Transaction) (m : gmap string Transaction) :
  NoDup (id <$> l) ->
  Forall (fun r => m !! id r = None) l ->
  (forall tx, tx ∈ l -> isCompleted tx = false) ->
  ledger (getAll (foldl (put id) m l)) = ledger (getAll m).
Proof.
  intros Hnd Hfresh Hpending. symmetry. apply ledger_sub.
  - by apply foldl_put_subseteq.
  - intros k tx Hk Hnone.
    destruct (decide (k ∈ id <$> l)) as [Hin|Hin].
    + apply list_elem_of_fmap in Hin as [r [-> Hr]].
      rewrite (foldl_put_in id) in Hk by done. injection Hk as <-.
      by apply Hpending.
    + rewrite (foldl_put_notin id) in Hk by done. congruence.
Qed.

(** Records written under new ids leave the running total of every pair
    that they do not settle as it was. *)
Lemma runningTotal_foldl_put (l : list Transaction)
    (m : gmap string Transaction) a c :
  NoDup (id <$> l) ->
  Forall (fun r => m !! id r = None) l ->
  (forall tx, tx ∈ l -> ~ settles a c tx) ->
  runningTotal a c (getAll (foldl (put id) m l)) = runningTotal a c (getAll m).
Proof.
  intros Hnd Hfresh Hother. unfold runningTotal. f_equal. symmetry.
  apply filter_getAll_sub.
  - by apply foldl_put_subseteq.
  - intros k tx Hk Hs.
    destruct (decide (k ∈ id <$> l)) as [Hin|Hin].
    + apply list_elem_of_fmap in Hin as [r [-> Hr]].
      rewrite (foldl_put_in id) in Hk by done. injection Hk as <-.
      by destruct (Hother r Hr).
    + by rewrite (foldl_put_notin id) in Hk by done.
Qed.

(** The own keys of a store are own keys of each of its parts. *)
Lemma ownKeys_sub (accs : list Account) (m m' : gmap string Transaction) :
  m' ⊆ m ->
  ownKeys accs (getAll m) = true -> ownKeys accs (getAll m') = true.
Proof.
  intros Hsub. unfold ownKeys. rewrite !andb_true_iff.
  intros [Ha Ht]. split; [done|].
  rewrite forallb_forall in Ht |- *. intros tx Htx. apply Ht.
  apply list_elem_of_In. apply list_elem_of_In in Htx.
  apply getAll_elem in Htx as [k Hk]. apply getAll_elem. exists k.
  by eapply lookup_weaken.
Qed.


(** X5. A patch that carries another id does not rename the record:
    [updateTransaction i] then stores the merged record under the new id
    and leaves the record under [i] exactly as it was, [updatedAt]
    included; when the new id was free the store holds one record more. *)
Theorem updateTransaction_rename_copies i j updates existing w :
  transactions w !! i = Some existing ->
  p_id updates = Some j ->
  j <> i ->
  let (r, w') := updateTransaction clock i updates w in
  exists updated,
    r = Some updated /\ id updated = j /\
    transactions w' !! j = Some updated /\
    transactions w' !! i = Some existing /\
    (transactions w !! j = None ->
       size (transactions w') = S (size (transactions w))).
Proof.
  intros Hi Hj Hne. rewrite updateTransaction_eq, Hi. cbv zeta.
  set (updated := patchTransaction existing updates _).
  assert (Hup : id updated = j) by (subst updated; cbn; by rewrite Hj).
  rewrite Hup. cbn [transactions]. exists updated. split_and!; try done.
  - apply lookup_insert_eq.
  - by rewrite lookup_insert_ne.
  - intros Hnone. by apply map_size_insert_None.
Qed.

Lemma forEach_delete (l : list Transaction) (w : World) :
  forEach l (fun tx => deleteTransaction (id tx)) w =
    (tt, set_transactions
           (fun m => foldl (fun m tx => delete (id tx) m) m l) w).
Proof.
  revert w. induction l as [|x l IH]; intros w; [by destruct w|].
  rewrite forEach_cons, IH. reflexivity.
Qed.

Lemma deleteRecurringTransactions_eq parent w :
  deleteRecurringTransactions parent w =
    (tt, set_transactions
           (fun m => foldl (fun m tx => delete (id tx) m) m
                       (filter (fun tx => parentRepeatId tx = Some parent)
                               (getAll m))) w).
Proof.
  unfold deleteRecurringTransactions. unfold bind at 1, gets at 1.
  by rewrite forEach_delete.
Qed.


(** X7. [deleteRecurringTransactions p] on a store keyed by id removes
    exactly the transactions whose [parentRepeatId] is [p]: a record
    found afterwards is not of the series and is the record that was
    there before, a record of the series is gone, every other record is
    as it was; categories, accounts, settings and the call counts of the
    oracles do not change. *)
Theorem deleteRecurringTransactions_removes_series parent w :
  keyed_by id (transactions w) ->
  let w' := snd (deleteRecurringTransactions parent w) in
  (forall k tx, transactions w' !! k = Some tx ->
     parentRepeatId tx <> Some parent /\ transactions w !! k = Some tx) /\
  (forall k tx, transactions w !! k = Some tx ->
     parentRepeatId tx = Some parent -> transactions w' !! k = None) /\
  (forall k tx, transactions w !! k = Some tx ->
     parentRepeatId tx <> Some parent -> transactions w' !! k = Some tx) /\
  categories w' = categories w /\ accounts w' = accounts w /\
  settings w' = settings w /\
  uuid_calls w' = uuid_calls w /\ clock_reads w' = clock_reads w.
Proof.
  intros Hkey. rewrite deleteRecurringTransactions_eq. cbn [snd].
  unfold set_transactions.
  cbn [transactions categories accounts settings uuid_calls clock_reads].
  pose proof (fun k => deleteWhere_lookup id
                (fun tx => parentRepeatId tx = Some parent)
                (transactions w) k Hkey) as Hlk.
  split_and!; try done.
  - intros k tx. rewrite Hlk. destruct (transactions w !! k) as [tx0|]; [|done].
    destruct (decide (parentRepeatId tx0 = Some parent)); [done|].
    by intros [= <-].
  - intros k tx Hk Hp. by rewrite Hlk, Hk, decide_True.
  - intros k tx Hk Hp. by rewrite Hlk, Hk, decide_False.
Qed.




(** X18. [addTransaction] under an id new to the store moves no balance but
    that of the account and currency of the draft: a pending draft moves
    none at all, and a completed one leaves the balance of every other
    pair as it was, for account ids and currency codes that are own keys
    of the accumulator. *)
Theorem addTransaction_moves_one_balance draft w :
  transactions w !! uuidv4 (uuid_calls w) = None ->
  let w' := snd (addTransaction uuidv4 clock draft w) in
  (d_isCompleted draft = false ->
   forall a c, balance w' a c = balance w a c) /\
  (ownKeys (getAll (accounts w')) (getAll (transactions w')) = true ->
   forall a c, ~ (a = d_accountId draft /\ c = d_currency draft) ->
     balance w' a c = balance w a c).
Proof.
  intros Hfresh. cbv zeta. rewrite addTransaction_eq. cbn [snd].
  set (tx := fromDraft draft _ _ _).
  assert (Hnd : NoDup (id <$> [tx])) by (apply NoDup_singleton).
  assert (Hnew : Forall (fun r => transactions w !! id r = None) [tx])
    by (by constructor).
  change (put id (transactions w) tx) with (foldl (put id) (transactions w) [tx]).
  split.
  - intros Hc. apply balance_ledger; [done|]. cbn [transactions].
    apply ledger_foldl_put; [done|done|].
    by intros tx0 ->%list_elem_of_singleton.
  - cbn [accounts transactions]. intros Hown a c Hother.
    rewrite !balance_eq. cbn [accounts transactions]. rewrite Hown.
    rewrite (ownKeys_sub _ _ (transactions w) (foldl_put_subseteq id [tx] _ Hnew) Hown).
    apply runningTotal_foldl_put; [done|done|].
    intros tx0 ->%list_elem_of_singleton (_ & Ha & Hcu). by apply Hother.
Qed.




End TransactionFacts.

(** ** First launch and reset *)

Section InitFacts.

Variable LocalTZA : Z -> bool -> Z.
Variable dayOverflow : bool.
Variable uuidv4 : nat -> string.
Variable clock : nat -> string.
Variable navigatorLanguage : string.
Variable toLowerCase : string -> string.

Local Abbreviation seeded := (seededCategories uuidv4).

Lemma seededCategories_ids now drafts c :
  cat_id <$> seeded now drafts c = uuidv4 <$> seq c (length drafts).
Proof.
  revert c. induction drafts as [|d l IH]; intros c; [done|].
  cbn. by rewrite IH.
Qed.

Lemma getAll_foldl_put_perm {R} (key : R -> string) (l : list R) :
  NoDup (key <$> l) -> getAll (foldl (put key) ∅ l) ≡ₚ l.
Proof.
  intros Hnd.
  assert (Hkey : keyed_by key (foldl (put key) ∅ l)).
  { apply keyed_foldl_put. apply map_Forall_empty. }
  apply NoDup_Permutation.
  - eapply NoDup_fmap_1. by apply (getAll_NoDup key).
  - by eapply NoDup_fmap_1.
  - intros r. split.
    + intros Hr. pose proof (getAll_keyed key _ r Hkey Hr) as Hlk.
      destruct (decide (key r ∈ key <$> l)) as [Hin|Hin].
      * apply list_elem_of_fmap in Hin as [r' [Hk Hr']].
        rewrite Hk, (foldl_put_in key) in Hlk by done.
        by injection Hlk as <-.
      * rewrite (foldl_put_notin key) in Hlk by done.
        by rewrite lookup_empty in Hlk.
    + intros Hr. apply getAll_elem. exists (key r). by apply foldl_put_in.
Qed.

(** The state that the first launch writes. *)
Lemma initializeDB_eq w :
  settings w = None ->
  initializeDB uuidv4 clock navigatorLanguage toLowerCase w =
    (let now := clock (clock_reads w) in
     (tt, mkWorld (transactions w)
            (foldl (put cat_id) (categories w)
               (seeded now (defaultIncomeCategories ++ defaultExpenseCategories)
                  (S (uuid_calls w))))
            (<[uuidv4 (uuid_calls w) := defaultAccount (uuidv4 (uuid_calls w)) now]>
               (accounts w))
            (Some (defaultSettings navigatorLanguage toLowerCase now))
            (16 + uuid_calls w)%nat (S (clock_reads w)))).
Proof.
  intros Hs. unfold initializeDB. unfold bind at 1, gets at 1.
  rewrite Hs. reflexivity.
Qed.

Lemma initializeDB_done w :
  is_Some (settings w) -> initializeDB uuidv4 clock navigatorLanguage toLowerCase w = (tt, w).
Proof.
  intros [st Hs]. unfold initializeDB. unfold bind at 1, gets at 1.
  by rewrite Hs.
Qed.

(** What the seeded category store holds when it starts empty. *)
Lemma seeded_store now c :
  NoDup (uuidv4 <$> seq c 15) ->
  let store :=
    foldl (put cat_id) ∅
      (seeded now (defaultIncomeCategories ++ defaultExpenseCategories) c) in
  keyed_by cat_id store /\
  size store = 15%nat /\
  (forall ty, exists dflt,
     filter (fun cat => cat_isDefault cat = true)
       (filter (fun cat => cat_type cat = ty) (getAll store)) = [dflt] /\
     cat_name dflt = "noCategory" /\ cat_type dflt = ty) /\
  length (filter (fun cat => cat_type cat = income) (getAll store)) = 5%nat /\
  length (filter (fun cat => cat_type cat = expense) (getAll store)) = 10%nat /\
  (forall cat, cat ∈ getAll store ->
     cat_isSystem cat = true /\ cat_createdAt cat = now /\
     cat_updatedAt cat = now).
Proof.
  intros Hnd. cbv zeta.
  set (L := seeded now (defaultIncomeCategories ++ defaultExpenseCategories) c).
  assert (Hids : cat_id <$> L = uuidv4 <$> seq c 15) by apply seededCategories_ids.
  assert (HndL : NoDup (cat_id <$> L)) by (by rewrite Hids).
  assert (Hdef : forall ty, exists dflt,
            filter (fun cat => cat_isDefault cat = true)
              (filter (fun cat => cat_type cat = ty) L) = [dflt] /\
            cat_name dflt = "noCategory" /\ cat_type dflt = ty).
  { intros ty. subst L. destruct ty.
    - exists (categoryFromDraft
                (mkCategoryDraft income "noCategory" "#6B7280" "Circle" true true)
                (uuidv4 c) now now).
      split; [vm_compute; reflexivity|done].
    - exists (categoryFromDraft
                (mkCategoryDraft expense "noCategory" "#6B7280" "Circle" true true)
                (uuidv4 (5 + c)%nat) now now).
      split; [vm_compute; reflexivity|done]. }
  assert (Hinc : length (filter (fun cat => cat_type cat = income) L) = 5%nat)
    by (vm_compute; reflexivity).
  assert (Hexp : length (filter (fun cat => cat_type cat = expense) L) = 10%nat)
    by (vm_compute; reflexivity).
  assert (Hsys : forall cat, cat ∈ L ->
            cat_isSystem cat = true /\ cat_createdAt cat = now /\
            cat_updatedAt cat = now).
  { intros cat Hcat. subst L. cbn in Hcat.
    repeat (apply elem_of_cons in Hcat as [->|Hcat]; [done|]).
    by apply elem_of_nil in Hcat. }
  clearbody L.
  pose proof (getAll_foldl_put_perm cat_id L HndL) as Hperm.
  split_and!.
  - apply keyed_foldl_put, map_Forall_empty.
  - rewrite (foldl_put_size cat_id); [by rewrite <- (length_fmap cat_id), Hids, length_fmap, length_seq|done|].
    apply Forall_forall. intros ? _. apply lookup_empty.
  - intros ty. destruct (Hdef ty) as [dflt (Hf & Hn & Ht)].
    exists dflt. split; [|done].
    apply Permutation_singleton_r. rewrite <- Hf. by rewrite Hperm.
  - by rewrite Hperm.
  - by rewrite Hperm.
  - intros cat Hcat. rewrite Hperm in Hcat. by apply Hsys.
Qed.


(** X1. First launch. On a world without settings record whose category and
    account stores are empty, [initializeDB] reads the clock once and, when
    the fifteen ids it draws for the categories are pairwise distinct,
    leaves: the default settings stamped with that reading, with an empty
    ledger of processed months (so no month reads as processed); exactly one
    account, the default one, under the first id drawn; fifteen categories,
    five of type income and ten of type expense, each type with exactly one
    default category, named [noCategory]; both stores keyed by id; and the
    transactions untouched. *)
Theorem initializeDB_first_launch w :
  settings w = None ->
  categories w = ∅ ->
  accounts w = ∅ ->
  NoDup (uuidv4 <$> seq (S (uuid_calls w)) 15) ->
  let w' := snd (initializeDB uuidv4 clock navigatorLanguage toLowerCase w) in
  let now := clock (clock_reads w) in
  settings w' = Some (defaultSettings navigatorLanguage toLowerCase now) /\
  (forall year month, fst (isMonthProcessed year month w') = false) /\
  getAll (accounts w') = [defaultAccount (uuidv4 (uuid_calls w)) now] /\
  size (categories w') = 15%nat /\
  length (fst (getCategoriesByType income w')) = 5%nat /\
  length (fst (getCategoriesByType expense w')) = 10%nat /\
  (forall ty, exists dflt,
     filter (fun cat => cat_isDefault cat = true)
       (fst (getCategoriesByType ty w')) = [dflt] /\
     cat_name dflt = "noCategory" /\ cat_type dflt = ty) /\
  keyed_by cat_id (categories w') /\ keyed_by acc_id (accounts w') /\
  transactions w' = transactions w.
Proof.
  intros Hs Hc Ha Hnd. rewrite (initializeDB_eq w Hs). cbv zeta. cbn [snd].
  rewrite Hc, Ha.
  destruct (seeded_store (clock (clock_reads w)) (S (uuid_calls w)) Hnd)
    as (Hkey & Hsize & Hdef & Hinc & Hexp & _).
  unfold getCategoriesByType. step_monad.
  split_and!; try done.
  - unfold getAll, entries. by rewrite insert_empty, map_to_list_singleton.
  - apply map_Forall_insert_2; [done|]. apply map_Forall_empty.
Qed.

(** X2. [initializeDB] runs once. On a world that has a settings record it
    changes nothing, not even the call counts of the oracles; after any
    call the settings record exists; so a second call in a row is a
    no-op. *)
Theorem initializeDB_once w :
  (is_Some (settings w) -> initializeDB uuidv4 clock navigatorLanguage toLowerCase w = (tt, w)) /\
  is_Some (settings (snd (initializeDB uuidv4 clock navigatorLanguage toLowerCase w))) /\
  initializeDB uuidv4 clock navigatorLanguage toLowerCase (snd (initializeDB uuidv4 clock navigatorLanguage toLowerCase w)) = (tt, snd (initializeDB uuidv4 clock navigatorLanguage toLowerCase w)).
Proof.
  assert (Hsome : is_Some (settings (snd (initializeDB uuidv4 clock navigatorLanguage toLowerCase w)))).
  { destruct (settings w) as [st|] eqn:Hs.
    - rewrite initializeDB_done by eauto. cbn. rewrite Hs. eauto.
    - rewrite initializeDB_eq by done. cbn. eauto. }
  split_and!.
  - apply initializeDB_done.
  - done.
  - by apply initializeDB_done.
Qed.



End InitFacts.

(** ** Settings and start-up *)

Section SettingsFacts.

Variable LocalTZA : Z -> bool -> Z.
Variable dayOverflow : bool.
Variable uuidv4 : nat -> string.
Variable clock : nat -> string.
Variable clockTime : nat -> Z.

Lemma updateSettings_eq updates w :
  updateSettings clock updates w =
    match settings w with
    | None => (None, w)
    | Some existing =>
        let updated := patchSettings existing updates (clock (clock_reads w)) in
        (Some updated,
         mkWorld (transactions w) (categories w) (accounts w)
                 (if decide (us_id updated = "user") then Some updated
                  else settings w)
                 (uuid_calls w) (S (clock_reads w)))
    end.
Proof.
  unfold updateSettings, putSettings. step_monad.
  destruct (settings w) as [st|] eqn:Hs; [|done].
  destruct (decide (us_id _ = "user")); cbn; by rewrite ?Hs.
Qed.

(** X17. [updateSettings], the stored record and the patch both under the id
    ['user']. Without a settings record the call returns [undefined] and
    changes nothing. With one it returns the merged record and stores it,
    [updatedAt] being the clock reading of the call and [createdAt] kept
    unless the patch names it. A patch that does not name
    [processedFixedMonths] leaves every month processed or unprocessed as
    it was; a patch that names it replaces the ledger, so that a month
    reads as processed exactly when the patch lists it. Transactions,
    categories and accounts are untouched. *)
Theorem updateSettings_keeps_ledger updates w :
  (forall st, settings w = Some st -> us_id st = "user") ->
  sp_id updates = None \/ sp_id updates = Some "user" ->
  match settings w with
  | None => updateSettings clock updates w = (None, w)
  | Some existing =>
      let (r, w') := updateSettings clock updates w in
      exists updated,
        r = Some updated /\ settings w' = Some updated /\
        us_id updated = "user" /\
        us_updatedAt updated = clock (clock_reads w) /\
        (sp_createdAt updates = None ->
           us_createdAt updated = us_createdAt existing) /\
        (sp_processedFixedMonths updates = None ->
           forall year month,
             fst (isMonthProcessed year month w')
             = fst (isMonthProcessed year month w)) /\
        (forall months, sp_processedFixedMonths updates = Some months ->
           forall year month,
             fst (isMonthProcessed year month w')
             = bool_decide (getMonthKey year month ∈ default [] months)) /\
        transactions w' = transactions w /\ categories w' = categories w /\
        accounts w' = accounts w
  end.
Proof.
  intros Huser Hid. rewrite updateSettings_eq.
  destruct (settings w) as [existing|] eqn:Hs; [|done].
  cbv zeta. set (updated := patchSettings existing updates _).
  assert (Hup : us_id updated = "user").
  { subst updated. cbn. destruct Hid as [-> | ->]; cbn; [by apply Huser|done]. }
  rewrite decide_True by done.
  exists updated. cbn [transactions categories accounts settings].
  split_and!; try done.
  - subst updated. cbn. by intros ->.
  - intros Hnone year month. unfold isMonthProcessed. step_monad.
    rewrite Hs. subst updated. cbn. by rewrite Hnone.
  - intros months Hsome year month. unfold isMonthProcessed. step_monad.
    subst updated. cbn. by rewrite Hsome.
Qed.

Lemma isMonthProcessed_settings year month v v' :
  settings v = settings v' ->
  fst (isMonthProcessed year month v) = fst (isMonthProcessed year month v').
Proof.
  intros H. unfold isMonthProcessed. step_monad. rewrite H.
  by destruct (settings v').
Qed.

Local Abbreviation startUp :=
  (initializeFixedTransactions LocalTZA dayOverflow uuidv4 clock clockTime).
Local Abbreviation generate :=
  (generateFixedTransactionsForMonth LocalTZA dayOverflow uuidv4 clock).

Lemma generate_returns year month w :
  exists created, fst (generate year month w) = returned created.
Proof.
  destruct (fst (isMonthProcessed year month w)) eqn:Hp.
  - rewrite (generate_processed LocalTZA dayOverflow uuidv4 clock year month w
               Hp). eauto.
  - rewrite (generate_unprocessed LocalTZA dayOverflow uuidv4 clock year month
               w Hp). eauto.
Qed.

Lemma initializeFixedTransactions_eq w :
  startUp w =
    (returned tt,
     snd (generate
                (JSDate.getFullYear LocalTZA (clockTime (clock_reads w)))
                (JSDate.getMonth LocalTZA (clockTime (clock_reads w)))
                (mkWorld (transactions w) (categories w) (accounts w)
                         (settings w) (uuid_calls w) (S (clock_reads w))))).
Proof.
  unfold initializeFixedTransactions. unfold bind at 1, nowDate at 1.
  unfold bind, ret.
  match goal with
  | |- context [generateFixedTransactionsForMonth _ _ _ _ ?y ?m ?v] =>
      destruct (generate_returns y m v) as [created Hr];
      destruct (generate y m v) as [r v'] eqn:Hg
  end.
  cbn [fst] in Hr. by rewrite Hr.
Qed.

Lemma generate_marks year month w st :
  settings w = Some st ->
  fst (isMonthProcessed year month (snd (generate year month w))) = true.
Proof.
  intros Hs. destruct (fst (isMonthProcessed year month w)) eqn:Hp.
  - by rewrite (generate_processed LocalTZA dayOverflow uuidv4 clock year month w Hp).
  - rewrite (generate_unprocessed LocalTZA dayOverflow uuidv4 clock year month w Hp).
    cbn [snd]. by apply markMonthAsProcessed_present with (st := st).
Qed.

(** X22. Start-up. With a settings record, [initializeFixedTransactions]
    leaves the month of its clock reading, in local time, marked as
    processed; a second start-up whose clock reading falls in the same
    local month changes no store and draws no id. *)
Theorem initializeFixedTransactions_once_a_month w st :
  settings w = Some st ->
  let year := JSDate.getFullYear LocalTZA (clockTime (clock_reads w)) in
  let month := JSDate.getMonth LocalTZA (clockTime (clock_reads w)) in
  let w1 := snd (startUp w) in
  fst (isMonthProcessed year month w1) = true /\
  (JSDate.getFullYear LocalTZA (clockTime (clock_reads w1)) = year ->
   JSDate.getMonth LocalTZA (clockTime (clock_reads w1)) = month ->
   let w2 := snd (startUp w1) in
   transactions w2 = transactions w1 /\ settings w2 = settings w1 /\
   categories w2 = categories w1 /\ accounts w2 = accounts w1 /\
   uuid_calls w2 = uuid_calls w1).
Proof.
  intros Hs. cbv zeta. rewrite initializeFixedTransactions_eq. cbn [snd].
  generalize (JSDate.getFullYear LocalTZA (clockTime (clock_reads w))) as year.
  generalize (JSDate.getMonth LocalTZA (clockTime (clock_reads w))) as month.
  intros month year.
  set (w0 := mkWorld (transactions w) (categories w) (accounts w) (settings w)
               (uuid_calls w) (S (clock_reads w))).
  assert (H1 : fst (isMonthProcessed year month (snd (generate year month w0))) = true)
    by (by apply generate_marks with (st := st)).
  split; [exact H1|].
  generalize dependent (snd (generate year month w0)). intros w1 H1 Hy Hm.
  rewrite initializeFixedTransactions_eq. cbn [snd]. rewrite Hy, Hm.
  set (w1' := mkWorld (transactions w1) (categories w1) (accounts w1)
                (settings w1) (uuid_calls w1) (S (clock_reads w1))).
  assert (H2 : fst (isMonthProcessed year month w1') = true).
  { rewrite <- H1. by apply isMonthProcessed_settings. }
  by rewrite (generate_processed LocalTZA dayOverflow uuidv4 clock year month w1' H2).
Qed.

End SettingsFacts.

(** ** Date strings and the range query *)

Section DateStringFacts.

Lemma digit_compare (a b : Z) :
  Ascii.compare (digit a) (digit b) = (a mod 10 ?= b mod 10).
Proof.
  unfold Ascii.compare, digit.
  assert (Ha : 0 <= a mod 10 < 10) by (apply Z.mod_pos_bound; lia).
  assert (Hb : 0 <= b mod 10 < 10) by (apply Z.mod_pos_bound; lia).
  rewrite !Ascii.N_ascii_embedding by lia.
  rewrite <- N2Z.inj_compare, !N2Z.inj_add, !Z2N.id by lia.
  apply Z.add_compare_mono_l.
Qed.

Lemma compare_digit_cons a b s1 s2 :
  String.compare (String (digit a) s1) (String (digit b) s2) =
    match a mod 10 ?= b mod 10 with
    | Eq => String.compare s1 s2
    | Lt => Lt
    | Gt => Gt
    end.
Proof. cbn [String.compare]. rewrite digit_compare. by destruct (_ ?= _). Qed.

Lemma compare_same_cons c s1 s2 :
  String.compare (String c s1) (String c s2) = String.compare s1 s2.
Proof.
  cbn [String.compare].
  assert (Ascii.compare c c = Eq) as ->; [|done].
  unfold Ascii.compare. apply N.compare_refl.
Qed.

Lemma digits_of_year (n : Z) :
  0 <= n <= 9999 ->
  n = 1000 * ((n / 1000) mod 10) + 100 * ((n / 100) mod 10)
      + 10 * ((n / 10) mod 10) + n mod 10.
Proof. intros H. Z.to_euclidean_division_equations. lia. Qed.

Lemma digits_of_field (n : Z) :
  0 <= n <= 99 -> n = 10 * ((n / 10) mod 10) + n mod 10.
Proof. intros H. Z.to_euclidean_division_equations. lia. Qed.

Lemma dateString_le (a b : IsoDate) :
  fourDigitDate a -> fourDigitDate b ->
  stringLe (dateString a) (dateString b) = true <-> dateLe a b.
Proof.
  intros (Hya & Hma & Hda) (Hyb & Hmb & Hdb).
  unfold stringLe, String.leb, dateString, digits4, digits2, dateLe.
  cbv [String.append].
  rewrite !compare_digit_cons, compare_same_cons, !compare_digit_cons,
    compare_same_cons, !compare_digit_cons.
  cbn [String.compare].
  pose proof (digits_of_year (iso_year a) Hya) as Ea.
  pose proof (digits_of_year (iso_year b) Hyb) as Eb.
  pose proof (digits_of_field (iso_month a) ltac:(lia)) as Fa.
  pose proof (digits_of_field (iso_month b) ltac:(lia)) as Fb.
  pose proof (digits_of_field (iso_day a) ltac:(lia)) as Ga.
  pose proof (digits_of_field (iso_day b) ltac:(lia)) as Gb.
  repeat match goal with
  | H : context [?x mod 10] |- _ =>
      lazymatch goal with
      | _ : 0 <= x mod 10 < 10 |- _ => fail
      | _ => pose proof (Z.mod_pos_bound x 10 ltac:(lia))
      end
  end.
  repeat match goal with
  | |- context [(?x mod 10 ?= ?y mod 10)] =>
      let H := fresh "D" in
      destruct (Z.compare_spec (x mod 10) (y mod 10)) as [H|H|H]
  end; split; intros; try done; lia.
Qed.

Lemma filter_ext_elem {A} (P Q : A -> Prop) `{!forall x, Decision (P x)}
    `{!forall x, Decision (Q x)} (l : list A) :
  (forall x, x ∈ l -> P x <-> Q x) -> filter P l = filter Q l.
Proof.
  induction l as [|x l IH]; intros Hext; [done|].
  rewrite !filter_cons. rewrite IH by (intros y Hy; apply Hext; by right).
  destruct (decide (P x)) as [HP|HP], (decide (Q x)) as [HQ|HQ]; try done.
  - exfalso. apply HQ, (Hext x); [by left|done].
  - exfalso. apply HP, (Hext x); [by left|done].
Qed.

(** X10. The comparison of date strings in [getTransactionsByDateRange] is
    the calendar order: when the two bounds and the dates of the stored
    transactions have a four-digit year (0 to 9999), a month from 1 to 12
    and a day from 1 to 31, the call returns, in the order of [getAll],
    exactly the transactions dated from [startDate] to [endDate], both
    included. *)
Theorem getTransactionsByDateRange_calendar (startDate endDate : IsoDate) w :
  fourDigitDate startDate ->
  fourDigitDate endDate ->
  (forall tx, tx ∈ getAll (transactions w) -> fourDigitDate (date tx)) ->
  fst (getTransactionsByDateRange (dateString startDate) (dateString endDate) w)
  = filter (fun tx => dateLe startDate (date tx) /\ dateLe (date tx) endDate)
           (getAll (transactions w)).
Proof.
  intros Hs He Hall. unfold getTransactionsByDateRange. step_monad.
  apply filter_ext_elem. intros tx Htx. unfold inDateRange.
  rewrite andb_true_iff.
  rewrite (dateString_le startDate (date tx)) by auto.
  by rewrite (dateString_le (date tx) endDate) by auto.
Qed.

End DateStringFacts.

(** ** Importing into a store that already holds records *)

Section MergeFacts.

Lemma foldl_put_is_Some {R} (key : R -> string) (l : list R)
    (m : gmap string R) (r : R) :
  r ∈ l -> is_Some (foldl (put key) m l !! key r).
Proof.
  intros Hr. apply (list_elem_of_fmap_2 key) in Hr.
  generalize dependent (key r). intros k. clear r.
  revert m. induction l as [|x l IH]; intros m Hk.
  - by apply elem_of_nil in Hk.
  - cbn [foldl]. destruct (decide (k ∈ key <$> l)) as [Hin|Hin]; [by apply IH|].
    rewrite fmap_cons in Hk. apply elem_of_cons in Hk as [->|Hk]; [|done].
    rewrite (foldl_put_notin key) by done. unfold put.
    rewrite lookup_insert_eq. eauto.
Qed.

Lemma known_by_id (e : World) (tx : Transaction) :
  keyed_by id (transactions e) ->
  knownTransaction e tx <-> is_Some (transactions e !! id tx).
Proof.
  intros Hkey. unfold knownTransaction. rewrite Exists_exists. split.
  - intros [tx' [Hin Hid]]. rewrite <- Hid.
    rewrite (getAll_keyed id _ tx') by done. eauto.
  - intros [tx' Hlk]. exists tx'. split; [apply getAll_elem; eauto|].
    exact (Hkey _ _ Hlk).
Qed.

Lemma foldl_put_lookup_in {R} (key : R -> string) (l : list R)
    (m : gmap string R) (k : string) :
  k ∈ key <$> l ->
  exists r, r ∈ l /\ key r = k /\ foldl (put key) m l !! k = Some r.
Proof.
  revert m. induction l as [|x l IH]; intros m Hk.
  - by apply elem_of_nil in Hk.
  - cbn [foldl]. destruct (decide (k ∈ key <$> l)) as [Hin|Hin].
    + destruct (IH (put key m x) Hin) as (r & Hr & Hkr & Hlk).
      exists r. split_and!; [by right|done|done].
    + rewrite fmap_cons in Hk. apply elem_of_cons in Hk as [->|Hk]; [|done].
      exists x. split_and!; [by left|done|].
      rewrite (foldl_put_notin key) by done. unfold put.
      apply lookup_insert_eq.
Qed.

(** What the stores hold under an id after the records [l] were put: the
    stored record when no record of [l] has the id, and else a record of
    [l]. *)
Lemma foldl_put_cases {R} (key : R -> string) (P : R -> Prop)
    `{!forall r, Decision (P r)} (l : list R) (m : gmap string R)
    (k : string) :
  ((forall r, r ∈ l -> key r = k -> ~ P r) ->
   foldl (put key) m (filter P l) !! k = m !! k) /\
  (forall r, r ∈ l -> key r = k -> P r ->
   exists r', r' ∈ l /\ key r' = k /\ P r' /\
     foldl (put key) m (filter P l) !! k = Some r').
Proof.
  split.
  - intros Hnone. apply foldl_put_notin.
    intros [r [-> [Hp Hr]%list_elem_of_filter]]%list_elem_of_fmap.
    by apply (Hnone r).
  - intros r Hr Hk Hp.
    destruct (foldl_put_lookup_in key (filter P l) m k)
      as (r' & [Hp' Hr']%list_elem_of_filter & Hk' & Hlk).
    { rewrite <- Hk. apply list_elem_of_fmap_2. by apply list_elem_of_filter. }
    by exists r'.
Qed.

(** X23. What the import keeps and what it replaces. On a store keyed by id
    every transaction of the target is afterwards the same record under the
    same id, and every transaction of the file has its id in the store. A
    stored category keeps its record when every category of the file under
    its id is known to the target by type and name; when the file holds a
    category under its id that the target does not know, the stored record
    is replaced by such a category of the file, a record different from the
    stored one. Accounts likewise, known by name. Every id of the category
    and account stores is still in use, and the settings and the call
    counts of the oracles are unchanged. *)
Theorem handleImportData_keeps_existing (data : ExportData) (e : World) :
  keyed_by id (transactions e) ->
  let e' := snd (handleImportData (Some data) e) in
  (forall k tx, transactions e !! k = Some tx -> transactions e' !! k = Some tx) /\
  (forall tx, tx ∈ ex_transactions data -> is_Some (transactions e' !! id tx)) /\
  (forall k c, categories e !! k = Some c ->
     (forall c', c' ∈ ex_categories data -> cat_id c' = k ->
        knownCategory e c') ->
     categories e' !! k = Some c) /\
  (forall k c c', categories e !! k = Some c ->
     c' ∈ ex_categories data -> cat_id c' = k -> ~ knownCategory e c' ->
     exists c2, c2 ∈ ex_categories data /\ cat_id c2 = k /\
       ~ knownCategory e c2 /\ categories e' !! k = Some c2 /\ c2 <> c) /\
  (forall k a, accounts e !! k = Some a ->
     (forall a', a' ∈ ex_accounts data -> acc_id a' = k ->
        knownAccount e a') ->
     accounts e' !! k = Some a) /\
  (forall k a a', accounts e !! k = Some a ->
     a' ∈ ex_accounts data -> acc_id a' = k -> ~ knownAccount e a' ->
     exists a2, a2 ∈ ex_accounts data /\ acc_id a2 = k /\
       ~ knownAccount e a2 /\ accounts e' !! k = Some a2 /\ a2 <> a) /\
  (forall k, is_Some (categories e !! k) -> is_Some (categories e' !! k)) /\
  (forall k, is_Some (accounts e !! k) -> is_Some (accounts e' !! k)) /\
  settings e' = settings e /\
  uuid_calls e' = uuid_calls e /\ clock_reads e' = clock_reads e.
Proof.
  intros Hkey. cbv zeta. rewrite handleImportData_eq. cbn [snd].
  unfold withRecords.
  cbn [transactions categories accounts settings uuid_calls clock_reads].
  assert (Hgrow : forall {R} (key : R -> string) (l : list R) m k,
            is_Some (m !! k) -> is_Some (foldl (put key) m l !! k)).
  { intros R key l. induction l as [|x l IH]; intros m k Hk; [done|].
    cbn [foldl]. apply IH. unfold put.
    destruct (decide (k = key x)) as [->|Hne].
    - rewrite lookup_insert_eq. eauto.
    - by rewrite lookup_insert_ne. }
  split_and!; try done.
  - intros k tx Hk. rewrite (foldl_put_notin id); [done|].
    intros [tx' [-> [Hun _]%list_elem_of_filter]]%list_elem_of_fmap.
    apply Hun. apply known_by_id; [done|]. eauto.
  - intros tx Htx. destruct (decide (knownTransaction e tx)) as [Hk|Hk].
    + apply Hgrow. by apply known_by_id.
    + apply foldl_put_is_Some. by apply list_elem_of_filter.
  - intros k c Hk Hall.
    destruct (foldl_put_cases cat_id (fun c0 => ~ knownCategory e c0)
                (ex_categories data) (categories e) k) as [Hkeep _].
    rewrite Hkeep; [done|]. intros r Hr Hid Hn. by apply Hn, Hall.
  - intros k c c' Hk Hc' Hid Hun.
    destruct (foldl_put_cases cat_id (fun c0 => ~ knownCategory e c0)
                (ex_categories data) (categories e) k) as [_ Hrepl].
    destruct (Hrepl c' Hc' Hid Hun) as (c2 & Hc2 & Hid2 & Hun2 & Hlk).
    exists c2. split_and!; try done.
    intros ->. apply Hun2. unfold knownCategory. apply Exists_exists.
    exists c. split; [apply getAll_elem; eauto|done].
  - intros k a Hk Hall.
    destruct (foldl_put_cases acc_id (fun a0 => ~ knownAccount e a0)
                (ex_accounts data) (accounts e) k) as [Hkeep _].
    rewrite Hkeep; [done|]. intros r Hr Hid Hn. by apply Hn, Hall.
  - intros k a a' Hk Ha' Hid Hun.
    destruct (foldl_put_cases acc_id (fun a0 => ~ knownAccount e a0)
                (ex_accounts data) (accounts e) k) as [_ Hrepl].
    destruct (Hrepl a' Ha' Hid Hun) as (a2 & Ha2 & Hid2 & Hun2 & Hlk).
    exists a2. split_and!; try done.
    intros ->. apply Hun2. unfold knownAccount. apply Exists_exists.
    exists a. split; [apply getAll_elem; eauto|done].
  - intros k Hk. by apply Hgrow.
  - intros k Hk. by apply Hgrow.
Qed.

(** X24. Importing a file twice is importing it once. For a target keyed by
    id and a file whose categories, and whose accounts, have pairwise
    distinct ids, each of them either known to the target (by type and
    name, by name) or under an id the target does not use, the second
    import of the same file changes nothing. *)
Theorem handleImportData_twice (data : ExportData) (e : World) :
  keyed_by id (transactions e) ->
  NoDup (cat_id <$> ex_categories data) ->
  NoDup (acc_id <$> ex_accounts data) ->
  Forall (fun c => knownCategory e c \/ categories e !! cat_id c = None)
         (ex_categories data) ->
  Forall (fun a => knownAccount e a \/ accounts e !! acc_id a = None)
         (ex_accounts data) ->
  handleImportData (Some data) (snd (handleImportData (Some data) e))
  = (tt, snd (handleImportData (Some data) e)).
Proof.
  intros Hkey HndC HndA HC HA.
  rewrite (handleImportData_eq data e). cbn [snd].
  set (C := filter (fun c => ~ knownCategory e c) (ex_categories data)).
  set (A := filter (fun a => ~ knownAccount e a) (ex_accounts data)).
  set (T := filter (fun tx => ~ knownTransaction e tx) (ex_transactions data)).
  set (e1 := withRecords C A T e).
  rewrite (handleImportData_eq data e1). f_equal.
  rewrite Forall_forall in HC. rewrite Forall_forall in HA.
  assert (HfreshC : Forall (fun r => categories e !! cat_id r = None) C).
  { apply Forall_forall. intros c [Hun Hc]%list_elem_of_filter.
    by destruct (HC c Hc). }
  assert (HfreshA : Forall (fun r => accounts e !! acc_id r = None) A).
  { apply Forall_forall. intros a [Hun Ha]%list_elem_of_filter.
    by destruct (HA a Ha). }
  assert (HndC' : NoDup (cat_id <$> C)).
  { eapply sublist_NoDup; [exact HndC|]. apply fmap_sublist, sublist_filter. }
  assert (HndA' : NoDup (acc_id <$> A)).
  { eapply sublist_NoDup; [exact HndA|]. apply fmap_sublist, sublist_filter. }
  assert (HC1 : forall c, c ∈ ex_categories data -> knownCategory e1 c).
  { intros c Hc. unfold knownCategory. apply Exists_exists.
    destruct (decide (knownCategory e c)) as [Hk|Hk].
    - apply Exists_exists in Hk as [c' [Hin Hsame]]. exists c'. split; [|done].
      eapply elem_of_submseteq; [exact Hin|].
      apply getAll_submseteq. subst e1. unfold withRecords. cbn [categories].
      by apply (foldl_put_subseteq cat_id).
    - exists c. split; [|done]. apply getAll_elem. exists (cat_id c).
      subst e1. unfold withRecords. cbn [categories].
      apply (foldl_put_in cat_id); [done|]. by apply list_elem_of_filter. }
  assert (HA1 : forall a, a ∈ ex_accounts data -> knownAccount e1 a).
  { intros a Ha. unfold knownAccount. apply Exists_exists.
    destruct (decide (knownAccount e a)) as [Hk|Hk].
    - apply Exists_exists in Hk as [a' [Hin Hsame]]. exists a'. split; [|done].
      eapply elem_of_submseteq; [exact Hin|].
      apply getAll_submseteq. subst e1. unfold withRecords. cbn [accounts].
      by apply (foldl_put_subseteq acc_id).
    - exists a. split; [|done]. apply getAll_elem. exists (acc_id a).
      subst e1. unfold withRecords. cbn [accounts].
      apply (foldl_put_in acc_id); [done|]. by apply list_elem_of_filter. }
  assert (Hkey1 : keyed_by id (transactions e1)).
  { subst e1. unfold withRecords. cbn [transactions]. by apply keyed_foldl_put. }
  assert (HT1 : forall tx, tx ∈ ex_transactions data -> knownTransaction e1 tx).
  { intros tx Htx. apply known_by_id; [done|].
    subst e1. unfold withRecords. cbn [transactions].
    destruct (decide (knownTransaction e tx)) as [Hk|Hk].
    - apply known_by_id in Hk as [tx' Hk]; [|done].
      rewrite (foldl_put_notin id); [eauto|].
      intros [tx2 [Heq [Hun _]%list_elem_of_filter]]%list_elem_of_fmap.
      apply Hun. apply known_by_id; [done|]. rewrite <- Heq. eauto.
    - apply foldl_put_is_Some. by apply list_elem_of_filter. }
  assert (Hnil : forall {X} (P : X -> Prop) `{!forall x, Decision (P x)} (l : list X),
            (forall x, x ∈ l -> P x) -> filter (fun x => ~ P x) l = []).
  { intros X P ? l Hall. induction l as [|x l IH]; [done|].
    rewrite filter_cons, decide_False.
    - apply IH. intros y Hy. apply Hall. by right.
    - intros Hn. apply Hn, Hall. by left. }
  rewrite !Hnil by done. clearbody e1. by destruct e1.
Qed.

End MergeFacts.

(** ** The dashboard filter *)

Section FilterFacts.

Variable toLowerCase : string -> string.

(** X27. The dashboard filter. With the default filters [filterTransactions]
    returns the list unchanged. For any filters the result is a sublist of
    the input, filtering it again changes nothing, and two filters can be
    applied in either order. A transaction that passes has its category
    among [categoryIds] unless that list is empty, its account among
    [accountIds] unless that list is empty, and the type asked for unless
    the type filter is ['all']. *)
Theorem filterTransactions_narrows filters (txs : list Transaction) :
  filterTransactions toLowerCase txs defaultFilters = txs /\
  sublist (filterTransactions toLowerCase txs filters) txs /\
  filterTransactions toLowerCase (filterTransactions toLowerCase txs filters) filters
  = filterTransactions toLowerCase txs filters /\
  (forall other,
     filterTransactions toLowerCase (filterTransactions toLowerCase txs filters) other
     = filterTransactions toLowerCase (filterTransactions toLowerCase txs other) filters) /\
  (forall tx, tx ∈ filterTransactions toLowerCase txs filters ->
     (f_categoryIds filters = [] \/ categoryId tx ∈ f_categoryIds filters) /\
     (f_accountIds filters = [] \/ accountId tx ∈ f_accountIds filters) /\
     (f_type filters = type_all \/ f_type filters = type_only (type tx))).
Proof.
  unfold filterTransactions. split_and!.
  - apply filter_all. intros tx _. reflexivity.
  - apply sublist_filter.
  - rewrite list_filter_filter. apply list_filter_iff. intros tx. tauto.
  - intros other. rewrite !list_filter_filter. apply list_filter_iff.
    intros tx. tauto.
  - intros tx [Hp _]%list_elem_of_filter. unfold passes in Hp.
    destruct (negb (String.eqb (f_search filters) EmptyString)
              && negb (matchesSearch toLowerCase (f_search filters) tx));
      [done|].
    destruct (f_type filters) as [|ty] eqn:Hty.
    + destruct (f_categoryIds filters) as [|c cs] eqn:Hcs;
        destruct (f_accountIds filters) as [|a' as'] eqn:Has;
        repeat case_match; try done; split_and!; try (by left);
        right; repeat match goal with
        | H : _ && negb (bool_decide _) = false |- _ =>
            apply andb_false_iff in H as [H|H]; [done|];
            apply negb_false_iff, bool_decide_eq_true in H
        end; done.
    + destruct (bool_decide (type tx = ty)) eqn:Hb; [|done].
      apply bool_decide_eq_true in Hb. subst ty.
      destruct (f_categoryIds filters) as [|c cs] eqn:Hcs;
        destruct (f_accountIds filters) as [|a' as'] eqn:Has;
        repeat case_match; try done; split_and!; try (by left); try (by right);
        right; repeat match goal with
        | H : _ && negb (bool_decide _) = false |- _ =>
            apply andb_false_iff in H as [H|H]; [done|];
            apply negb_false_iff, bool_decide_eq_true in H
        end; done.
Qed.

Lemma passes_status filters tx :
  passes toLowerCase (withStatus filters status_all) tx = true ->
  passes toLowerCase (withStatus filters status_completed) tx = isCompleted tx /\
  passes toLowerCase (withStatus filters status_pending) tx = negb (isCompleted tx).
Proof.
  unfold passes. cbn [f_search f_type f_status f_categoryIds f_accountIds
                           withStatus].
  destruct (negb (String.eqb (f_search filters) EmptyString)
            && negb (matchesSearch toLowerCase (f_search filters) tx)); [done|].
  destruct (match f_type filters with
            | type_all => false
            | type_only ty => negb (bool_decide (type tx = ty))
            end); [done|].
  destruct ((0 <? length (f_categoryIds filters))%nat
            && negb (bool_decide (categoryId tx ∈ f_categoryIds filters))); [done|].
  destruct ((0 <? length (f_accountIds filters))%nat
            && negb (bool_decide (accountId tx ∈ f_accountIds filters))); [done|].
  by destruct (isCompleted tx).
Qed.

Lemma passes_status_all filters s tx :
  passes toLowerCase (withStatus filters s) tx = true ->
  passes toLowerCase (withStatus filters status_all) tx = true.
Proof.
  unfold passes. cbn [f_search f_type f_status f_categoryIds f_accountIds
                           withStatus].
  destruct (negb (String.eqb (f_search filters) EmptyString)
            && negb (matchesSearch toLowerCase (f_search filters) tx)); [done|].
  destruct (match f_type filters with
            | type_all => false
            | type_only ty => negb (bool_decide (type tx = ty))
            end); [done|].
  destruct ((0 <? length (f_categoryIds filters))%nat
            && negb (bool_decide (categoryId tx ∈ f_categoryIds filters)));
    [by destruct s, (isCompleted tx)|].
  destruct ((0 <? length (f_accountIds filters))%nat
            && negb (bool_decide (accountId tx ∈ f_accountIds filters)));
    [by destruct s, (isCompleted tx)|].
  done.
Qed.

(** X28. The status filter splits what the other criteria let through: with
    status ['completed'] the filter returns the completed transactions of
    the list shown under status ['all'], with ['pending'] the pending
    ones, and the two results together are a permutation of that list. *)
Theorem filterTransactions_status_splits filters (txs : list Transaction) :
  let shown := filterTransactions toLowerCase txs (withStatus filters status_all) in
  filterTransactions toLowerCase txs (withStatus filters status_completed)
  = filter (fun tx => isCompleted tx = true) shown /\
  filterTransactions toLowerCase txs (withStatus filters status_pending)
  = filter (fun tx => isCompleted tx = false) shown /\
  filterTransactions toLowerCase txs (withStatus filters status_completed)
  ++ filterTransactions toLowerCase txs (withStatus filters status_pending) ≡ₚ shown.
Proof.
  cbv zeta. unfold filterTransactions.
  assert (Hc : filter (fun tx => passes toLowerCase (withStatus filters status_completed) tx = true) txs
               = filter (fun tx => isCompleted tx = true)
                   (filter (fun tx => passes toLowerCase (withStatus filters status_all) tx = true) txs)).
  { rewrite list_filter_filter. apply list_filter_iff. intros tx. split.
    - intros H. pose proof (passes_status_all _ _ _ H) as Hall.
      destruct (passes_status filters tx Hall) as [Hc _]. split; congruence.
    - intros [Hd Hall]. destruct (passes_status filters tx Hall) as [Hc _].
      congruence. }
  assert (Hp : filter (fun tx => passes toLowerCase (withStatus filters status_pending) tx = true) txs
               = filter (fun tx => isCompleted tx = false)
                   (filter (fun tx => passes toLowerCase (withStatus filters status_all) tx = true) txs)).
  { rewrite list_filter_filter. apply list_filter_iff. intros tx. split.
    - intros H. pose proof (passes_status_all _ _ _ H) as Hall.
      destruct (passes_status filters tx Hall) as [_ Hp]. split; [|done].
      rewrite H in Hp. by destruct (isCompleted tx).
    - intros [Hd Hall]. destruct (passes_status filters tx Hall) as [_ Hp].
      rewrite Hp, Hd. done. }
  split_and!; [done|done|].
  rewrite Hc, Hp.
  set (shown := filter (fun tx => passes toLowerCase (withStatus filters status_all) tx = true) txs).
  rewrite (list_filter_iff (fun tx => isCompleted tx = false)
             (fun tx => ~ isCompleted tx = true)).
  - apply filter_app_complement.
  - intros tx. by destruct (isCompleted tx).
Qed.

End FilterFacts.

(** ** Budgets *)

Section BudgetFacts.

Variable uuidv4 : nat -> string.
Variable clock : nat -> string.

Lemma getAll_insert_perm {R} (m : gmap string R) k x :
  m !! k = None -> getAll (<[k := x]> m) ≡ₚ x :: getAll m.
Proof.
  intros Hk. rewrite !getAll_perm.
  change (x :: (map_to_list m).*2) with (((k, x) :: map_to_list m).*2).
  apply fmap_Permutation. by apply map_to_list_insert.
Qed.

Lemma getAll_delete_perm {R} (m : gmap string R) k x :
  m !! k = Some x -> getAll m ≡ₚ x :: getAll (delete k m).
Proof.
  intros Hk. rewrite <- (getAll_insert_perm (delete k m) k x) by apply lookup_delete_eq.
  by rewrite insert_delete_id.
Qed.

Lemma getAll_replace_perm {R} (m : gmap string R) k x y :
  m !! k = Some x -> getAll (<[k := y]> m) ≡ₚ y :: getAll (delete k m).
Proof.
  intros Hk. rewrite <- insert_delete_eq.
  apply getAll_insert_perm, lookup_delete_eq.
Qed.

Lemma find_Some {A} (P : A -> Prop) `{!forall x, Decision (P x)} (l : list A) x :
  find P l = Some x -> x ∈ l /\ P x.
Proof.
  unfold find. destruct (list_find P l) as [[i y]|] eqn:Hf; [|done].
  intros [= <-]. destruct (proj1 (list_find_Some P l i y) Hf) as (Hi & HP & _).
  split; [|done]. apply list_elem_of_lookup. eauto.
Qed.

Lemma find_None {A} (P : A -> Prop) `{!forall x, Decision (P x)} (l : list A) :
  find P l = None -> forall x, x ∈ l -> ~ P x.
Proof.
  unfold find. destruct (list_find P l) as [[i y]|] eqn:Hf; [done|].
  intros _. apply Forall_forall. exact (proj1 (list_find_None P l) Hf).
Qed.

(** The record that [setBudget] writes over [existing]. *)
Local Abbreviation amended existing amount cur now :=
  {| b_id := b_id existing; b_categoryId := b_categoryId existing;
     b_amount := amount; b_currency := cur; b_month := b_month existing;
     b_createdAt := b_createdAt existing; b_updatedAt := now |}.

Lemma setBudget_cases cid amount cur year month bw :
  keyed_by b_id (budgets bw) ->
  let key := getMonthKey year month in
  let now := clock (b_clock_reads bw) in
  (exists existing,
     budgets bw !! b_id existing = Some existing /\ inSlot cid key existing /\
     setBudget uuidv4 clock cid amount cur year month bw =
       (amended existing amount cur now,
        mkBudgetWorld
          (<[b_id existing := amended existing amount cur now]> (budgets bw))
          (b_uuid_calls bw) (S (b_clock_reads bw)))) \/
  ((forall b, b ∈ getAll (budgets bw) -> ~ inSlot cid key b) /\
   setBudget uuidv4 clock cid amount cur year month bw =
     (let budget := mkCategoryBudget (uuidv4 (b_uuid_calls bw)) cid amount cur
                      key now now in
      (budget,
       mkBudgetWorld (<[uuidv4 (b_uuid_calls bw) := budget]> (budgets bw))
                     (S (b_uuid_calls bw)) (S (b_clock_reads bw))))).
Proof.
  intros Hkey. cbv zeta. unfold setBudget.
  destruct (find _ _) as [existing|] eqn:Hf.
  - left. exists existing. destruct (find_Some _ _ _ Hf) as [Hin Hslot].
    split_and!; [by apply getAll_keyed|done|done].
  - right. split; [exact (find_None _ _ Hf)|done].
Qed.

Lemma setBudget_spec cid amount cur year month bw :
  keyed_by b_id (budgets bw) ->
  onePerSlot (budgets bw) ->
  budgets bw !! uuidv4 (b_uuid_calls bw) = None ->
  let (b, bw') := setBudget uuidv4 clock cid amount cur year month bw in
  let key := getMonthKey year month in
  budgets bw' !! b_id b = Some b /\
  b_categoryId b = cid /\ b_month b = key /\
  b_amount b = amount /\ b_currency b = cur /\
  b_updatedAt b = clock (b_clock_reads bw) /\
  filter (fun x => b_categoryId x = cid)
         (getBudgetsByMonth year month bw') = [b] /\
  (forall old, old ∈ getAll (budgets bw) -> inSlot cid key old ->
     b_id b = b_id old /\ b_createdAt b = b_createdAt old /\
     size (budgets bw') = size (budgets bw)) /\
  ((forall old, old ∈ getAll (budgets bw) -> ~ inSlot cid key old) ->
     b_id b = uuidv4 (b_uuid_calls bw) /\
     b_createdAt b = clock (b_clock_reads bw) /\
     size (budgets bw') = S (size (budgets bw))) /\
  (forall k, k <> b_id b -> budgets bw' !! k = budgets bw !! k) /\
  keyed_by b_id (budgets bw') /\ onePerSlot (budgets bw').
Proof.
  intros Hkey Hone Hfresh.
  destruct (setBudget_cases cid amount cur year month bw Hkey)
    as [(existing & Hex & [Hc Hm] & ->)|(Hnone & ->)]; cbv zeta.
  - set (b := amended existing amount cur (clock (b_clock_reads bw))).
    cbn [budgets b_id].
    assert (Hperm' : getAll (<[b_id existing := b]> (budgets bw))
                     ≡ₚ b :: getAll (delete (b_id existing) (budgets bw)))
      by (by eapply getAll_replace_perm).
    pose proof (getAll_delete_perm _ _ _ Hex) as Hperm.
    assert (Hone' : NoDup (slotOf <$> getAll (<[b_id existing := b]> (budgets bw)))).
    { rewrite Hperm'. unfold onePerSlot in Hone. rewrite Hperm in Hone.
      exact Hone. }
    assert (Hsame : forall old, old ∈ getAll (budgets bw) -> inSlot cid
              (getMonthKey year month) old -> old = existing).
    { intros old Hold [Hoc Hom].
      unfold onePerSlot in Hone.
      assert (Hinj : forall x y, x ∈ getAll (budgets bw) -> y ∈ getAll (budgets bw) ->
                slotOf x = slotOf y -> x = y).
      { clear -Hone. induction (getAll (budgets bw)) as [|z l IH]; intros x y Hx Hy Hs.
        - by apply elem_of_nil in Hx.
        - rewrite fmap_cons, NoDup_cons in Hone. destruct Hone as [Hz Hnd].
          apply elem_of_cons in Hx as [->|Hx]; apply elem_of_cons in Hy as [->|Hy].
          + done.
          + exfalso. apply Hz. rewrite Hs. by apply list_elem_of_fmap_2.
          + exfalso. apply Hz. rewrite <- Hs. by apply list_elem_of_fmap_2.
          + by apply IH. }
      apply Hinj; [done|apply getAll_elem; eauto|].
      unfold slotOf. congruence. }
    split_and!; try done.
    + apply lookup_insert_eq.
    + unfold getBudgetsByMonth. cbn [budgets]. rewrite list_filter_filter.
      apply Permutation_singleton_r.
      rewrite Hperm'. rewrite filter_cons, decide_True by (by subst b).
      apply Permutation_cons; [done|].
      rewrite filter_none; [done|].
      intros Hx. apply Exists_exists in Hx as [x [Hx [Hxc Hxm]]].
      assert (Hxin : x ∈ getAll (budgets bw)).
      { apply getAll_elem in Hx as [k Hk]. apply lookup_delete_Some in Hk as [_ Hk].
        apply getAll_elem. eauto. }
      assert (x = existing) as -> by (apply Hsame; [done|split; congruence]).
      apply getAll_elem in Hx as [k Hk].
      apply lookup_delete_Some in Hk as [Hne Hk].
      apply Hne. exact (Hkey _ _ Hk).
    + intros old Hold Hslot. rewrite (Hsame old Hold Hslot).
      split_and!; [done|done|]. apply map_size_insert_Some. eauto.
    + intros Hno. exfalso. apply (Hno existing); [apply getAll_elem; eauto|done].
    + intros k Hk. by rewrite lookup_insert_ne.
    + by apply map_Forall_insert_2.
  - set (b := mkCategoryBudget _ _ _ _ _ _ _). cbn [budgets b_id].
    pose proof (getAll_insert_perm (budgets bw) _ b Hfresh) as Hperm.
    split_and!; try done.
    + apply lookup_insert_eq.
    + unfold getBudgetsByMonth. cbn [budgets]. rewrite list_filter_filter.
      apply Permutation_singleton_r.
      rewrite Hperm. rewrite filter_cons, decide_True by done.
      apply Permutation_cons; [done|].
      rewrite filter_none; [done|].
      intros Hx. apply Exists_exists in Hx as [x [Hx [Hxc Hxm]]].
      by apply (Hnone x Hx).
    + intros old Hold Hslot. by destruct (Hnone old Hold).
    + intros _. split_and!; [done|done|]. by apply map_size_insert_None.
    + intros k Hk. by rewrite lookup_insert_ne.
    + by apply map_Forall_insert_2.
    + unfold onePerSlot. rewrite Hperm, fmap_cons. apply NoDup_cons. split; [|done].
      intros [x [Hs Hx]]%list_elem_of_fmap. apply (Hnone x Hx).
      unfold slotOf in Hs. cbn in Hs. split; congruence.
Qed.

(** X25. [setBudget] sets the budget of a category for a month and keeps it
    unique. On a store keyed by id with at most one budget per category
    and month, the next id being free: the record returned has the
    category, month key, amount and currency asked for and the clock
    reading of the call as [updatedAt]; it is afterwards the one budget of
    that category that [getBudgetsByMonth] returns for the month, and
    [deleteBudget] of its id leaves none; when the slot was taken the id
    and [createdAt] of the old budget are kept and the store does not
    grow, otherwise the record takes the next id and the store grows by
    one; no other record changes; the store is still keyed by id with at
    most one budget per category and month. *)
Theorem setBudget_upserts cid amount cur year month bw :
  keyed_by b_id (budgets bw) ->
  onePerSlot (budgets bw) ->
  budgets bw !! uuidv4 (b_uuid_calls bw) = None ->
  let (b, bw') := setBudget uuidv4 clock cid amount cur year month bw in
  let key := getMonthKey year month in
  b_categoryId b = cid /\ b_month b = key /\
  b_amount b = amount /\ b_currency b = cur /\
  b_updatedAt b = clock (b_clock_reads bw) /\
  filter (fun x => b_categoryId x = cid)
         (getBudgetsByMonth year month bw') = [b] /\
  filter (fun x => b_categoryId x = cid)
         (getBudgetsByMonth year month (deleteBudget (b_id b) bw')) = [] /\
  (forall old, old ∈ getAll (budgets bw) -> inSlot cid key old ->
     b_id b = b_id old /\ b_createdAt b = b_createdAt old /\
     size (budgets bw') = size (budgets bw)) /\
  ((forall old, old ∈ getAll (budgets bw) -> ~ inSlot cid key old) ->
     b_id b = uuidv4 (b_uuid_calls bw) /\
     b_createdAt b = clock (b_clock_reads bw) /\
     size (budgets bw') = S (size (budgets bw))) /\
  (forall k, k <> b_id b -> budgets bw' !! k = budgets bw !! k) /\
  keyed_by b_id (budgets bw') /\ onePerSlot (budgets bw').
Proof.
  intros Hkey Hone Hfresh.
  pose proof (setBudget_spec cid amount cur year month bw Hkey Hone Hfresh) as H.
  destruct (setBudget uuidv4 clock cid amount cur year month bw) as [b bw'].
  cbv zeta in *.
  destruct H as (Hlk & Hc & Hm & Ha & Hcu & Hu & Hone1 & Hold & Hnew & Hfr & Hk' & Ho').
  split_and!; try done.
  unfold getBudgetsByMonth, deleteBudget in *. cbn [budgets].
  rewrite list_filter_filter in Hone1 |- *.
  pose proof (getAll_delete_perm _ _ _ Hlk) as Hperm.
  match type of Hone1 with
  | @filter _ _ _ ?P ?D ?l = _ =>
      assert (Hp : @filter _ _ _ P D l
                   ≡ₚ @filter _ _ _ P D
                        (b :: getAll (delete (b_id b) (budgets bw'))))
        by (by rewrite <- Hperm)
  end.
  rewrite Hone1, filter_cons, decide_True in Hp by done.
  apply Permutation_cons_inv in Hp. symmetry in Hp.
  by apply Permutation_nil_r in Hp.
Qed.

Lemma slot_injective (m : gmap string CategoryBudget) x y :
  onePerSlot m -> x ∈ getAll m -> y ∈ getAll m -> slotOf x = slotOf y -> x = y.
Proof.
  unfold onePerSlot. induction (getAll m) as [|z l IH]; intros Hone Hx Hy Hs.
  - by apply elem_of_nil in Hx.
  - rewrite fmap_cons, NoDup_cons in Hone. destruct Hone as [Hz Hnd].
    apply elem_of_cons in Hx as [->|Hx]; apply elem_of_cons in Hy as [->|Hy].
    + done.
    + exfalso. apply Hz. rewrite Hs. by apply list_elem_of_fmap_2.
    + exfalso. apply Hz. rewrite <- Hs. by apply list_elem_of_fmap_2.
    + by apply IH.
Qed.

(** What a call leaves alone: the budgets of the other slots, in both
    directions, and the free keys other than the id it may draw. *)
Lemma setBudget_frame cid amount cur year month bw :
  keyed_by b_id (budgets bw) ->
  budgets bw !! uuidv4 (b_uuid_calls bw) = None ->
  let bw' := snd (setBudget uuidv4 clock cid amount cur year month bw) in
  let key := getMonthKey year month in
  (forall x, ~ inSlot cid key x ->
     budgets bw' !! b_id x = Some x <-> budgets bw !! b_id x = Some x) /\
  (b_uuid_calls bw' = b_uuid_calls bw \/
   b_uuid_calls bw' = S (b_uuid_calls bw)) /\
  (forall k, k <> uuidv4 (b_uuid_calls bw) ->
     budgets bw !! k = None -> budgets bw' !! k = None) /\
  (b_uuid_calls bw' = b_uuid_calls bw ->
     forall k, budgets bw !! k = None -> budgets bw' !! k = None).
Proof.
  intros Hkey Hfresh. cbv zeta.
  destruct (setBudget_cases cid amount cur year month bw Hkey)
    as [(existing & Hex & Hslot & ->)|(Hnone & ->)]; cbv zeta;
    cbn [snd budgets b_uuid_calls].
  - assert (Hfree : forall k, budgets bw !! k = None ->
              <[b_id existing := amended existing amount cur
                                   (clock (b_clock_reads bw))]> (budgets bw) !! k
              = None).
    { intros k Hk. rewrite lookup_insert_ne; [done|]. intros <-. congruence. }
    split_and!; [|by left|by intros k _; apply Hfree|by intros _].
    intros x Hx. destruct (decide (b_id x = b_id existing)) as [Heq|Hne].
    + rewrite Heq, lookup_insert_eq, Hex.
      split; intros [= <-]; exfalso; apply Hx; exact Hslot.
    + by rewrite lookup_insert_ne.
  - split_and!; [|by right| |intros Heq; lia].
    + intros x Hx.
      destruct (decide (b_id x = uuidv4 (b_uuid_calls bw))) as [Heq|Hne].
      * rewrite Heq, lookup_insert_eq, Hfresh.
        split; [|done]. intros [= <-]. exfalso. apply Hx. done.
      * by rewrite lookup_insert_ne.
    + intros k Hk Hnone'. by rewrite lookup_insert_ne.
Qed.

Lemma fresh_uuids_step (m m' : gmap string CategoryBudget) (c c' n : nat) :
  fresh_uuids uuidv4 m c (S n) ->
  (c' = c \/ c' = S c) ->
  (forall k, k <> uuidv4 c -> m !! k = None -> m' !! k = None) ->
  (c' = c -> forall k, m !! k = None -> m' !! k = None) ->
  fresh_uuids uuidv4 m' c' n.
Proof.
  intros [Hnd Hfresh] Hc Hother Hsame. unfold fresh_uuids.
  destruct Hc as [-> | ->].
  - rewrite seq_S, fmap_app in Hnd. apply NoDup_app in Hnd as (Hnd & _ & _).
    rewrite seq_S, Forall_app in Hfresh. destruct Hfresh as [Hfresh _].
    split; [done|]. eapply Forall_impl; [exact Hfresh|].
    intros k Hk. by apply Hsame.
  - cbn [seq fmap list_fmap] in Hnd. apply NoDup_cons in Hnd as [Hni Hnd].
    cbn [seq] in Hfresh. apply Forall_cons in Hfresh as [_ Hfresh].
    split; [done|]. rewrite Forall_forall in Hfresh |- *. intros k Hk.
    apply Hother; [|by apply Hfresh].
    intros Heq. apply Hni. rewrite <- Heq. by apply list_elem_of_fmap_2.
Qed.

Lemma copyEach_spec srcs toYear toMonth bw :
  keyed_by b_id (budgets bw) ->
  onePerSlot (budgets bw) ->
  NoDup (b_categoryId <$> srcs) ->
  fresh_uuids uuidv4 (budgets bw) (b_uuid_calls bw) (length srcs) ->
  let (results, bw') := copyEach uuidv4 clock srcs toYear toMonth bw in
  let key := getMonthKey toYear toMonth in
  keyed_by b_id (budgets bw') /\ onePerSlot (budgets bw') /\
  Forall2 (fun src b =>
             budgets bw' !! b_id b = Some b /\
             b_categoryId b = b_categoryId src /\ b_month b = key /\
             b_amount b = b_amount src /\ b_currency b = b_currency src)
          srcs results /\
  (forall x, ~ (b_month x = key /\ b_categoryId x ∈ b_categoryId <$> srcs) ->
     budgets bw' !! b_id x = Some x <-> budgets bw !! b_id x = Some x).
Proof.
  revert bw. induction srcs as [|s rest IH]; intros bw Hkey Hone Hnd Hfresh.
  - cbn. by split_and!.
  - cbn [copyEach].
    rewrite fmap_cons, NoDup_cons in Hnd. destruct Hnd as [Hs Hnd].
    assert (Hfree : budgets bw !! uuidv4 (b_uuid_calls bw) = None).
    { destruct Hfresh as [_ Hf]. cbn [length seq] in Hf.
      by apply Forall_cons in Hf as [Hf _]. }
    pose proof (setBudget_spec (b_categoryId s) (b_amount s) (b_currency s)
                  toYear toMonth bw Hkey Hone Hfree) as Hspec.
    pose proof (setBudget_frame (b_categoryId s) (b_amount s) (b_currency s)
                  toYear toMonth bw Hkey Hfree) as Hframe.
    destruct (setBudget uuidv4 clock (b_categoryId s) (b_amount s) (b_currency s)
                toYear toMonth bw) as [copied bw1].
    cbv zeta in Hspec, Hframe. cbn [snd] in Hframe.
    destruct Hspec as (Hlk & Hcat & Hmon & Ham & Hcur & _ & _ & _ & _ & _ & Hkey1 & Hone1).
    destruct Hframe as (Hfr & Hcalls & Hother & Hsame).
    assert (Hfresh1 : fresh_uuids uuidv4 (budgets bw1) (b_uuid_calls bw1)
                        (length rest)).
    { by eapply fresh_uuids_step. }
    specialize (IH bw1 Hkey1 Hone1 Hnd Hfresh1).
    destruct (copyEach uuidv4 clock rest toYear toMonth bw1) as [results bw2].
    cbv zeta in IH. destruct IH as (Hkey2 & Hone2 & Hres & Hfr2).
    cbv zeta. split_and!; try done.
    + constructor; [|done]. split_and!; try done.
      apply Hfr2; [|done]. intros [_ Hin]. apply Hs. by rewrite <- Hcat.
    + intros x Hx. rewrite Hfr2.
      * apply Hfr. intros [Hxc Hxm]. apply Hx. split; [done|].
        rewrite fmap_cons, Hxc. by left.
      * intros [Hxm Hin]. apply Hx. split; [done|]. rewrite fmap_cons. by right.
Qed.

(** X26. [copyBudgetsToMonth] on a store keyed by id with at most one budget
    per category and month, the ids it may draw being new and pairwise
    distinct: it returns one budget per budget of the source month, in the
    same order, each with the category, amount and currency of its source
    and found among the budgets of the target month afterwards; the
    budgets of every month other than the target are exactly those of
    before; the store is still keyed by id with at most one budget per
    category and month. *)
Theorem copyBudgetsToMonth_copies fromYear fromMonth toYear toMonth bw :
  keyed_by b_id (budgets bw) ->
  onePerSlot (budgets bw) ->
  fresh_uuids uuidv4 (budgets bw) (b_uuid_calls bw)
    (length (getBudgetsByMonth fromYear fromMonth bw)) ->
  let (results, bw') :=
    copyBudgetsToMonth uuidv4 clock fromYear fromMonth toYear toMonth bw in
  let key := getMonthKey toYear toMonth in
  length results = length (getBudgetsByMonth fromYear fromMonth bw) /\
  Forall2 (fun src b =>
             b ∈ getBudgetsByMonth toYear toMonth bw' /\
             b_categoryId b = b_categoryId src /\
             b_amount b = b_amount src /\ b_currency b = b_currency src)
          (getBudgetsByMonth fromYear fromMonth bw) results /\
  (forall x, b_month x <> key ->
     x ∈ getAll (budgets bw') <-> x ∈ getAll (budgets bw)) /\
  keyed_by b_id (budgets bw') /\ onePerSlot (budgets bw').
Proof.
  intros Hkey Hone Hfresh. unfold copyBudgetsToMonth.
  set (srcs := getBudgetsByMonth fromYear fromMonth bw) in *.
  assert (Hnd : NoDup (b_categoryId <$> srcs)).
  { assert (Hsub : NoDup srcs).
    { subst srcs. unfold getBudgetsByMonth. apply NoDup_filter.
      eapply NoDup_fmap_1. by apply (getAll_NoDup b_id). }
    apply NoDup_fmap_2_strong; [|done].
    intros x y Hx Hy Hc. subst srcs. unfold getBudgetsByMonth in Hx, Hy.
    apply list_elem_of_filter in Hx as [Hxm Hx].
    apply list_elem_of_filter in Hy as [Hym Hy].
    apply (slot_injective (budgets bw)); [done|done|done|].
    unfold slotOf. congruence. }
  pose proof (copyEach_spec srcs toYear toMonth bw Hkey Hone Hnd Hfresh) as H.
  destruct (copyEach uuidv4 clock srcs toYear toMonth bw) as [results bw'].
  cbv zeta in *. destruct H as (Hkey' & Hone' & Hres & Hfr).
  split_and!; try done.
  - symmetry. by eapply Forall2_length.
  - eapply Forall2_impl; [exact Hres|]. cbv beta.
    intros src b (Hlk & Hc & Hm & Ha & Hcu). split_and!; try done.
    unfold getBudgetsByMonth. apply list_elem_of_filter. split; [done|].
    apply getAll_elem. eauto.
  - intros x Hx. split.
    + intros Hin. apply getAll_elem. exists (b_id x).
      apply Hfr; [by intros [? _]|]. by apply getAll_keyed.
    + intros Hin. apply getAll_elem. exists (b_id x).
      apply Hfr; [by intros [? _]|]. by apply getAll_keyed.
Qed.

End BudgetFacts.

(** ** References from transactions to categories and accounts *)

Section ReferenceFacts.

Variable LocalTZA : Z -> bool -> Z.
Variable dayOverflow : bool.
Variable uuidv4 : nat -> string.
Variable clock : nat -> string.

(** X15. Deleting with a substitute that exists keeps the references sound.
    On a store keyed by id in which every transaction names an existing
    category and an existing account, this is still so after
    [deleteCategory catA catB] when [catB] is another category of the
    store, and after [deleteAccount accA accB] when [accB] is another
    account of the store. *)
Theorem deleting_keeps_references catA catB accA accB w :
  catA <> catB ->
  accA <> accB ->
  keyed_by id (transactions w) ->
  wellReferenced w ->
  (is_Some (categories w !! catB) ->
   wellReferenced (snd (deleteCategory clock catA catB w))) /\
  (is_Some (accounts w !! accB) ->
   wellReferenced (snd (deleteAccount clock accA accB w))).
Proof.
  intros Hcne Hane Hkey Href. split; intros HB.
  - rewrite deleteCategory_eq. cbn [snd].
    pose proof (forEach_rewrite_slots clock (fun tx => categoryId tx = catA)
                  (fun tx now => retarget tx catB now)
                  (fun _ _ => eq_refl) w Hkey) as Hslots.
    destruct (forEach_rewrite clock (fun tx => categoryId tx = catA)
                (fun tx now => retarget tx catB now) (fun _ _ => eq_refl)
                (getAll (transactions w)) w (getAll_NoDup id _ Hkey))
      as (Hc & Ha & _).
    cbv zeta in *. set (w1 := snd (forEach _ _ w)) in *.
    unfold wellReferenced, set_categories. cbn [transactions categories accounts].
    intros k tx Hk. specialize (Hslots k). rewrite Hc, Ha.
    destruct (transactions w !! k) as [tx0|] eqn:Hk0; [|congruence].
    destruct (Href k tx0 Hk0) as [Hcat Hacc].
    destruct (decide (categoryId tx0 = catA)) as [Heq|Hneq].
    + destruct Hslots as [j [_ Hj]]. rewrite Hj in Hk. injection Hk as <-.
      cbn. by rewrite lookup_delete_ne.
    + rewrite Hslots in Hk. injection Hk as <-.
      by rewrite lookup_delete_ne.
  - pose proof (deleteAccount_slots clock accA accB w Hkey) as Hslots.
    destruct (deleteAccount_rest clock accA accB w) as (Ha & Hc & _).
    cbv zeta in *. set (w' := snd (deleteAccount clock accA accB w)) in *.
    unfold wellReferenced. intros k tx Hk. specialize (Hslots k).
    rewrite Hc, Ha.
    destruct (transactions w !! k) as [tx0|] eqn:Hk0; [|congruence].
    destruct (Href k tx0 Hk0) as [Hcat Hacc].
    destruct (decide (accountId tx0 = accA)) as [Heq|Hneq].
    + destruct Hslots as [j [_ Hj]]. rewrite Hj in Hk. injection Hk as <-.
      cbn. by rewrite lookup_delete_ne.
    + rewrite Hslots in Hk. injection Hk as <-.
      by rewrite lookup_delete_ne.
Qed.

Lemma wellReferenced_grow (w w' : World) :
  transactions w' = transactions w ->
  (forall k, is_Some (categories w !! k) -> is_Some (categories w' !! k)) ->
  (forall k, is_Some (accounts w !! k) -> is_Some (accounts w' !! k)) ->
  wellReferenced w -> wellReferenced w'.
Proof.
  intros Ht Hc Ha Href. unfold wellReferenced. rewrite Ht.
  intros k tx Hk. destruct (Href k tx Hk). split; auto.
Qed.

Lemma is_Some_insert {R} (m : gmap string R) (i k : string) (x : R) :
  is_Some (m !! k) -> is_Some (<[i := x]> m !! k).
Proof.
  intros Hk. destruct (decide (k = i)) as [->|Hne].
  - rewrite lookup_insert_eq. eauto.
  - by rewrite lookup_insert_ne.
Qed.

(** X16. Editing the catalogue cannot break a reference: when every
    transaction names an existing category and an existing account, this
    is still so after [addCategory], [addAccount], [updateCategory] and
    [updateAccount], for every draft, id and patch. *)
Theorem catalogue_edits_keep_references w :
  wellReferenced w ->
  (forall draft, wellReferenced (snd (addCategory uuidv4 clock draft w))) /\
  (forall draft, wellReferenced (snd (addAccount uuidv4 clock draft w))) /\
  (forall i updates,
     wellReferenced (snd (updateCategory clock i updates w))) /\
  (forall i updates,
     wellReferenced (snd (updateAccount clock i updates w))).
Proof.
  intros Href. split_and!.
  - intros draft. eapply wellReferenced_grow; [| | |exact Href]; try done.
    intros k Hk. cbn. by apply is_Some_insert.
  - intros draft. eapply wellReferenced_grow; [| | |exact Href]; try done.
    intros k Hk. cbn. by apply is_Some_insert.
  - intros i updates. unfold updateCategory. step_monad.
    destruct (categories w !! i) as [existing|] eqn:Hi; [|done].
    eapply wellReferenced_grow; [| | |exact Href]; try done.
    intros k Hk. cbn. by apply is_Some_insert.
  - intros i updates. unfold updateAccount. step_monad.
    destruct (accounts w !! i) as [existing|] eqn:Hi; [|done].
    eapply wellReferenced_grow; [| | |exact Href]; try done.
    intros k Hk. cbn. by apply is_Some_insert.
Qed.

Lemma fixedClones_sources year month srcs cu ct tx :
  tx ∈ fixedClones LocalTZA dayOverflow uuidv4 clock year month srcs cu ct ->
  exists src, src ∈ srcs /\ categoryId tx = categoryId src /\
              accountId tx = accountId src.
Proof.
  revert cu ct. induction srcs as [|s l IH]; intros cu ct Hin.
  - by apply elem_of_nil in Hin.
  - cbn [fixedClones] in Hin.
    destruct (parseDate dayOverflow (date s)) as [d|];
      [|by apply elem_of_nil in Hin].
    apply elem_of_cons in Hin as [->|Hin].
    + exists s. split; [by left|done].
    + destruct (IH _ _ Hin) as [src [Hsrc Heq]]. exists src. split; [by right|done].
Qed.

Lemma foldl_put_lookup_Some {R} (key : R -> string) (l : list R)
    (m : gmap string R) (k : string) (r : R) :
  foldl (put key) m l !! k = Some r -> m !! k = Some r \/ r ∈ l.
Proof.
  revert m. induction l as [|x l IH]; intros m Hk; [by left|].
  cbn [foldl] in Hk. apply IH in Hk as [Hk|Hk]; [|right; by right].
  unfold put in Hk. destruct (decide (k = key x)) as [->|Hne].
  - rewrite lookup_insert_eq in Hk. injection Hk as <-. right. by left.
  - rewrite lookup_insert_ne in Hk by done. by left.
Qed.

(** X21. Generating the fixed transactions of a month keeps the references
    sound: when every transaction names an existing category and an
    existing account, so does every transaction afterwards, the clones
    included. *)
Theorem generate_keeps_references year month w :
  wellReferenced w ->
  wellReferenced (snd (generateFixedTransactionsForMonth LocalTZA dayOverflow
                         uuidv4 clock year month w)).
Proof.
  intros Href.
  destruct (fst (isMonthProcessed year month w)) eqn:Hp.
  - by rewrite (generate_processed LocalTZA dayOverflow uuidv4 clock year
                  month w Hp).
  - rewrite (generate_unprocessed LocalTZA dayOverflow uuidv4 clock year month
               w Hp).
    cbn [snd].
    set (w1 := withClones LocalTZA dayOverflow uuidv4 clock year month
                 (fixedSources LocalTZA dayOverflow year month w) w).
    assert (H1 : wellReferenced w1).
    { unfold wellReferenced. subst w1. unfold withClones.
      cbn [transactions categories accounts].
      intros k tx Hk. apply foldl_put_lookup_Some in Hk as [Hk|Hk].
      - by apply (Href k).
      - apply fixedClones_sources in Hk as [src [Hsrc [-> ->]]].
        unfold fixedSources, getFixedTransactionsFromMonth,
          getTransactionsByMonth in Hsrc. step_monad.
        apply list_elem_of_filter in Hsrc as [_ Hsrc].
        apply list_elem_of_filter in Hsrc as [_ Hsrc].
        apply getAll_elem in Hsrc as [k' Hk']. by apply (Href k'). }
    destruct (markMonthAsProcessed_stores clock year month w1) as (Ht & Hc & Ha & _).
    eapply wellReferenced_grow; [exact Ht| | |exact H1].
    + intros k. by rewrite Hc.
    + intros k. by rewrite Ha.
Qed.

End ReferenceFacts.

(** ** The reports page *)

Section ReportFacts.

Import JSDate.

Variable LocalTZA : Z -> bool -> Z.
Variable dayOverflow : bool.

(** A local time read back is the same time or, in a gap of the zone, a
    time less than 12 hours later. *)
Local Abbreviation readsBack :=
  (forall t, t <= LocalTime LocalTZA (UTC LocalTZA t) < t + 43200000).

Lemma noon_getDate (d : IsoDate) :
  readsBack -> valid_date d ->
  exists noon, parseLocalNoon LocalTZA dayOverflow d = Some noon /\
               getDate LocalTZA noon = iso_day d.
Proof.
  intros Hback Hv. unfold parseLocalNoon.
  rewrite (parseDate_valid dayOverflow) by done.
  eexists. split; [done|]. unfold getDate, DateFromTime.
  rewrite midnightUTC_dayNumber.
  specialize (Hback (MakeDate (dayNumber d) 0 + 43200000)).
  set (lt := LocalTime LocalTZA _) in *.
  replace lt with (MakeDate (dayNumber d) (lt - MakeDate (dayNumber d) 0))
    by (unfold MakeDate; lia).
  rewrite (proj1 (Day_MakeDate (dayNumber d) (lt - MakeDate (dayNumber d) 0)
                    ltac:(unfold msPerDay; lia))).
  by destruct (parseDate_fields d Hv) as (_ & _ & ->).
Qed.

Lemma MakeDay_last y mn :
  0 <= mn <= 11 -> MakeDay y (mn + 1) 0 = MakeDay y mn (DaysInMonth y mn).
Proof.
  intros Hmn. destruct (Z.eq_dec mn 11) as [->|Hne].
  - rewrite (MakeDay_month y 11) by lia.
    unfold MakeDay. cbv zeta.
    change ((11 + 1) / 12) with 1. change ((11 + 1) mod 12) with 0.
    rewrite DayFromYear_succ. pose proof (monthStart_last y) as Hl.
    replace (monthStart 0 (InLeapYear (y + 1))) with 0
      by (by destruct (InLeapYear (y + 1))).
    lia.
  - rewrite (MakeDay_overflow y mn) by lia. f_equal. lia.
Qed.

Lemma getMonth_range t : 0 <= getMonth LocalTZA t <= 11.
Proof. unfold getMonth, MonthFromTime. apply MonthFromDay_range. Qed.

Lemma emptyDays_rows currentDate :
  let year := getFullYear LocalTZA currentDate in
  let month := getMonth LocalTZA currentDate in
  readsBack ->
  ~ (0 <= year <= 99) ->
  emptyDays LocalTZA currentDate =
    (fun i => mkDayRow i Number.zero Number.zero)
      <$> seqZ 1 (DaysInMonth year month).
Proof.
  cbv zeta. intros Hback Hy. unfold emptyDays. cbv zeta. f_equal. f_equal.
  pose proof (getMonth_range currentDate) as Hm.
  unfold fromLocal.
  replace ((0 <=? getFullYear LocalTZA currentDate)
           && (getFullYear LocalTZA currentDate <=? 99)) with false.
  2:{ symmetry. apply andb_false_iff.
      destruct (Z.leb_spec 0 (getFullYear LocalTZA currentDate));
        [right|by left].
      apply Z.leb_gt. lia. }
  unfold getDate, DateFromTime.
  set (D := MakeDay _ _ 0).
  specialize (Hback (MakeDate D 0)).
  set (lt := LocalTime LocalTZA _) in *.
  replace lt with (MakeDate D (lt - MakeDate D 0)) by (unfold MakeDate; lia).
  rewrite (proj1 (Day_MakeDate D (lt - MakeDate D 0)
                    ltac:(unfold msPerDay; lia))).
  subst D. rewrite MakeDay_last by done.
  pose proof (DaysInMonth_range (getFullYear LocalTZA currentDate)
                (getMonth LocalTZA currentDate)).
  by destruct (civil_of_MakeDay (getFullYear LocalTZA currentDate)
                 (getMonth LocalTZA currentDate)
                 (DaysInMonth (getFullYear LocalTZA currentDate)
                    (getMonth LocalTZA currentDate))) as (_ & _ & ->); [|lia|].
Qed.

(** [sum + tx.value] *)
Local Abbreviation addValue :=
  (fun (sum : number) (tx : Transaction) => Number.add sum (value tx)).

Lemma chart_fold (txs : list Transaction) (days : list DayRow) :
  readsBack ->
  (forall tx, tx ∈ txs ->
     valid_date (date tx) /\ 1 <= iso_day (date tx) <= Z.of_nat (length days)) ->
  exists days',
    foldl (fun acc tx =>
             acc ≫= fun ds => chartTransaction LocalTZA dayOverflow ds tx)
          (Some days) txs = Some days' /\
    length days' = length days /\
    forall i row, days !! i = Some row ->
      days' !! i =
        Some (mkDayRow (row_day row)
                (foldl addValue (row_income row)
                       (onDay income (Z.of_nat i + 1) txs))
                (foldl addValue (row_expense row)
                       (onDay expense (Z.of_nat i + 1) txs))).
Proof.
  intros Hback. revert days. induction txs as [|tx txs IH]; intros days Hall.
  - exists days. split_and!; [done|done|].
    intros i [d a b] Hrow. by rewrite Hrow.
  - destruct (Hall tx ltac:(by left)) as [Hv Hd].
    cbn [foldl]. cbn [mbind option_bind]. unfold chartTransaction at 2.
    destruct (noon_getDate _ Hback Hv) as (noon & -> & Hnoon).
    cbv zeta. rewrite Hnoon.
    destruct (Z.ltb_spec (iso_day (date tx) - 1) 0) as [Hneg|_]; [lia|].
    set (idx := Z.to_nat (iso_day (date tx) - 1)).
    assert (Hidx : (idx < length days)%nat) by lia.
    destruct (lookup_lt_is_Some_2 days idx Hidx) as [row Hrow]. rewrite Hrow.
    set (row' := match type tx with
                 | income => _
                 | expense => _
                 end).
    destruct (IH (<[idx := row']> days)) as (days' & Hfold & Hlen & Hrows).
    { intros tx' Htx'. rewrite length_insert. apply Hall. by right. }
    exists days'. rewrite length_insert in Hlen. split_and!; [done|done|].
    intros i r Hr. unfold onDay. rewrite !filter_cons.
    destruct (decide (i = idx)) as [->|Hne].
    + rewrite (Hrows idx row') by (by rewrite list_lookup_insert_eq).
      rewrite Hrow in Hr. injection Hr as <-.
      subst row'.
      assert (Hday : iso_day (date tx) = Z.of_nat idx + 1) by lia.
      destruct (type tx) eqn:Hty; cbn [row_day row_income row_expense].
      * rewrite (decide_True (P := income = income /\ _)) by done.
        rewrite (decide_False (P := income = expense /\ _)) by (by intros [? _]).
        done.
      * rewrite (decide_False (P := expense = income /\ _)) by (by intros [? _]).
        rewrite (decide_True (P := expense = expense /\ _)) by done.
        done.
    + rewrite (Hrows i r) by (by rewrite list_lookup_insert_ne).
      assert (Hday : iso_day (date tx) <> Z.of_nat i + 1) by lia.
      by rewrite !decide_False by (by intros [_ ?]).
Qed.

(** Where the zone is behind UTC at the midnight of a date, the month query
    files the date under the month of its eve. *)
Lemma inMonth_behind year month (tx : Transaction) :
  valid_date (date tx) ->
  - msPerDay <= LocalTZA (midnightUTC (date tx)) true < 0 ->
  inMonth LocalTZA dayOverflow year month tx = true <->
  iso_year (plusDays (date tx) (-1)) = year /\
  iso_month (plusDays (date tx) (-1)) - 1 = month.
Proof.
  intros Hv Ho. unfold inMonth. rewrite (parseDate_valid dayOverflow) by done.
  unfold getFullYear, getMonth, YearFromTime, MonthFromTime.
  rewrite midnightUTC_dayNumber in *.
  replace (LocalTime LocalTZA (MakeDate (dayNumber (date tx)) 0))
    with (MakeDate (dayNumber (date tx) + -1)
            (msPerDay + LocalTZA (MakeDate (dayNumber (date tx)) 0) true))
    by (unfold LocalTime, MakeDate; lia).
  rewrite (proj1 (Day_MakeDate (dayNumber (date tx) + -1)
                    (msPerDay + LocalTZA (MakeDate (dayNumber (date tx)) 0) true)
                    ltac:(lia))).
  unfold plusDays, dateOfDay. cbn [iso_year iso_month].
  rewrite andb_true_iff, !Z.eqb_eq. split; intros [? ?]; split; lia.
Qed.

(** The month query returns dates whose day fits the month asked for, in
    every zone less than a day away from UTC. *)
Lemma inMonth_day_fits year month (tx : Transaction) :
  - msPerDay < LocalTZA (midnightUTC (date tx)) true < msPerDay ->
  valid_date (date tx) ->
  inMonth LocalTZA dayOverflow year month tx = true ->
  1 <= iso_day (date tx) <= DaysInMonth year month.
Proof.
  intros Htz Hv Hin. pose proof Hv as [Hm Hd].
  destruct (Z.le_gt_cases 0 (LocalTZA (midnightUTC (date tx)) true))
    as [Heast|Hwest].
  - apply (inMonth_east LocalTZA dayOverflow year month tx Hv ltac:(lia)) in Hin
      as [<- <-]. done.
  - apply (inMonth_behind year month tx Hv ltac:(lia)) in Hin as [Hy Hmn].
    set (p := plusDays (date tx) (-1)) in *.
    assert (Hp : valid_date p) by apply valid_dateOfDay.
    assert (Hnext : date tx = nextDay p).
    { rewrite <- plusDays_one by done. subst p. rewrite plusDays_plusDays.
      symmetry. by apply plusDays_zero. }
    pose proof (DaysInMonth_range year month) as Hrange.
    destruct Hp as [Hpm Hpd]. rewrite Hy, Hmn in Hpd.
    clearbody p. rewrite Hnext. unfold nextDay. rewrite Hy, Hmn.
    destruct (Z.ltb_spec (iso_day p) (DaysInMonth year month)); [cbn; lia|].
    destruct (Z.ltb_spec (iso_month p) 12); cbn; lia.
Qed.

(** X29. The daily chart of the reports page, fed as the page feeds it with
    the answer of [getTransactionsByMonth] for the month of [currentDate],
    in a zone less than a day away from UTC in which a local time read back
    is the same time or, in a gap of the zone, less than 12 hours later
    (every zone of constant offset is one), for well-formed dates and a
    year outside 0..99: no row lookup fails, the chart has one row per day
    of that month, numbered from 1, and the income and expense of a row
    are the sums of the values of the listed incomes and expenses whose
    date string shows that day of the month, added from 0 in the order
    listed. *)
Theorem dailyData_charts_the_month currentDate w :
  let year := getFullYear LocalTZA currentDate in
  let month := getMonth LocalTZA currentDate in
  let txs := fst (getTransactionsByMonth LocalTZA dayOverflow year month w) in
  (forall t, - msPerDay < LocalTZA t true < msPerDay) ->
  (forall t, t <= LocalTime LocalTZA (UTC LocalTZA t) < t + 43200000) ->
  ~ (0 <= year <= 99) ->
  (forall tx, tx ∈ getAll (transactions w) -> valid_date (date tx)) ->
  exists days,
    dailyData LocalTZA dayOverflow txs currentDate = Some days /\
    Z.of_nat (length days) = DaysInMonth year month /\
    (forall i row, days !! i = Some row ->
       row_day row = Z.of_nat i + 1 /\
       row_income row = sumValues (onDay income (row_day row) txs) /\
       row_expense row = sumValues (onDay expense (row_day row) txs)).
Proof.
  cbv zeta. intros Htz Hback Hyear Hvalid.
  set (year := getFullYear LocalTZA currentDate) in *.
  set (month := getMonth LocalTZA currentDate) in *.
  set (txs := fst (getTransactionsByMonth LocalTZA dayOverflow year month w)).
  pose proof (DaysInMonth_range year month) as Hrange.
  unfold dailyData. rewrite (emptyDays_rows currentDate Hback Hyear).
  fold year month.
  set (rows := (fun i => mkDayRow i Number.zero Number.zero)
                 <$> seqZ 1 (DaysInMonth year month)).
  assert (Hlen : Z.of_nat (length rows) = DaysInMonth year month).
  { subst rows. rewrite length_fmap, length_seqZ. lia. }
  destruct (chart_fold txs rows Hback) as (days & Hfold & Hlen' & Hrows).
  { intros tx Htx. subst txs. unfold getTransactionsByMonth in Htx.
    step_monad. apply list_elem_of_filter in Htx as [Hin Htx].
    split; [by apply Hvalid|]. rewrite Hlen.
    apply inMonth_day_fits; [apply Htz|by apply Hvalid|done]. }
  exists days. split_and!; [done|lia|].
  intros i row Hrow.
  assert (Hi : (i < length rows)%nat).
  { rewrite <- Hlen'. apply lookup_lt_is_Some_1. eauto. }
  assert (Hinit : rows !! i
                  = Some (mkDayRow (1 + Z.of_nat i) Number.zero Number.zero)).
  { subst rows. rewrite list_lookup_fmap, lookup_seqZ_lt by lia. done. }
  rewrite (Hrows i _ Hinit) in Hrow. injection Hrow as <-.
  cbn [row_day row_income row_expense].
  replace (1 + Z.of_nat i) with (Z.of_nat i + 1) by lia. done.
Qed.

End ReportFacts.

(** ** The breakdown by category *)

Section BreakdownFacts.

Variable t : string -> string.

Implicit Types (entries : list (string * (number * option Category))).

(** The difference of two numbers is positive one way round at most. *)
Lemma binary_round_negative m e :
  Number.positive (SpecFloat.binary_round 53 1024 true m e) = false.
Proof.
  unfold SpecFloat.binary_round.
  destruct (SpecFloat.shl_align m e _) as [mz ez].
  unfold SpecFloat.binary_round_aux.
  destruct (SpecFloat.shr_fexp 53 1024 (Z.pos mz) ez SpecFloat.loc_Exact)
    as [mrs' e'].
  destruct (SpecFloat.shr_fexp 53 1024 _ e' SpecFloat.loc_Exact)
    as [mrs2 e2].
  destruct (SpecFloat.shr_m mrs2); [done| |done].
  by destruct (e2 <=? 1024 - 53).
Qed.

Lemma binary_normalize_positive m e :
  Number.positive (SpecFloat.binary_normalize 53 1024 m e false) = true ->
  0 < m.
Proof.
  destruct m as [|p|p]; cbn [SpecFloat.binary_normalize]; [done|lia|].
  by rewrite binary_round_negative.
Qed.

Lemma binary_normalize_negative m e :
  m < 0 -> Number.positive (SpecFloat.binary_normalize 53 1024 m e false) = false.
Proof.
  destruct m as [|p|p]; [lia|lia|]. intros _.
  cbn [SpecFloat.binary_normalize]. apply binary_round_negative.
Qed.

Lemma sub_positive (x y : number) :
  Number.positive (Number.sub x y) = true ->
  Number.positive (Number.sub y x) = false.
Proof.
  unfold Number.sub.
  destruct x as [sx|sx| |sx mx ex], y as [sy|sy| |sy my ey];
    try (by destruct sx, sy); try (by destruct sx); try (by destruct sy);
    try done.
  cbn [SpecFloat.SFsub]. intros Hpos%binary_normalize_positive.
  rewrite (Z.min_comm ey ex). apply binary_normalize_negative. lia.
Qed.

Lemma insertSlice_perm x l : insertSlice x l ≡ₚ x :: l.
Proof.
  induction l as [|y l IH]; [done|]. cbn [insertSlice].
  destruct (sortsAfter y x); [done|].
  rewrite IH. apply perm_swap.
Qed.

Lemma sortByValue_perm l : sortByValue l ≡ₚ l.
Proof.
  unfold sortByValue.
  assert (H : forall acc, foldl (fun sorted x => insertSlice x sorted) acc l
                          ≡ₚ acc ++ l).
  { induction l as [|x l IH]; intros acc; cbn [foldl].
    - by rewrite app_nil_r.
    - rewrite IH, insertSlice_perm. cbn [app]. apply Permutation_middle. }
  by rewrite H.
Qed.

Lemma insertSlice_head x l :
  exists rest, insertSlice x l = x :: rest \/
    exists y l', l = y :: l' /\ sortsAfter y x = false /\
                 insertSlice x l = y :: rest.
Proof.
  destruct l as [|y l]; cbn [insertSlice]; [eauto|].
  destruct (sortsAfter y x) eqn:Hs; eauto 8.
Qed.

Lemma insertSlice_descending x l : descending l -> descending (insertSlice x l).
Proof.
  induction l as [|y l IH]; intros Hd; [done|].
  cbn [insertSlice]. destruct Hd as [Hy Hd].
  destruct (sortsAfter y x) eqn:Hs.
  - cbn [descending]. split_and!; [|done|done].
    unfold sortsAfter in *. by apply sub_positive.
  - specialize (IH Hd). cbn [descending]. split; [|done].
    destruct l as [|z l]; cbn [insertSlice] in *; [done|].
    by destruct (sortsAfter z x).
Qed.

Lemma sortByValue_descending l : descending (sortByValue l).
Proof.
  unfold sortByValue.
  assert (H : forall acc, descending acc ->
            descending (foldl (fun sorted x => insertSlice x sorted) acc l)).
  { induction l as [|x l IH]; intros acc Hacc; [done|].
    cbn [foldl]. by apply IH, insertSlice_descending. }
  by apply H.
Qed.

Lemma createProperty_keys {A} (es : list (string * A)) k x :
  (createProperty es k x).*1 ≡ₚ k :: es.*1.
Proof.
  induction es as [|[k' y] rest IH]; [done|]. cbn [createProperty].
  destruct (listedBefore k k'); [done|].
  cbn [fmap list_fmap fst]. fold (fmap (M := list) (@fst string A)).
  rewrite IH. apply perm_swap.
Qed.

Lemma createProperty_amountAt entries cid a c k :
  cid ∉ entries.*1 ->
  amountAt (createProperty entries cid (a, c)) k
  = if decide (cid = k) then a else amountAt entries k.
Proof.
  induction entries as [|[k' [a' c']] rest IH]; intros Hnew.
  - done.
  - cbn [createProperty]. cbn [fmap list_fmap fst] in Hnew.
    apply not_elem_of_cons in Hnew as [Hne Hnew].
    destruct (listedBefore cid k'); [done|].
    cbn [amountAt]. rewrite IH by done.
    destruct (decide (k' = k)) as [->|]; [|done].
    by rewrite decide_False.
Qed.

Lemma addAmount_keys entries cid v : (addAmount entries cid v).*1 = entries.*1.
Proof.
  induction entries as [|[k [a c]] rest IH]; [done|]. cbn [addAmount].
  destruct (decide (k = cid)); [done|].
  cbn [fmap list_fmap fst].
  fold (fmap (M := list) (@fst string (number * option Category))).
  by rewrite IH.
Qed.

Lemma addAmount_amountAt entries cid v k :
  cid ∈ entries.*1 ->
  amountAt (addAmount entries cid v) k
  = if decide (cid = k) then Number.add (amountAt entries k) v
    else amountAt entries k.
Proof.
  induction entries as [|[k' [a' c']] rest IH]; intros Hin.
  - by apply elem_of_nil in Hin.
  - cbn [addAmount]. destruct (decide (k' = cid)) as [->|Hne].
    + cbn [amountAt]. by destruct (decide (cid = k)).
    + cbn [fmap list_fmap fst] in Hin.
      apply elem_of_cons in Hin as [->|Hin]; [done|].
      cbn [amountAt]. rewrite IH by done.
      destruct (decide (k' = k)) as [->|]; [|done].
      by rewrite decide_False.
Qed.

Lemma amountAt_new entries k : k ∉ entries.*1 -> amountAt entries k = Number.zero.
Proof.
  induction entries as [|[k' [a' c']] rest IH]; intros Hnew; [done|].
  cbn [fmap list_fmap fst] in Hnew.
  apply not_elem_of_cons in Hnew as [Hne Hnew].
  cbn [amountAt]. rewrite decide_False by done. by apply IH.
Qed.

Lemma amountAt_entry entries k a c :
  NoDup entries.*1 -> (k, (a, c)) ∈ entries -> amountAt entries k = a.
Proof.
  induction entries as [|[k' [a' c']] rest IH]; intros Hnd Hin.
  - by apply elem_of_nil in Hin.
  - cbn [fmap list_fmap fst] in Hnd. apply NoDup_cons in Hnd as [Hk' Hnd].
    cbn [amountAt]. apply elem_of_cons in Hin as [Hin|Hin].
    + injection Hin as -> -> ->. by rewrite decide_True.
    + rewrite decide_False; [by apply IH|].
      intros ->. apply Hk'. by apply (list_elem_of_fmap_2 fst) in Hin.
Qed.

Lemma bump_inherited entries cid v cat :
  inherited cid = true -> bump entries cid v cat = entries.
Proof. intros H. unfold bump. by rewrite H. Qed.

Lemma bump_keys entries cid v cat :
  inherited cid = false ->
  (bump entries cid v cat).*1 ≡ₚ
    if decide (cid ∈ entries.*1) then entries.*1 else cid :: entries.*1.
Proof.
  intros H. unfold bump. rewrite H. cbv zeta. rewrite addAmount_keys.
  case_bool_decide as Hin.
  - by rewrite decide_True.
  - rewrite decide_False by done. apply createProperty_keys.
Qed.

Lemma bump_amountAt entries cid v cat k :
  inherited cid = false ->
  amountAt (bump entries cid v cat) k
  = if decide (cid = k) then Number.add (amountAt entries k) v
    else amountAt entries k.
Proof.
  intros H. unfold bump. rewrite H. cbv zeta.
  case_bool_decide as Hin.
  - by apply addAmount_amountAt.
  - rewrite addAmount_amountAt.
    2:{ rewrite createProperty_keys. by left. }
    rewrite createProperty_amountAt by done.
    destruct (decide (cid = k)) as [->|]; [|done].
    by rewrite amountAt_new.
Qed.

Lemma bump_NoDup entries cid v cat :
  NoDup entries.*1 -> NoDup (bump entries cid v cat).*1.
Proof.
  intros Hnd. destruct (inherited cid) eqn:H.
  - by rewrite bump_inherited.
  - rewrite bump_keys by done.
    destruct (decide (cid ∈ entries.*1)); [done|]. by apply NoDup_cons.
Qed.

(** The loop that files the chosen transactions. *)
Local Abbreviation file cats :=
  (fun acc (tx : Transaction) =>
     bump acc (categoryId tx) (value tx) (categoryMap cats !! categoryId tx)).

(** [sum + tx.value] *)
Local Abbreviation addValue :=
  (fun (sum : number) (tx : Transaction) => Number.add sum (value tx)).

Lemma file_fold cats (l : list Transaction) entries :
  NoDup entries.*1 ->
  let entries' := foldl (file cats) entries l in
  NoDup entries'.*1 /\
  (forall k, inherited k = false ->
     amountAt entries' k =
       foldl addValue (amountAt entries k)
             (filter (fun tx => categoryId tx = k) l)) /\
  (forall k, k ∈ entries'.*1 <->
     k ∈ entries.*1 \/ (inherited k = false /\ k ∈ categoryId <$> l)).
Proof.
  revert entries. induction l as [|tx l IH]; intros entries Hnd; cbv zeta.
  - cbn [foldl]. split_and!; [done|done|].
    intros k. split; [by left|].
    intros [?|[_ Hn]]; [done|by apply elem_of_nil in Hn].
  - cbn [foldl].
    destruct (IH (bump entries (categoryId tx) (value tx)
                    (categoryMap cats !! categoryId tx))
                (bump_NoDup _ _ _ _ Hnd)) as (Hnd' & Hat & Hkeys).
    split_and!; [done| |].
    + intros k Hk. rewrite (Hat k Hk), filter_cons.
      destruct (decide (categoryId tx = k)) as [Heq|Hne].
      * rewrite bump_amountAt by (by rewrite Heq).
        by rewrite decide_True.
      * destruct (inherited (categoryId tx)) eqn:Hi.
        -- by rewrite bump_inherited.
        -- rewrite bump_amountAt by done. by rewrite decide_False.
    + intros k. rewrite Hkeys, fmap_cons.
      destruct (inherited (categoryId tx)) eqn:Hi.
      * rewrite bump_inherited by done.
        split; [intros [?|[? ?]]; [by left|right; split; [done|by right]]|].
        intros [?|[Hk [->|?]%elem_of_cons]]; [by left|congruence|by right].
      * rewrite bump_keys by done.
        destruct (decide (categoryId tx ∈ entries.*1)) as [Hin|Hin].
        -- split; [intros [?|[? ?]]; [by left|right; split; [done|by right]]|].
           intros [?|[Hk [->|?]%elem_of_cons]]; [by left|by left|by right].
        -- rewrite elem_of_cons.
           split.
           ++ intros [[->|?]|[? ?]];
                [right; split; [done|by left]|by left
                |right; split; [done|by right]].
           ++ intros [?|[Hk [->|?]%elem_of_cons]];
                [left; by right|left; by left|by right].
Qed.

Lemma slice_ids entries : slice_id <$> (sliceOf t <$> entries) = entries.*1.
Proof.
  rewrite <- list_fmap_compose. apply list_fmap_ext.
  intros i [k [a c]] _. done.
Qed.

(** X30. The breakdown by category of the reports page. The slices come in
    the order of the comparator of the sort: of two neighbours the second
    has no greater value than the first. There is one slice per category
    id, none for an id that every object inherits; the value of a slice is
    the sum of the values of the listed transactions of that type and
    category, added from 0 in the order listed; and every listed
    transaction of that type whose category id is not inherited has its
    slice. *)
Theorem byCategory_slices (ty : TxType)
    (txs : list Transaction) (cats : list Category) :
  let slices := byCategory t ty txs cats in
  descending slices /\
  NoDup (slice_id <$> slices) /\
  (forall s, s ∈ slices ->
     inherited (slice_id s) = false /\
     (exists tx, tx ∈ txs /\ type tx = ty /\ categoryId tx = slice_id s) /\
     slice_value s =
       sumValues (filter (fun tx => type tx = ty /\ categoryId tx = slice_id s)
                         txs)) /\
  (forall tx, tx ∈ txs -> type tx = ty -> inherited (categoryId tx) = false ->
     categoryId tx ∈ slice_id <$> slices).
Proof.
  cbv zeta. unfold byCategory. cbv zeta.
  set (chosen := filter (fun tx => type tx = ty) txs).
  destruct (file_fold cats chosen [] (NoDup_nil_2)) as (Hnd & Hat & Hkeys).
  cbv zeta in *. set (entries := foldl _ [] chosen) in *.
  pose proof (sortByValue_perm (sliceOf t <$> entries)) as Hperm.
  split_and!.
  - apply sortByValue_descending.
  - rewrite Hperm, slice_ids. exact Hnd.
  - intros s Hs. rewrite Hperm in Hs.
    apply list_elem_of_fmap in Hs as [[k [a c]] [-> He]].
    cbn [sliceOf slice_value slice_id].
    assert (Hk : k ∈ entries.*1) by (by apply (list_elem_of_fmap_2 fst) in He).
    apply Hkeys in Hk as [Hk|[Hk Hin]]; [by apply elem_of_nil in Hk|].
    split_and!; [done| |].
    + apply list_elem_of_fmap in Hin as [tx [-> Htx]]. exists tx.
      subst chosen. apply list_elem_of_filter in Htx as [? ?]. done.
    + rewrite <- (amountAt_entry entries k a c Hnd He), (Hat k Hk).
      unfold sumValues. cbn [amountAt]. f_equal.
      subst chosen. rewrite list_filter_filter.
      apply list_filter_iff. intros tx. tauto.
  - intros tx Htx Hty Hown. rewrite Hperm, slice_ids. apply Hkeys. right.
    split; [done|].
    apply list_elem_of_fmap_2. subst chosen. by apply list_elem_of_filter.
Qed.

End BreakdownFacts.

(** * The statements on concrete worlds *)

Local Open Scope string_scope.

(** Day numbers and dates that are known: the epoch, its eve, leap days. *)
Example known_days :
  dayNumber (mkIsoDate 1970 1 1) = 0 /\
  dateOfDay (-1) = mkIsoDate 1969 12 31 /\
  dayNumber (mkIsoDate 2024 2 29) = 19782 /\
  dateOfDay 19782 = mkIsoDate 2024 2 29 /\
  dayNumber (mkIsoDate 2000 3 1) = 11017 /\
  dateOfDay 11016 = mkIsoDate 2000 2 29 /\
  dateOfDay (dayNumber (mkIsoDate 1900 3 1) - 1) = mkIsoDate 1900 2 28 /\
  JSDate.fromLocal tzUTC 99 0 1 = midnightUTC (mkIsoDate 1999 1 1) /\
  parseDate v8 (mkIsoDate 1999 1 1) = Some (midnightUTC (mkIsoDate 1999 1 1)) /\
  parseDate v8 (mkIsoDate 2024 2 30) = Some (midnightUTC (mkIsoDate 2024 3 1)) /\
  parseDate false (mkIsoDate 2024 2 30) = None /\
  parseDate v8 (mkIsoDate 2024 13 45) = None /\
  parseDate v8 noDate = None /\
  getMonthKey 2024 0 = "2024-01" /\ getMonthKey 2023 11 = "2023-12".
Proof. vm_compute. by split_and!. Qed.

(** Paris changes to summer time on 31 March 2024 at 01:00 UTC: the local
    day 2024-03-31 has 23 hours. *)
Example paris_summer_time :
  tzParis (midnightUTC (mkIsoDate 2024 3 30)) true = 3600000 /\
  tzParis (midnightUTC (mkIsoDate 2024 3 31)) true = 3600000 /\
  tzParis (midnightUTC (mkIsoDate 2024 4 1)) true = 7200000 /\
  JSDate.UTC tzParis (midnightUTC (mkIsoDate 2024 4 1))
  = midnightUTC (mkIsoDate 2024 4 1) - 7200000.
Proof. vm_compute. by split_and!. Qed.

(** C9 fails as stated: the draft names a category and an account that the
    store does not have, and [addTransaction] stores it all the same. *)
Lemma addTransaction_accepts_dangling_reference :
  let w := homeWorld (mkIsoDate 2024 1 15) in
  let (tx, w') := addTransaction uuidOf clockOf danglingDraft w in
  categories w !! d_categoryId danglingDraft = None /\
  accounts w !! d_accountId danglingDraft = None /\
  transactions w !! id tx = None /\
  transactions w' !! id tx = Some tx /\
  categoryId tx = "cat-ghost" /\ accountId tx = "acc-ghost".
Proof. vm_compute. by split_and!. Qed.

(** C1 fails as stated: without the settings record the second call for
    February 2024 clones the January rent once more. *)
Lemma generate_twice_without_settings_repeats :
  let w := bareWorld (mkIsoDate 2024 1 15) in
  let (n1, w1) :=
    generateFixedTransactionsForMonth tzUTC v8 uuidOf clockOf 2024 1 w in
  let (n2, w2) :=
    generateFixedTransactionsForMonth tzUTC v8 uuidOf clockOf 2024 1 w1 in
  n1 = returned 1 /\ n2 = returned 1 /\ n2 <> returned 0 /\
  size (transactions w) = 1%nat /\
  size (transactions w1) = 2%nat /\
  size (transactions w2) = 3%nat.
Proof. vm_compute. by split_and!. Qed.

(** C1 on an initialised store: February 2024 is generated once. *)
Lemma generate_twice_with_settings_witness :
  let w := homeWorld (mkIsoDate 2024 1 15) in
  settings w = Some userSettings /\
  (let (n1, w1) :=
     generateFixedTransactionsForMonth tzUTC v8 uuidOf clockOf 2024 1 w in
   let (n2, w2) :=
     generateFixedTransactionsForMonth tzUTC v8 uuidOf clockOf 2024 1 w1 in
   fst (isMonthProcessed 2024 1 w1) = true /\
   n2 = returned 0 /\ w2 = w1 /\
   size (transactions w2) = size (transactions w1) /\
   (exists created, n1 = returned created)).
Proof.
  split; [reflexivity|].
  apply (generate_twice_with_settings tzUTC v8 uuidOf clockOf 2024 1
           (homeWorld (mkIsoDate 2024 1 15)) userSettings).
  reflexivity.
Defined.




(** C4 fails as stated: with the deleted category as its own substitute the
    transaction still names it afterwards, and the category is gone. *)
Lemma deleteCategory_same_target_keeps_reference :
  let w := homeWorld (mkIsoDate 2024 1 15) in
  let w' := snd (deleteCategory clockOf "cat-rent" "cat-rent" w) in
  (exists tx, transactions w' !! "tx-rent" = Some tx /\ categoryId tx = "cat-rent") /\
  categories w' !! "cat-rent" = None.
Proof. split; [eexists; split|]; by vm_compute. Qed.

(** C4 on the rent category, moved to the default category. *)
Lemma deleteCategory_moves_witness :
  let w := homeWorld (mkIsoDate 2024 1 15) in
  let catA := "cat-rent" in
  let catB := "cat-none" in
  catA <> catB /\
  keyed_by id (transactions w) /\
  (let w' := snd (deleteCategory clockOf catA catB w) in
   (forall k tx, transactions w' !! k = Some tx -> categoryId tx <> catA) /\
   (forall k tx, transactions w !! k = Some tx -> categoryId tx = catA ->
      exists j tx', (clock_reads w <= j < clock_reads w')%nat /\
        transactions w' !! k = Some tx' /\
        tx' = retarget tx catB (clockOf j) /\
        categoryId tx' = catB /\ updatedAt tx' = clockOf j) /\
   (forall k tx, transactions w !! k = Some tx -> categoryId tx <> catA ->
      transactions w' !! k = Some tx) /\
   (forall k, transactions w !! k = None -> transactions w' !! k = None) /\
   categories w' = delete catA (categories w) /\
   categories w' !! catA = None /\
   accounts w' = accounts w /\ settings w' = settings w).
Proof.
  assert (Hne : "cat-rent" <> "cat-none") by (by vm_compute).
  assert (Hkey : keyed_by id (transactions (homeWorld (mkIsoDate 2024 1 15)))).
  { apply (bool_decide_unpack _). vm_compute. exact I. }
  split; [exact Hne|]. split; [exact Hkey|].
  apply (deleteCategory_moves clockOf "cat-rent" "cat-none"
           (homeWorld (mkIsoDate 2024 1 15)) Hne Hkey).
Defined.

(** C5 on the code. The rent of 2024-01-31 regenerated for February lands on
    2024-02-29 in UTC, but on 2024-02-28 one hour east of UTC: the clone is
    built at local midnight and printed in UTC. Three hours west of UTC the
    rent of 2024-01-15 lands on 2024-02-14: the source date, parsed as UTC,
    is read back with the local getter. *)
Theorem fixed_rollover_shifts_outside_utc :
  let cloneDate tz d :=
    date <$> transactions
               (snd (generateFixedTransactionsForMonth tz v8 uuidOf clockOf
                       2024 1 (homeWorld d))) !! uuidOf 0 in
  cloneDate tzUTC (mkIsoDate 2024 1 31) = Some (mkIsoDate 2024 2 29) /\
  cloneDate tzParis (mkIsoDate 2024 1 31) = Some (mkIsoDate 2024 2 28) /\
  cloneDate tzLagos (mkIsoDate 2024 1 31) = Some (mkIsoDate 2024 2 28) /\
  cloneDate tzUTC (mkIsoDate 2024 1 15) = Some (mkIsoDate 2024 2 15) /\
  cloneDate tzParis (mkIsoDate 2024 1 15) = Some (mkIsoDate 2024 2 14) /\
  cloneDate tzSaoPaulo (mkIsoDate 2024 1 15) = Some (mkIsoDate 2024 2 14).
Proof. vm_compute. by split_and!. Qed.

(** C6 on the code. Three hours west of UTC the month query files the fixed
    rent of 2024-02-01 under January: generating March finds no source and
    clones nothing, while generating February takes it for a January bill
    and clones it onto 2024-02-29. *)
Theorem fixed_sources_miss_first_of_month :
  let w := homeWorld (mkIsoDate 2024 2 1) in
  let rent := fixedExpense "tx-rent" (mkIsoDate 2024 2 1) in
  previousMonth 2024 2 = (2024, 1) /\
  isFixed rent = true /\
  fixedSources tzSaoPaulo v8 2024 2 w = [] /\
  fixedSources tzUTC v8 2024 2 w = [rent] /\
  (let (n, w') :=
     generateFixedTransactionsForMonth tzSaoPaulo v8 uuidOf clockOf 2024 2 w in
   n = returned 0 /\ transactions w' = transactions w) /\
  fixedSources tzSaoPaulo v8 2024 1 w = [rent] /\
  (let (n, w') :=
     generateFixedTransactionsForMonth tzSaoPaulo v8 uuidOf clockOf 2024 1 w in
   n = returned 1 /\
   date <$> transactions w' !! uuidOf 0 = Some (mkIsoDate 2024 2 29)).
Proof. vm_compute. by split_and!. Qed.


(** In UTC the same monthly installments fall on the same day of the next
    month. *)
Example monthly_installments_in_utc :
  installmentDates
    (fst (addRecurringTransaction tzUTC v8 uuidOf clockOf
            (purchase (mkIsoDate 2024 3 1) (mkRepeatConfig 2 monthly None))
            (homeWorld (mkIsoDate 2024 1 15))))
  = Some [mkIsoDate 2024 3 1; mkIsoDate 2024 4 1].
Proof. by vm_compute. Qed.


Example plusMonths_rolls_over :
  plusMonths (mkIsoDate 2024 1 31) 1 = mkIsoDate 2024 3 2 /\
  plusMonths (mkIsoDate 2024 11 30) 3 = mkIsoDate 2025 3 2 /\
  plusMonths (mkIsoDate 2024 10 15) 14 = mkIsoDate 2025 12 15 /\
  plusMonths (mkIsoDate 2023 1 31) 1 = mkIsoDate 2023 3 3 /\
  plusYears (mkIsoDate 2024 2 29) 1 = mkIsoDate 2025 3 1 /\
  plusDays (mkIsoDate 2024 2 28) 2 = mkIsoDate 2024 3 1.
Proof. vm_compute. by split_and!. Qed.

(** C8 on the initialised store, imported into the empty world. *)
Lemma export_import_round_trip_witness :
  let w := homeWorld (mkIsoDate 2024 1 15) in
  let e := emptyWorld in
  keyed_by id (transactions w) /\
  keyed_by cat_id (categories w) /\
  keyed_by acc_id (accounts w) /\
  (let data := fst (handleExportData clockOf w) in
   let w' := snd (handleImportData (Some data) e) in
   settings w' = settings e /\
   transactions w' = transactions w /\
   categories w' = categories w /\
   accounts w' = accounts w).
Proof.
  assert (Kt : keyed_by id (transactions (homeWorld (mkIsoDate 2024 1 15)))).
  { apply (bool_decide_unpack _). vm_compute. exact I. }
  assert (Kc : keyed_by cat_id (categories (homeWorld (mkIsoDate 2024 1 15)))).
  { apply (bool_decide_unpack _). vm_compute. exact I. }
  assert (Ka : keyed_by acc_id (accounts (homeWorld (mkIsoDate 2024 1 15)))).
  { apply (bool_decide_unpack _). vm_compute. exact I. }
  split; [exact Kt|]. split; [exact Kc|]. split; [exact Ka|].
  destruct (export_import_round_trip clockOf (homeWorld (mkIsoDate 2024 1 15))
              emptyWorld Kt Kc Ka)
    as (_ & _ & _ & _ & _ & _ & _ & _ & Hs & Hrt).
  split; [exact Hs|]. apply Hrt; reflexivity.
Defined.

(** C3 fails as stated, in two ways. The amounts are binary floating-point
    numbers, and the entry is the running total in the order of the store,
    not the difference of the two sums: an income of 0.1, an expense of 0.3
    and an income of 0.2 leave the entry at 2^-55, while the sum of the
    incomes minus the sum of the expenses is 2^-54. And a row is a plain
    object: for the currency code ['constructor'] the test
    [!balances[a][c]] finds the function that every object inherits, no 0
    is stored, and [+=] appends the value to the text of that function; the
    entry is not a number, and the call has no balances of numbers to
    answer. *)
Lemma balance_is_a_running_total :
  let txs := getAll (transactions centsWorld) in
  inherited "constructor" = true /\
  ownKeys (getAll (accounts constructorWorld))
          (getAll (transactions constructorWorld)) = false /\
  fst (getAccountBalances constructorWorld) = None /\
  (id <$> txs) = ["tx-1"; "tx-2"; "tx-3"] /\
  (value <$> txs)
  = [SpecFloat.S754_finite false 7205759403792794 (-56);
     SpecFloat.S754_finite false 5404319552844595 (-54);
     SpecFloat.S754_finite false 7205759403792794 (-55)] /\
  (fst (getAccountBalances centsWorld)
     ≫= fun balances => entry balances "acc-main" "BRL")
  = Some (SpecFloat.S754_finite false 4503599627370496 (-107)) /\
  Number.sub (total income "acc-main" "BRL" txs)
             (total expense "acc-main" "BRL" txs)
  = SpecFloat.S754_finite false 4503599627370496 (-106) /\
  (fst (getAccountBalances centsWorld)
     ≫= fun balances => entry balances "acc-main" "BRL")
  <> Some (Number.sub (total income "acc-main" "BRL" txs)
                      (total expense "acc-main" "BRL" txs)).
Proof. vm_compute. by split_and!. Qed.

(** C3 on the store of the three amounts. *)
Lemma getAccountBalances_running_totals_witness :
  let txs := getAll (transactions centsWorld) in
  let accs := getAll (accounts centsWorld) in
  ownKeys accs txs = true /\
  exists balances,
    fst (getAccountBalances centsWorld) = Some balances /\
    entry balances "acc-main" "BRL"
    = Some (runningTotal "acc-main" "BRL" txs) /\
    entry balances "acc-main" "USD" = None.
Proof.
  assert (Hown : ownKeys (getAll (accounts centsWorld))
                         (getAll (transactions centsWorld)) = true)
    by reflexivity.
  split; [exact Hown|].
  destruct (getAccountBalances_running_totals centsWorld Hown)
    as (balances & Hb & Hsome & Hnone & _).
  exists balances. split; [exact Hb|]. split.
  - apply Hsome. apply (bool_decide_unpack _). vm_compute. exact I.
  - apply Hnone. apply (bool_decide_unpack _). vm_compute. exact I.
Defined.

(** The scenario of the specification for C3: an income of 1000, completed,
    and an expense of 300, pending, on one account and currency give a
    balance of 1000; an account without transactions has the empty row. *)
Example balances_pending_scenario :
  let paid := fromDraft
    (mkDraft income (Number.ofZ 1000) "BRL" "salary" "cat-none" "acc-main"
             (mkIsoDate 2024 3 1)
             true None false false None None None None EmptyString []) "tx-1" "t0" "t0" in
  let due := fromDraft
    (mkDraft expense (Number.ofZ 300) "BRL" "rent" "cat-rent" "acc-main"
             (mkIsoDate 2024 3 5)
             false None false false None None None None EmptyString []) "tx-2" "t0" "t0" in
  let spare := mkAccount "acc-spare" "spare" "#000000" "Wallet" false "t0" "t0" in
  let w := mkWorld {[ "tx-1" := paid; "tx-2" := due ]} ∅
                   {[ "acc-main" := mainAccount; "acc-spare" := spare ]}
                   None 0%nat 0%nat in
  exists balances,
    fst (getAccountBalances w) = Some balances /\
    entry balances "acc-main" "BRL" = Some (Number.ofZ 1000) /\
    entry balances "acc-main" "USD" = None /\
    balances !! "acc-spare" = Some ∅.
Proof. eexists. vm_compute. by split_and!. Qed.

(** ** The further statements on concrete worlds *)

Ltac decided := apply (bool_decide_unpack _); vm_compute; exact I.

(** X1 on the empty world, in a Brazilian browser. *)
Lemma initializeDB_first_launch_witness :
  let w := emptyWorld in
  settings w = None /\ categories w = ∅ /\ accounts w = ∅ /\
  NoDup (uuidOf <$> seq (S (uuid_calls w)) 15) /\
  (let w' := snd (initializeDB uuidOf clockOf "pt-BR" asciiLower w) in
   settings w' = Some (defaultSettings "pt-BR" asciiLower (clockOf 0)) /\
   us_language (defaultSettings "pt-BR" asciiLower (clockOf 0)) = "pt-br" /\
   us_defaultCurrency (defaultSettings "pt-BR" asciiLower (clockOf 0)) = "BRL" /\
   size (categories w') = 15%nat /\
   length (fst (getCategoriesByType income w')) = 5%nat).
Proof.
  assert (Hnd : NoDup (uuidOf <$> seq (S (uuid_calls emptyWorld)) 15)) by decided.
  split_and!; [reflexivity|reflexivity|reflexivity|exact Hnd|].
  destruct (initializeDB_first_launch uuidOf clockOf "pt-BR" asciiLower emptyWorld
              eq_refl eq_refl eq_refl Hnd)
    as (Hs & _ & _ & Hsize & Hinc & _).
  split_and!; [exact Hs|by vm_compute|by vm_compute|exact Hsize|exact Hinc].
Defined.



(** X5 on the rent, patched with another id. *)
Lemma updateTransaction_rename_copies_witness :
  let w := ledgerWorld in
  let existing := fixedExpense "tx-rent" (mkIsoDate 2024 1 15) in
  transactions w !! "tx-rent" = Some existing /\
  p_id (renaming "tx-copy") = Some "tx-copy" /\
  "tx-copy" <> "tx-rent" /\
  (let (r, w') := updateTransaction clockOf "tx-rent" (renaming "tx-copy") w in
   exists updated,
     r = Some updated /\ id updated = "tx-copy" /\
     transactions w' !! "tx-copy" = Some updated /\
     transactions w' !! "tx-rent" = Some existing /\
     (transactions w !! "tx-copy" = None ->
        size (transactions w') = S (size (transactions w)))).
Proof.
  assert (Hne : "tx-copy" <> "tx-rent") by (by vm_compute).
  split_and!; [reflexivity|reflexivity|exact Hne|].
  apply (updateTransaction_rename_copies clockOf "tx-rent" "tx-copy"
           (renaming "tx-copy") (fixedExpense "tx-rent" (mkIsoDate 2024 1 15))
           ledgerWorld eq_refl eq_refl Hne).
Defined.

(** X7 on the series of the ledger. *)
Lemma deleteRecurringTransactions_removes_series_witness :
  let w := ledgerWorld in
  keyed_by id (transactions w) /\
  (let w' := snd (deleteRecurringTransactions "series-1" w) in
   (forall k tx, transactions w' !! k = Some tx ->
      parentRepeatId tx <> Some "series-1" /\ transactions w !! k = Some tx) /\
   (forall k tx, transactions w !! k = Some tx ->
      parentRepeatId tx = Some "series-1" -> transactions w' !! k = None)).
Proof.
  assert (Hkey : keyed_by id (transactions ledgerWorld)) by decided.
  split; [exact Hkey|].
  destruct (deleteRecurringTransactions_removes_series "series-1" ledgerWorld Hkey)
    as (H1 & H2 & _).
  split; [exact H1|exact H2].
Defined.



(** X10 on the ledger, for January 2024. *)
Lemma getTransactionsByDateRange_calendar_witness :
  let w := ledgerWorld in
  let startDate := mkIsoDate 2024 1 1 in
  let endDate := mkIsoDate 2024 1 31 in
  fourDigitDate startDate /\ fourDigitDate endDate /\
  (forall tx, tx ∈ getAll (transactions w) -> fourDigitDate (date tx)) /\
  fst (getTransactionsByDateRange "2024-01-01" "2024-01-31" w)
  = filter (fun tx => dateLe startDate (date tx) /\ dateLe (date tx) endDate)
           (getAll (transactions w)).
Proof.
  assert (Hs : fourDigitDate (mkIsoDate 2024 1 1)) by decided.
  assert (He : fourDigitDate (mkIsoDate 2024 1 31)) by decided.
  assert (Hall : Forall (fun tx => fourDigitDate (date tx))
                   (getAll (transactions ledgerWorld))) by decided.
  rewrite Forall_forall in Hall.
  split_and!; [exact Hs|exact He|exact Hall|].
  exact (getTransactionsByDateRange_calendar (mkIsoDate 2024 1 1)
           (mkIsoDate 2024 1 31) ledgerWorld Hs He Hall).
Defined.

(** X11 on the savings account, moved to the main account. *)
Lemma deleteAccount_moves_witness :
  let w := ledgerWorld in
  "acc-save" <> "acc-main" /\
  keyed_by id (transactions w) /\
  (let w' := snd (deleteAccount clockOf "acc-save" "acc-main" w) in
   (forall k tx, transactions w' !! k = Some tx -> accountId tx <> "acc-save") /\
   accounts w' !! "acc-save" = None).
Proof.
  assert (Hne : "acc-save" <> "acc-main") by (by vm_compute).
  assert (Hkey : keyed_by id (transactions ledgerWorld)) by decided.
  split_and!; [exact Hne|exact Hkey|].
  destruct (deleteAccount_moves clockOf "acc-save" "acc-main" ledgerWorld Hne Hkey)
    as (H1 & _ & _ & _ & _ & H2 & _).
  split; [exact H1|exact H2].
Defined.

(** X12 on the savings account, moved onto itself. *)
Lemma deleteAccount_same_target_dangles_witness :
  let w := ledgerWorld in
  keyed_by id (transactions w) /\
  (let w' := snd (deleteAccount clockOf "acc-save" "acc-save" w) in
   accounts w' !! "acc-save" = None /\
   (forall k tx, transactions w !! k = Some tx -> accountId tx = "acc-save" ->
      exists tx', transactions w' !! k = Some tx' /\ accountId tx' = "acc-save")).
Proof.
  assert (Hkey : keyed_by id (transactions ledgerWorld)) by decided.
  split; [exact Hkey|].
  destruct (deleteAccount_same_target_dangles clockOf "acc-save" ledgerWorld Hkey)
    as (H1 & H2 & _).
  split; [exact H1|exact H2].
Defined.

(** X13 on the ledger: the savings account had paid 250, the main account
    holds 5000 - 1200; merged, 3550. *)
Lemma deleteAccount_merges_balances_witness :
  let w := ledgerWorld in
  "acc-save" <> "acc-main" /\
  keyed_by id (transactions w) /\
  (let w' := snd (deleteAccount clockOf "acc-save" "acc-main" w) in
   ownKeys (getAll (accounts w)) (getAll (transactions w)) = true /\
   ownKeys (getAll (accounts w')) (getAll (transactions w')) = true /\
   balance w' "acc-main" "BRL"
   = runningTotalOf (settlesEither "acc-save" "acc-main" "BRL")
                    (getAll (transactions w)) /\
   balance w' "acc-main" "BRL" = Number.ofZ 3550 /\
   balance w' "acc-save" "BRL" = Number.zero).
Proof.
  assert (Hne : "acc-save" <> "acc-main") by (by vm_compute).
  assert (Hkey : keyed_by id (transactions ledgerWorld)) by decided.
  assert (Hown : ownKeys (getAll (accounts ledgerWorld))
                         (getAll (transactions ledgerWorld)) = true)
    by (vm_compute; reflexivity).
  assert (Hown' : ownKeys
            (getAll (accounts (snd (deleteAccount clockOf "acc-save" "acc-main"
                                      ledgerWorld))))
            (getAll (transactions (snd (deleteAccount clockOf "acc-save"
                                          "acc-main" ledgerWorld)))) = true)
    by (vm_compute; reflexivity).
  split_and!; [exact Hne|exact Hkey|].
  destruct (deleteAccount_merges_balances clockOf "acc-save" "acc-main"
              ledgerWorld Hne Hkey Hown Hown' "BRL") as (H1 & H2 & _).
  split_and!; [exact Hown|exact Hown'|exact H1|by vm_compute|exact H2].
Defined.


(** X15 on the ledger. *)
Lemma deleting_keeps_references_witness :
  let w := ledgerWorld in
  "cat-rent" <> "cat-none" /\ "acc-save" <> "acc-main" /\
  keyed_by id (transactions w) /\ wellReferenced w /\
  wellReferenced (snd (deleteCategory clockOf "cat-rent" "cat-none" w)) /\
  wellReferenced (snd (deleteAccount clockOf "acc-save" "acc-main" w)).
Proof.
  assert (Hc : "cat-rent" <> "cat-none") by (by vm_compute).
  assert (Ha : "acc-save" <> "acc-main") by (by vm_compute).
  assert (Hkey : keyed_by id (transactions ledgerWorld)) by decided.
  assert (Href : wellReferenced ledgerWorld) by decided.
  split_and!; [exact Hc|exact Ha|exact Hkey|exact Href| |].
  - apply (deleting_keeps_references clockOf "cat-rent" "cat-none" "acc-save"
             "acc-main" ledgerWorld Hc Ha Hkey Href). decided.
  - apply (deleting_keeps_references clockOf "cat-rent" "cat-none" "acc-save"
             "acc-main" ledgerWorld Hc Ha Hkey Href). decided.
Defined.

(** X16 on the ledger. *)
Lemma catalogue_edits_keep_references_witness :
  let w := ledgerWorld in
  wellReferenced w /\
  wellReferenced
    (snd (addCategory uuidOf clockOf
            (mkCategoryDraft expense "books" "#6366F1" "Book" false false) w)) /\
  wellReferenced
    (snd (updateAccount clockOf "acc-save"
            (mkAccountPatch None (Some "reserve") None None None None None) w)).
Proof.
  assert (Href : wellReferenced ledgerWorld) by decided.
  split; [exact Href|].
  destruct (catalogue_edits_keep_references uuidOf clockOf ledgerWorld Href)
    as (H1 & _ & _ & H4).
  split; [apply H1|apply H4].
Defined.

(** X17 on the ledger: changing the currency keeps the months. *)
Lemma updateSettings_keeps_ledger_witness :
  let w := ledgerWorld in
  let updates := currencyChange "EUR" in
  (forall st, settings w = Some st -> us_id st = "user") /\
  (sp_id updates = None \/ sp_id updates = Some "user") /\
  (let (r, w') := updateSettings clockOf updates w in
   exists updated,
     r = Some updated /\ settings w' = Some updated /\
     us_defaultCurrency updated = "EUR" /\
     forall year month,
       fst (isMonthProcessed year month w') = fst (isMonthProcessed year month w)).
Proof.
  assert (Huser : forall st, settings ledgerWorld = Some st -> us_id st = "user").
  { intros st Hst. injection Hst as <-. reflexivity. }
  split_and!; [exact Huser|by left|].
  pose proof (updateSettings_keeps_ledger clockOf (currencyChange "EUR")
                ledgerWorld Huser (or_introl eq_refl)) as H.
  change (settings ledgerWorld) with (Some userSettings) in H.
  destruct (updateSettings clockOf (currencyChange "EUR") ledgerWorld) as [r w'] eqn:Hrun.
  destruct H as (updated & Hr & Hs & _ & _ & _ & Hkeep & _).
  exists updated. split_and!; [exact Hr|exact Hs| |exact (Hkeep eq_refl)].
  assert (Hcur : fst (updateSettings clockOf (currencyChange "EUR") ledgerWorld)
                 = Some (patchSettings userSettings (currencyChange "EUR") (clockOf 0)))
    by reflexivity.
  rewrite Hrun in Hcur. cbn [fst] in Hcur. rewrite Hr in Hcur.
  injection Hcur as ->. reflexivity.
Defined.

(** X18 on the ledger: a settled expense of 10 on the main account leaves
    the savings account alone. *)
Lemma addTransaction_moves_one_balance_witness :
  let w := ledgerWorld in
  let draft :=
    mkDraft expense (Number.ofZ 10) "BRL" "coffee" "cat-none" "acc-main"
            (mkIsoDate 2024 3 10)
            true None false false None None None None EmptyString [] in
  transactions w !! uuidOf (uuid_calls w) = None /\
  (let w' := snd (addTransaction uuidOf clockOf draft w) in
   ownKeys (getAll (accounts w')) (getAll (transactions w')) = true /\
   balance w' "acc-save" "BRL" = balance w "acc-save" "BRL" /\
   balance w "acc-main" "BRL" = Number.ofZ 3800 /\
   balance w' "acc-main" "BRL" = Number.ofZ 3790).
Proof.
  assert (Hfresh : transactions ledgerWorld !! uuidOf (uuid_calls ledgerWorld) = None)
    by (by vm_compute).
  split; [exact Hfresh|].
  destruct (addTransaction_moves_one_balance uuidOf clockOf
              (mkDraft expense (Number.ofZ 10) "BRL" "coffee" "cat-none"
                 "acc-main" (mkIsoDate 2024 3 10) true None false false None
                 None None None EmptyString [])
              ledgerWorld Hfresh) as [_ Hother].
  assert (Hown : ownKeys
            (getAll (accounts (snd (addTransaction uuidOf clockOf
               (mkDraft expense (Number.ofZ 10) "BRL" "coffee" "cat-none"
                  "acc-main" (mkIsoDate 2024 3 10) true None false false None
                  None None None EmptyString []) ledgerWorld))))
            (getAll (transactions (snd (addTransaction uuidOf clockOf
               (mkDraft expense (Number.ofZ 10) "BRL" "coffee" "cat-none"
                  "acc-main" (mkIsoDate 2024 3 10) true None false false None
                  None None None EmptyString []) ledgerWorld)))) = true)
    by (vm_compute; reflexivity).
  split_and!; [exact Hown| |by vm_compute|by vm_compute].
  apply (Hother Hown "acc-save" "BRL"). intros [Ha _]. discriminate Ha.
Defined.



(** X21 on the ledger, for February 2024. *)
Lemma generate_keeps_references_witness :
  let w := ledgerWorld in
  wellReferenced w /\
  wellReferenced (snd (generateFixedTransactionsForMonth tzUTC v8 uuidOf clockOf
                         2024 1 w)).
Proof.
  assert (Href : wellReferenced ledgerWorld) by decided.
  split; [exact Href|].
  exact (generate_keeps_references tzUTC v8 uuidOf clockOf 2024 1 ledgerWorld
           Href).
Defined.

(** X22 on the ledger, started on 1 February 2024. *)
Lemma initializeFixedTransactions_once_a_month_witness :
  let w := ledgerWorld in
  settings w = Some userSettings /\
  JSDate.getFullYear tzUTC (timeOf (clock_reads w)) = 2024 /\
  JSDate.getMonth tzUTC (timeOf (clock_reads w)) = 1 /\
  (let w1 := snd (initializeFixedTransactions tzUTC v8 uuidOf clockOf timeOf w) in
   fst (isMonthProcessed 2024 1 w1) = true).
Proof.
  split_and!; [reflexivity|by vm_compute|by vm_compute|].
  destruct (initializeFixedTransactions_once_a_month tzUTC v8 uuidOf clockOf
              timeOf ledgerWorld userSettings eq_refl) as (H1 & _).
  exact H1.
Defined.

(** X23 on a file that holds another category under the id of the rent
    category of the ledger: the rent category is replaced. *)
Lemma handleImportData_keeps_existing_witness :
  let e := ledgerWorld in
  keyed_by id (transactions e) /\
  categories e !! "cat-rent" = Some rentCategory /\
  housingCategory ∈ ex_categories clashingFile /\
  ~ knownCategory e housingCategory /\
  (let e' := snd (handleImportData (Some clashingFile) e) in
   (forall k tx, transactions e !! k = Some tx -> transactions e' !! k = Some tx) /\
   categories e' !! "cat-none" = Some otherCategory /\
   (exists c2, categories e' !! "cat-rent" = Some c2 /\ c2 <> rentCategory) /\
   categories e' !! "cat-rent" = Some housingCategory /\
   settings e' = settings e).
Proof.
  assert (Hkey : keyed_by id (transactions ledgerWorld)) by decided.
  assert (Hin : housingCategory ∈ ex_categories clashingFile) by decided.
  assert (Hun : ~ knownCategory ledgerWorld housingCategory) by decided.
  split; [exact Hkey|]. split; [reflexivity|]. split; [exact Hin|].
  split; [exact Hun|].
  destruct (handleImportData_keeps_existing clashingFile ledgerWorld Hkey)
    as (H1 & _ & Hkeep & Hrepl & _ & _ & _ & _ & H5 & _).
  split; [exact H1|]. split.
  { apply (Hkeep "cat-none" otherCategory eq_refl).
    intros c' Hc' Hid. apply list_elem_of_singleton in Hc'. subst c'.
    discriminate Hid. }
  split.
  { destruct (Hrepl "cat-rent" rentCategory housingCategory eq_refl Hin eq_refl
                Hun) as (c2 & _ & _ & _ & Hlk & Hne).
    exists c2. split; [exact Hlk|exact Hne]. }
  split; [by vm_compute|exact H5].
Defined.

(** X24 on the backup file, imported into the ledger. *)
Lemma handleImportData_twice_witness :
  let e := ledgerWorld in
  keyed_by id (transactions e) /\
  NoDup (cat_id <$> ex_categories backupFile) /\
  NoDup (acc_id <$> ex_accounts backupFile) /\
  Forall (fun c => knownCategory e c \/ categories e !! cat_id c = None)
         (ex_categories backupFile) /\
  Forall (fun a => knownAccount e a \/ accounts e !! acc_id a = None)
         (ex_accounts backupFile) /\
  handleImportData (Some backupFile) (snd (handleImportData (Some backupFile) e))
  = (tt, snd (handleImportData (Some backupFile) e)).
Proof.
  assert (Hkey : keyed_by id (transactions ledgerWorld)) by decided.
  assert (HndC : NoDup (cat_id <$> ex_categories backupFile)) by decided.
  assert (HndA : NoDup (acc_id <$> ex_accounts backupFile)) by decided.
  assert (HC : Forall (fun c => knownCategory ledgerWorld c \/
                               categories ledgerWorld !! cat_id c = None)
                 (ex_categories backupFile)) by decided.
  assert (HA : Forall (fun a => knownAccount ledgerWorld a \/
                               accounts ledgerWorld !! acc_id a = None)
                 (ex_accounts backupFile)) by decided.
  split_and!; [exact Hkey|exact HndC|exact HndA|exact HC|exact HA|].
  exact (handleImportData_twice backupFile ledgerWorld Hkey HndC HndA HC HA).
Defined.

(** X25 on the food budget of January 2024, raised to 900. *)
Lemma setBudget_upserts_witness :
  let bw := budgetWorld in
  keyed_by b_id (budgets bw) /\ onePerSlot (budgets bw) /\
  budgets bw !! uuidOf (b_uuid_calls bw) = None /\
  (let (b, bw') :=
     setBudget uuidOf clockOf "cat-food" (Number.ofZ 900) "BRL" 2024 0 bw in
   b_id b = "b-1" /\ b_amount b = Number.ofZ 900 /\
   filter (fun x => b_categoryId x = "cat-food")
          (getBudgetsByMonth 2024 0 bw') = [b] /\
   onePerSlot (budgets bw')).
Proof.
  assert (Hkey : keyed_by b_id (budgets budgetWorld)) by decided.
  assert (Hone : onePerSlot (budgets budgetWorld)) by decided.
  assert (Hfresh : budgets budgetWorld !! uuidOf (b_uuid_calls budgetWorld) = None)
    by (by vm_compute).
  split_and!; [exact Hkey|exact Hone|exact Hfresh|].
  pose proof (setBudget_upserts uuidOf clockOf "cat-food" (Number.ofZ 900) "BRL"
                2024 0 budgetWorld Hkey Hone Hfresh) as H.
  assert (Hid : b_id (fst (setBudget uuidOf clockOf "cat-food" (Number.ofZ 900)
                             "BRL" 2024 0 budgetWorld)) = "b-1")
    by (by vm_compute).
  destruct (setBudget uuidOf clockOf "cat-food" (Number.ofZ 900) "BRL" 2024 0
              budgetWorld)
    as [b bw'].
  destruct H as (_ & _ & Ham & _ & _ & Hone1 & _ & _ & _ & _ & _ & Ho).
  split_and!; [exact Hid|exact Ham|exact Hone1|exact Ho].
Defined.

(** X26 on the budgets of January 2024, copied to February. *)
Lemma copyBudgetsToMonth_copies_witness :
  let bw := budgetWorld in
  keyed_by b_id (budgets bw) /\ onePerSlot (budgets bw) /\
  fresh_uuids uuidOf (budgets bw) (b_uuid_calls bw)
    (length (getBudgetsByMonth 2024 0 bw)) /\
  (let (results, bw') := copyBudgetsToMonth uuidOf clockOf 2024 0 2024 1 bw in
   length results = 2%nat /\
   length (getBudgetsByMonth 2024 1 bw') = 2%nat /\
   onePerSlot (budgets bw')).
Proof.
  assert (Hkey : keyed_by b_id (budgets budgetWorld)) by decided.
  assert (Hone : onePerSlot (budgets budgetWorld)) by decided.
  assert (Hfresh : fresh_uuids uuidOf (budgets budgetWorld)
                     (b_uuid_calls budgetWorld)
                     (length (getBudgetsByMonth 2024 0 budgetWorld))) by decided.
  split_and!; [exact Hkey|exact Hone|exact Hfresh|].
  pose proof (copyBudgetsToMonth_copies uuidOf clockOf 2024 0 2024 1 budgetWorld
                Hkey Hone Hfresh) as H.
  assert (Hlen : length (getBudgetsByMonth 2024 1
                           (snd (copyBudgetsToMonth uuidOf clockOf 2024 0 2024 1
                                   budgetWorld))) = 2%nat) by (by vm_compute).
  destruct (copyBudgetsToMonth uuidOf clockOf 2024 0 2024 1 budgetWorld)
    as [results bw'].
  destruct H as (Hl & _ & _ & _ & Ho).
  split_and!; [by rewrite Hl|exact Hlen|exact Ho].
Defined.

(** X29 on the ledger in Sao Paulo, for January 2024. *)
Lemma dailyData_charts_the_month_witness :
  let w := ledgerWorld in
  let currentDate := midnightUTC (mkIsoDate 2024 1 20) in
  let year := JSDate.getFullYear tzSaoPaulo currentDate in
  let month := JSDate.getMonth tzSaoPaulo currentDate in
  let txs := fst (getTransactionsByMonth tzSaoPaulo v8 year month w) in
  (forall t, - JSDate.msPerDay < tzSaoPaulo t true < JSDate.msPerDay) /\
  (forall t, t <= JSDate.LocalTime tzSaoPaulo (JSDate.UTC tzSaoPaulo t)
             < t + 43200000) /\
  ~ (0 <= year <= 99) /\
  (forall tx, tx ∈ getAll (transactions w) -> valid_date (date tx)) /\
  year = 2024 /\ month = 0 /\
  exists days,
    dailyData tzSaoPaulo v8 txs currentDate = Some days /\
    Z.of_nat (length days) = 31.
Proof.
  assert (Htz : forall t,
            - JSDate.msPerDay < tzSaoPaulo t true < JSDate.msPerDay).
  { intros t. unfold tzSaoPaulo, JSDate.fixedOffset, JSDate.msPerDay. lia. }
  assert (Hback : forall t,
            t <= JSDate.LocalTime tzSaoPaulo (JSDate.UTC tzSaoPaulo t)
            < t + 43200000).
  { intros t. unfold JSDate.LocalTime, JSDate.UTC, tzSaoPaulo,
      JSDate.fixedOffset. lia. }
  assert (Hy : ~ (0 <= JSDate.getFullYear tzSaoPaulo
                         (midnightUTC (mkIsoDate 2024 1 20)) <= 99)) by decided.
  assert (Hall : Forall (fun tx => valid_date (date tx))
                   (getAll (transactions ledgerWorld))) by decided.
  rewrite Forall_forall in Hall.
  split; [exact Htz|]. split; [exact Hback|]. split; [exact Hy|].
  split; [exact Hall|].
  split; [by vm_compute|]. split; [by vm_compute|].
  destruct (dailyData_charts_the_month tzSaoPaulo v8
              (midnightUTC (mkIsoDate 2024 1 20)) ledgerWorld Htz Hback Hy Hall)
    as (days & Hd & Hlen & _).
  exists days. split; [exact Hd|]. rewrite Hlen. by vm_compute.
Defined.

(** Paris, with its summer time, is a zone of the kind that X29 asks for. *)
Example paris_reads_back :
  (forall t, - JSDate.msPerDay < tzParis t true < JSDate.msPerDay) /\
  (forall t, t <= JSDate.LocalTime tzParis (JSDate.UTC tzParis t)
             < t + 43200000).
Proof.
  split; intros t.
  - unfold tzParis, JSDate.msPerDay. cbv zeta. destruct (_ && _); lia.
  - unfold JSDate.LocalTime, JSDate.UTC, tzParis. cbv zeta.
    destruct (Z.leb_spec (1711846800000 + 7200000)%Z t);
      destruct (Z.ltb_spec t (1729990800000 + 7200000)%Z); cbn [andb];
      repeat match goal with
             | |- context [Z.leb ?a ?b] => destruct (Z.leb_spec a b)
             | |- context [Z.ltb ?a ?b] => destruct (Z.ltb_spec a b)
             end; cbn [andb]; lia.
Qed.

(** The slices of the breakdown need not add up to the total of the page:
    0.1 + 0.1 + 0.4 is 0.6000000000000001 in the order listed, and the
    slices 0.5 and 0.1 add up to 0.6. *)
Example slices_need_not_add_up :
  let slices := byCategory (fun key => key) expense tenths
                  [rentCategory; otherCategory] in
  slice_id <$> slices = ["cat-rent"; "cat-none"] /\
  slice_value <$> slices = [Number.decimal 5 1; Number.decimal 1 1] /\
  sliceTotal slices = Number.decimal 6 1 /\
  t_expense (totals tenths) <> sliceTotal slices.
Proof. vm_compute. by split_and!. Qed.

